(** * autopv-cli: the data-handling pipeline

    A shallow embedding of the scrubbing, classification, chunk processing
    and start-up cleanup code of autopv-cli, of the data buffer, the
    provider exports and the archive name, and the theorems that settle
    the properties stated about them.

    Conventions of the embedding.
    - A JavaScript string is a [string]: a sequence of code units, each
      below 256.  All patterns of the program are written over ASCII.
    - A hierarchical ("any") value is the inductive [value]; an object is
      the list of its own properties in property order.
    - A regular expression literal is a [regex] syntax tree, run by a
      backtracking matcher that follows the ECMAScript matching rules
      (ordered alternatives, greedy quantifiers, captures, [\b], [^], [$]).
    - Code that can throw returns a [result]; code that talks to the file
      system or to the reasoning service threads that state explicitly.
    - Where it matters whether an array or object is written to, arrays
      and objects are cells of a store, held by their addresses; the
      functions on values are related to those on the store. *)

From Stdlib Require Import String Ascii List ZArith NArith Bool Arith Lia.
Import ListNotations.
Local Open Scope string_scope.
Local Open Scope nat_scope.
Local Open Scope list_scope.
Local Infix "+++" := String.append (right associativity, at level 60).

Set Implicit Arguments.

(* ================================================================== *)
(** * Regular expressions                                              *)
(* ================================================================== *)

Module RegExp.

Definition code (c : ascii) : N := N_of_ascii c.

(** A character class: a union of inclusive ranges, possibly negated. *)
Inductive charset : Type :=
| Ranges (rs : list (ascii * ascii))
| NotRanges (rs : list (ascii * ascii)).

Definition in_range (c : ascii) (r : ascii * ascii) : bool :=
  (code (fst r) <=? code c)%N && (code c <=? code (snd r))%N.

Definition in_ranges (rs : list (ascii * ascii)) (c : ascii) : bool :=
  existsb (in_range c) rs.

(** The code units whose canonical (upper-case) form is the one of [c];
    used by the [i] flag.  A code unit above 127 never canonicalizes to an
    ASCII letter. *)
Definition case_variants (c : ascii) : list ascii :=
  let n := code c in
  if ((97 <=? n) && (n <=? 122))%N then [c; ascii_of_N (n - 32)]
  else if ((65 <=? n) && (n <=? 90))%N then [c; ascii_of_N (n + 32)]
  else if ((224 <=? n) && (n <=? 254) && negb (n =? 247))%N
       then [c; ascii_of_N (n - 32)]
  else if ((192 <=? n) && (n <=? 222) && negb (n =? 215))%N
       then [c; ascii_of_N (n + 32)]
  else [c].

Definition in_set (ic : bool) (cs : charset) (c : ascii) : bool :=
  let hit rs := if ic then existsb (in_ranges rs) (case_variants c)
                else in_ranges rs c in
  match cs with
  | Ranges rs => hit rs
  | NotRanges rs => negb (hit rs)
  end.

Inductive regex : Type :=
| Eps
| Chars (cs : charset)
| Seq (r1 r2 : regex)
| Alt (r1 r2 : regex)
| Capture (i : nat) (r : regex)
| Repeat (r : regex) (min : nat) (max : option nat)
| WordB
| Bol
| Eol.

(** Matcher state: the code unit before the current position, the input
    from the current position on, and the captures made so far. *)
Record mstate : Type := MState {
  prev : option ascii;
  rest : string;
  caps : list (nat * string)
}.

Definition cont : Type := mstate -> option mstate.

Definition is_word (c : ascii) : bool :=
  in_ranges [("a","z"); ("A","Z"); ("0","9"); ("_","_")]%char c.

Definition is_word_opt (o : option ascii) : bool :=
  match o with Some c => is_word c | None => false end.

Definition head (s : string) : option ascii :=
  match s with String c _ => Some c | EmptyString => None end.

Definition at_boundary (p : option ascii) (s : string) : bool :=
  xorb (is_word_opt p) (is_word_opt (head s)).

Fixpoint groups (r : regex) : list nat :=
  match r with
  | Seq r1 r2 | Alt r1 r2 => groups r1 ++ groups r2
  | Capture i r1 => i :: groups r1
  | Repeat r1 _ _ => groups r1
  | _ => []
  end.

Definition clear_caps (gs : list nat) (st : mstate) : mstate :=
  MState (prev st)
         (rest st)
         (filter (fun p => negb (existsb (Nat.eqb (fst p)) gs)) (caps st)).

Definition taken (before after : mstate) : string :=
  substring 0 (String.length (rest before) - String.length (rest after)) (rest before).

Definition set_cap (i : nat) (s : string) (st : mstate) : mstate :=
  MState (prev st) (rest st) ((i, s) :: caps st).

Definition pred_max (mx : option nat) : option nat :=
  match mx with Some n => Some (Nat.pred n) | None => None end.

(** The quantifier of ECMAScript (RepeatMatcher), greedy: [min] compulsory
    iterations, then iterations up to [max] that must each consume input.
    [fuel] bounds the number of iterations; [min + length (rest x)] is
    always enough, because every iteration beyond the compulsory ones consumes. *)
Fixpoint repeat_matcher (step : cont -> cont) (gs : list nat)
         (fuel min : nat) (mx : option nat) (k : cont) (x : mstate)
  : option mstate :=
  match mx with
  | Some 0 => k x
  | _ =>
    match fuel with
    | 0 => k x
    | S fuel' =>
      let d : cont := fun y =>
        if (min =? 0) && (String.length (rest y) =? String.length (rest x))
        then None
        else repeat_matcher step gs fuel' (Nat.pred min) (pred_max mx) k y in
      let xr := clear_caps gs x in
      if min =? 0
      then match step d xr with
           | Some z => Some z
           | None => k x
           end
      else step d xr
    end
  end.

Fixpoint m (ic : bool) (r : regex) (k : cont) (st : mstate) {struct r}
  : option mstate :=
  match r with
  | Eps => k st
  | Chars cs =>
      match rest st with
      | String c tl =>
          if in_set ic cs c then k (MState (Some c) tl (caps st)) else None
      | EmptyString => None
      end
  | Seq r1 r2 => m ic r1 (m ic r2 k) st
  | Alt r1 r2 =>
      match m ic r1 k st with
      | Some z => Some z
      | None => m ic r2 k st
      end
  | Capture i r1 => m ic r1 (fun y => k (set_cap i (taken st y) y)) st
  | Repeat r1 mn mx =>
      repeat_matcher (m ic r1) (groups r1) (mn + String.length (rest st)) mn mx k st
  | WordB => if at_boundary (prev st) (rest st) then k st else None
  | Bol => match prev st with None => k st | Some _ => None end
  | Eol => match rest st with EmptyString => k st | String _ _ => None end
  end.

(** A RegExp object: pattern and flags. *)
Record t : Type := Make {
  source : regex;
  global : bool;
  ignoreCase : bool
}.

(** One match attempt at the current position: the length of the match and
    its captures. *)
Definition exec_at (re : t) (p : option ascii) (s : string)
  : option (nat * list (nat * string)) :=
  match m (ignoreCase re) (source re) (fun y => Some y) (MState p s []) with
  | Some y => Some (String.length s - String.length (rest y), caps y)
  | None => None
  end.

Definition last_of (p : option ascii) (s : string) : option ascii :=
  match s with
  | EmptyString => p
  | String c tl =>
      Some ((fix last (c : ascii) (s : string) : ascii :=
               match s with EmptyString => c | String c' s' => last c' s' end)
              c tl)
  end.

Definition drop (n : nat) (s : string) : string :=
  substring n (String.length s - n) s.

Definition lookup_cap (i : nat) (cs : list (nat * string)) : string :=
  match find (fun p => fst p =? i) cs with
  | Some p => snd p
  | None => ""
  end.

Definition digit_val (c : ascii) : option nat :=
  let n := code c in
  if ((48 <=? n) && (n <=? 57))%N then Some (N.to_nat (n - 48)) else None.

(** GetSubstitution: expansion of a replacement template.  [ng] is the
    number of capture groups of the pattern. *)
Fixpoint expand (tmpl : string) (ng : nat) (matched before after : string)
         (cs : list (nat * string)) : string :=
  match tmpl with
  | EmptyString => ""
  | String "$" tl =>
      match tl with
      | String "$" tl' => String "$" (expand tl' ng matched before after cs)
      | String "&" tl' => matched +++ expand tl' ng matched before after cs
      | String "`" tl' => before +++ expand tl' ng matched before after cs
      | String "'" tl' => after +++ expand tl' ng matched before after cs
      | String d1 tl' =>
          match digit_val d1 with
          | None => String "$" (expand tl ng matched before after cs)
          | Some n1 =>
              let one :=
                if (1 <=? n1) && (n1 <=? ng)
                then lookup_cap n1 cs +++ expand tl' ng matched before after cs
                else String "$" (String d1
                       (expand tl' ng matched before after cs)) in
              match tl' with
              | String d2 tl'' =>
                  match digit_val d2 with
                  | Some n2 =>
                      let nn := 10 * n1 + n2 in
                      if (1 <=? nn) && (nn <=? ng)
                      then lookup_cap nn cs
                             +++ expand tl'' ng matched before after cs
                      else if ng <? nn then one
                      else String "$" (String d1 (String d2
                             (expand tl'' ng matched before after cs)))
                  | None => one
                  end
              | EmptyString => one
              end
          end
      | EmptyString => "$"
      end
  | String c tl => String c (expand tl ng matched before after cs)
  end.

Definition step_char (s : string) : option (ascii * string) :=
  match s with String c tl => Some (c, tl) | EmptyString => None end.

(** [String.prototype.replace] with a RegExp and a template.  [before] is
    the input already scanned, [p] its last code unit.  One iteration per
    value of [lastIndex]; [S (String.length s)] iterations always suffice. *)
Fixpoint replace_from (re : t) (tmpl : string) (fuel : nat)
         (before : string) (p : option ascii) (s : string) : string :=
  match fuel with
  | 0 => s
  | S fuel' =>
    let advance :=
      match s with
      | String c tl =>
          String c (replace_from re tmpl fuel' (before +++ String c "") (Some c) tl)
      | EmptyString => ""
      end in
    match exec_at re p s with
    | None => advance
    | Some (len, cs) =>
        let matched := substring 0 len s in
        let after := drop len s in
        expand tmpl (List.length (groups (source re))) matched before after cs
        +++ (if global re
            then match len with
                 | 0 => advance
                 | S _ => replace_from re tmpl fuel' (before +++ matched)
                            (last_of p matched) after
                 end
            else after)
    end
  end.

Definition replace (s : string) (re : t) (tmpl : string) : string :=
  replace_from re tmpl (S (String.length s)) "" None s.

(** [String.prototype.match] with a global RegExp: the matched substrings,
    left to right ([null] is the empty list). *)
Fixpoint match_from (re : t) (fuel : nat) (p : option ascii) (s : string)
  : list string :=
  match fuel with
  | 0 => []
  | S fuel' =>
    let advance :=
      match s with
      | String c tl => match_from re fuel' (Some c) tl
      | EmptyString => []
      end in
    match exec_at re p s with
    | None => advance
    | Some (len, _) =>
        let matched := substring 0 len s in
        matched ::
          match len with
          | 0 => advance
          | S _ => match_from re fuel' (last_of p matched) (drop len s)
          end
    end
  end.

Definition match_all (s : string) (re : t) : list string :=
  match_from re (S (String.length s)) None s.

(** [RegExp.prototype.test] for a RegExp without the global flag (no
    [lastIndex] state): is there a match at some position? *)
Fixpoint search_from (re : t) (p : option ascii) (s : string) : bool :=
  match exec_at re p s with
  | Some _ => true
  | None =>
      match s with
      | String c tl => search_from re (Some c) tl
      | EmptyString => false
      end
  end.

Definition test (re : t) (s : string) : bool := search_from re None s.

(** Pattern syntax helpers. *)
Definition chr (c : ascii) : regex := Chars (Ranges [(c, c)]).

Fixpoint lit (s : string) : regex :=
  match s with
  | EmptyString => Eps
  | String c EmptyString => chr c
  | String c tl => Seq (chr c) (lit tl)
  end.

Definition opt (r : regex) : regex := Repeat r 0 (Some 1).
Definition star (r : regex) : regex := Repeat r 0 None.
Definition plus (r : regex) : regex := Repeat r 1 None.
Definition exactly (n : nat) (r : regex) : regex := Repeat r n (Some n).
Definition at_least (n : nat) (r : regex) : regex := Repeat r n None.
Definition between (n k : nat) (r : regex) : regex := Repeat r n (Some k).

Definition digit : list (ascii * ascii) := [("0","9")]%char.
Definition one (c : ascii) : ascii * ascii := (c, c).
(** [\s] restricted to code units below 256. *)
Definition space : list (ascii * ascii) :=
  [(ascii_of_N 9, ascii_of_N 13); (" ", " ")%char;
   (ascii_of_N 160, ascii_of_N 160)].
(** [.]: anything but a line terminator. *)
Definition dot : regex :=
  Chars (NotRanges [one (ascii_of_N 10); one (ascii_of_N 13)]).

End RegExp.

(* ================================================================== *)
(** * Hierarchical values                                              *)
(* ================================================================== *)

(** A value of type [any] as the pipeline sees it.  Numbers are never
    inspected by the code modelled here; they are carried as integers. *)
#[local] Unset Elimination Schemes.
Inductive value : Type :=
| VNull
| VUndefined
| VBool (b : bool)
| VNum (n : Z)
| VStr (s : string)
| VArr (items : list value)
| VObj (entries : list (string * value)).
#[local] Set Elimination Schemes.

(** What can be thrown. *)
Inductive error : Type :=
| TypeError (msg : string)
| SyntaxError (msg : string)
| Error (msg : string).

Definition message (e : error) : string :=
  match e with TypeError msg | SyntaxError msg | Error msg => msg end.

(** [`${e}`] *)
Definition error_to_string (e : error) : string :=
  match e with
  | TypeError msg => "TypeError: " +++ msg
  | SyntaxError msg => "SyntaxError: " +++ msg
  | Error msg => "Error: " +++ msg
  end.

Inductive result (A : Type) : Type :=
| Ok (a : A)
| Throw (e : error).
Arguments Ok {A} a.
Arguments Throw {A} e.

Definition bind {A B : Type} (r : result A) (f : A -> result B) : result B :=
  match r with
  | Ok a => f a
  | Throw e => Throw e
  end.

Notation "x <- r ;; k" := (bind r (fun x => k))
  (at level 61, r at next level, right associativity).

Module Obj.

(** Is the property key an array index: the canonical decimal form of an
    integer below 2^32 - 1?  Such keys come first in property order. *)
Fixpoint digits_val (s : string) (acc : N) : option N :=
  match s with
  | EmptyString => Some acc
  | String c tl =>
      let n := RegExp.code c in
      if ((48 <=? n) && (n <=? 57))%N
      then digits_val tl (10 * acc + (n - 48))%N
      else None
  end.

Definition array_index (k : string) : option N :=
  match k with
  | EmptyString => None
  | String "0" EmptyString => Some 0%N
  | String "0" _ => None
  | _ =>
      if String.length k <=? 10 then
        match digits_val k 0%N with
        | Some n => if (n <? 4294967295)%N then Some n else None
        | None => None
        end
      else None
  end.

Fixpoint lookup {V : Type} (k : string) (es : list (string * V)) : option V :=
  match es with
  | [] => None
  | (k', v) :: tl => if String.eqb k' k then Some v else lookup k tl
  end.

Fixpoint overwrite {V : Type} (k : string) (v : V) (es : list (string * V))
  : list (string * V) :=
  match es with
  | [] => []
  | (k', v') :: tl =>
      if String.eqb k' k then (k', v) :: tl else (k', v') :: overwrite k v tl
  end.

(** A new array-index key goes before the first key that is not an array
    index or is a larger one. *)
Fixpoint insert_index {V : Type} (n : N) (k : string) (v : V)
         (es : list (string * V)) : list (string * V) :=
  match es with
  | [] => [(k, v)]
  | (k', v') :: tl =>
      match array_index k' with
      | Some n' =>
          if (n' <? n)%N then (k', v') :: insert_index n k v tl
          else (k, v) :: es
      | None => (k, v) :: es
      end
  end.

(** The write of [k] as an own property: an own property keeps its place
    and takes the value, a new one takes its place in property order. *)
Definition define {V : Type} (k : string) (v : V) (es : list (string * V))
  : list (string * V) :=
  match lookup k es with
  | Some _ => overwrite k v es
  | None =>
      match array_index k with
      | Some n => insert_index n k v es
      | None => es ++ [(k, v)]
      end
  end.

(** An object that the program builds from [{}]: its own properties, and
    whether an assignment to [__proto__] on it reaches the accessor that
    [Object.prototype] holds.  It does for [{}], and no longer once the
    prototype of the object has been set to null, or to an object through
    which it is not reached. *)
Record t : Type := Build {
  own : list (string * value);
  accessor : bool
}.

(** [{}] *)
Definition empty : t := Build [] true.

(** [o[k] = v] on such an object.  An own property is written.  Otherwise
    the key is looked up on the prototype chain: for [__proto__], as long
    as the accessor is reached, its setter runs, which writes no own
    property and makes [v] the prototype of [o] when [v] is null or an
    object; [reaches] tells, for an object [v], whether the accessor is
    reached through [v].  Any other property met on the chain is a
    writable data property, and the key is written as an own property. *)
Definition set (k : string) (v : value) (reaches : bool) (o : t) : t :=
  match lookup k o.(own) with
  | Some _ => Build (define k v o.(own)) o.(accessor)
  | None =>
      if String.eqb k "__proto__" && o.(accessor) then
        Build o.(own)
              (match v with
               | VNull => false
               | VObj _ => reaches
               | _ => true
               end)
      else Build (define k v o.(own)) o.(accessor)
  end.

End Obj.

(** ** The store

    Arrays and objects as the program shares them: each at an address of
    the store, held elsewhere by that address. *)

Module Store.

(** What a variable or a property holds: a primitive, or the address of
    an array or object of the store.  An address outside the store stands
    for a value of another type (a function, a symbol). *)
Inductive held : Type :=
| HNull
| HUndefined
| HBool (b : bool)
| HNum (n : Z)
| HStr (s : string)
| HRef (address : nat).

(** An array, or an object: its own properties in property order, and
    whether an assignment to [__proto__] on it reaches the accessor of
    [Object.prototype] (see [Obj.t]). *)
Inductive cell : Type :=
| Array (items : list held)
| Object (own : list (string * held)) (accessor : bool).

Definition t : Type := list cell.

(** A new array or object, at the next address. *)
Definition alloc (c : cell) (h : t) : nat * t := (List.length h, h ++ [c]).

Fixpoint update (a : nat) (f : cell -> cell) (h : t) : t :=
  match h with
  | [] => []
  | c :: tl =>
      match a with
      | 0 => f c :: tl
      | S a => c :: update a f tl
      end
  end.

(** Is the accessor reached through [v], were [v] made a prototype? *)
Definition reaches (h : t) (v : held) : bool :=
  match v with
  | HRef a =>
      match nth_error h a with
      | Some (Object _ accessor) => accessor
      | _ => true
      end
  | _ => true
  end.

(** [o[k] = v], for the object [o] at address [a] (see [Obj.set]). *)
Definition set (a : nat) (k : string) (v : held) (h : t) : t :=
  update a
    (fun c =>
       match c with
       | Object own accessor =>
           match Obj.lookup k own with
           | Some _ => Object (Obj.define k v own) accessor
           | None =>
               if String.eqb k "__proto__" && accessor then
                 Object own (match v with
                             | HNull => false
                             | HRef _ => reaches h v
                             | _ => true
                             end)
               else Object (Obj.define k v own) accessor
           end
       | Array _ => c
       end) h.

(** The next element of the array at address [a]. *)
Definition push (a : nat) (v : held) (h : t) : t :=
  update a
    (fun c =>
       match c with
       | Array items => Array (items ++ [v])
       | Object _ _ => c
       end) h.

(** [items.map(callback)]: a new array, then the callback on each item in
    order, its result stored in the new array.  The callback may run out
    of fuel. *)
Fixpoint map_from (callback : held -> t -> option (held * t)) (mapped : nat)
         (items : list held) (h : t) : option (held * t) :=
  match items with
  | [] => Some (HRef mapped, h)
  | item :: tl =>
      match callback item h with
      | Some (v, h) => map_from callback mapped tl (push mapped v h)
      | None => None
      end
  end.

Definition map (callback : held -> t -> option (held * t))
           (items : list held) (h : t) : option (held * t) :=
  let (mapped, h) := alloc (Array []) h in
  map_from callback mapped items h.

End Store.

(** [o.k] for a key that no prototype defines. *)
Definition get_prop (o : value) (k : string) : result value :=
  match o with
  | VNull =>
      Throw (TypeError ("Cannot read properties of null (reading '" +++ k +++ "')"))
  | VUndefined =>
      Throw (TypeError ("Cannot read properties of undefined (reading '" +++ k +++ "')"))
  | VObj es =>
      match Obj.lookup k es with
      | Some v => Ok v
      | None => Ok VUndefined
      end
  | _ => Ok VUndefined
  end.

Definition truthy (v : value) : bool :=
  match v with
  | VNull | VUndefined => false
  | VBool b => b
  | VNum n => negb (n =? 0)%Z
  | VStr s => negb (String.eqb s "")
  | VArr _ | VObj _ => true
  end.

(** [typeof v]. *)
Definition typeof (v : value) : string :=
  match v with
  | VUndefined => "undefined"
  | VBool _ => "boolean"
  | VNum _ => "number"
  | VStr _ => "string"
  | VNull | VArr _ | VObj _ => "object"
  end.

(* ================================================================== *)
(** * utils/scrub.ts                                                   *)
(* ================================================================== *)

(** [interface ScrubConfig]: every field is optional. *)
Module ScrubConfig.
Record t : Type := Make {
  maskEmails : option bool;
  maskPhones : option bool;
  maskSSNs : option bool;
  maskCreditCards : option bool;
  maskIPAddresses : option bool;
  maskCustomPatterns : option (list RegExp.t);
  placeholder : option string
}.

(** [{}], the default argument. *)
Definition empty : t := Make None None None None None None None.
End ScrubConfig.

Module PIIScrubber.
Import RegExp.

(** [Required<ScrubConfig>]: the scrubber's own state. *)
Record t : Type := Make {
  maskEmails : bool;
  maskPhones : bool;
  maskSSNs : bool;
  maskCreditCards : bool;
  maskIPAddresses : bool;
  maskCustomPatterns : list RegExp.t;
  placeholder : string
}.

Definition or_default {A : Type} (o : option A) (d : A) : A :=
  match o with Some a => a | None => d end.

Definition constructor (config : ScrubConfig.t) : t :=
  {| maskEmails := or_default (config.(ScrubConfig.maskEmails)) true;
     maskPhones := or_default (config.(ScrubConfig.maskPhones)) true;
     maskSSNs := or_default (config.(ScrubConfig.maskSSNs)) true;
     maskCreditCards := or_default (config.(ScrubConfig.maskCreditCards)) true;
     maskIPAddresses := or_default (config.(ScrubConfig.maskIPAddresses)) false;
     maskCustomPatterns := or_default (config.(ScrubConfig.maskCustomPatterns)) [];
     placeholder := or_default (config.(ScrubConfig.placeholder)) "[REDACTED]" |}.

Module PATTERNS.

Local Notation "r1 ;; r2" := (Seq r1 r2) (at level 61, right associativity).
Local Notation "'cls' rs" := (Chars (Ranges rs)) (at level 10).
Local Open Scope char_scope.

Definition dquote : ascii := ascii_of_N 34.

(** [/\b[A-Za-z0-9._%+-]+@[A-Za-z0-9.-]+\.[A-Z|a-z]{2,}\b/g] *)
Definition email : RegExp.t :=
  RegExp.Make
    (WordB ;;
     plus (cls [("A","Z"); ("a","z"); ("0","9");
                one "."; one "_"; one "%"; one "+"; one "-"]) ;;
     chr "@" ;;
     plus (cls [("A","Z"); ("a","z"); ("0","9"); one "."; one "-"]) ;;
     chr "." ;;
     at_least 2 (cls [("A","Z"); one "|"; ("a","z")]) ;;
     WordB)
    true false.

(** [/(\+?1[-.\s]?)?\(?([0-9]{3})\)?[-.\s]?([0-9]{3})[-.\s]?([0-9]{4})/g] *)
Definition phone : RegExp.t :=
  RegExp.Make
    (opt (Capture 1 (opt (chr "+") ;; chr "1" ;;
                     opt (cls (one "-" :: one "." :: space)))) ;;
     opt (chr "(") ;;
     Capture 2 (exactly 3 (cls digit)) ;;
     opt (chr ")") ;;
     opt (cls (one "-" :: one "." :: space)) ;;
     Capture 3 (exactly 3 (cls digit)) ;;
     opt (cls (one "-" :: one "." :: space)) ;;
     Capture 4 (exactly 4 (cls digit)))
    true false.

(** [/\b\d{3}-?\d{2}-?\d{4}\b/g] *)
Definition ssn : RegExp.t :=
  RegExp.Make
    (WordB ;; exactly 3 (cls digit) ;; opt (chr "-") ;;
     exactly 2 (cls digit) ;; opt (chr "-") ;;
     exactly 4 (cls digit) ;; WordB)
    true false.

(** [/\b(?:\d{4}[-\s]?){3}\d{4}\b/g] *)
Definition creditCard : RegExp.t :=
  RegExp.Make
    (WordB ;;
     exactly 3 (exactly 4 (cls digit) ;; opt (cls (one "-" :: space))) ;;
     exactly 4 (cls digit) ;; WordB)
    true false.

(** [/\b(?:[0-9]{1,3}\.){3}[0-9]{1,3}\b/g] *)
Definition ipAddress : RegExp.t :=
  RegExp.Make
    (WordB ;;
     exactly 3 (between 1 3 (cls digit) ;; chr ".") ;;
     between 1 3 (cls digit) ;; WordB)
    true false.

(** [/\b(?:api[_-]?key|secret[_-]?key|access[_-]?token)\s*[:=]\s*['\"]?([a-zA-Z0-9_-]+)['\"]?/gi] *)
Definition apiKey : RegExp.t :=
  RegExp.Make
    (WordB ;;
     Alt (lit "api" ;; opt (cls [one "_"; one "-"]) ;; lit "key")
       (Alt (lit "secret" ;; opt (cls [one "_"; one "-"]) ;; lit "key")
            (lit "access" ;; opt (cls [one "_"; one "-"]) ;; lit "token")) ;;
     star (cls space) ;;
     cls [one ":"; one "="] ;;
     star (cls space) ;;
     opt (cls [one "'"; one dquote]) ;;
     Capture 1 (plus (cls [("a","z"); ("A","Z"); ("0","9");
                           one "_"; one "-"])) ;;
     opt (cls [one "'"; one dquote]))
    true true.

(** [/\bghp_[a-zA-Z0-9]{36}\b/g] *)
Definition githubToken : RegExp.t :=
  RegExp.Make
    (WordB ;; lit "ghp_" ;;
     exactly 36 (cls [("a","z"); ("A","Z"); ("0","9")]) ;; WordB)
    true false.

(** [/\b(?:sk|pk)_(?:test|live)_[a-zA-Z0-9]{24,}\b/g] *)
Definition stripeKey : RegExp.t :=
  RegExp.Make
    (WordB ;; Alt (lit "sk") (lit "pk") ;; chr "_" ;;
     Alt (lit "test") (lit "live") ;; chr "_" ;;
     at_least 24 (cls [("a","z"); ("A","Z"); ("0","9")]) ;; WordB)
    true false.

End PATTERNS.

(** [scrubString(text)] *)
Definition scrubString (this : t) (text : string) : string :=
  let scrubbed := text in
  let scrubbed :=
    if this.(maskEmails)
    then replace scrubbed PATTERNS.email this.(placeholder) else scrubbed in
  let scrubbed :=
    if this.(maskPhones)
    then replace scrubbed PATTERNS.phone this.(placeholder) else scrubbed in
  let scrubbed :=
    if this.(maskSSNs)
    then replace scrubbed PATTERNS.ssn this.(placeholder) else scrubbed in
  let scrubbed :=
    if this.(maskCreditCards)
    then replace scrubbed PATTERNS.creditCard this.(placeholder)
    else scrubbed in
  let scrubbed :=
    if this.(maskIPAddresses)
    then replace scrubbed PATTERNS.ipAddress this.(placeholder)
    else scrubbed in
  let scrubbed :=
    replace scrubbed PATTERNS.apiKey ("$1: " +++ this.(placeholder)) in
  let scrubbed := replace scrubbed PATTERNS.githubToken this.(placeholder) in
  let scrubbed := replace scrubbed PATTERNS.stripeKey this.(placeholder) in
  fold_left (fun scrubbed pattern => replace scrubbed pattern this.(placeholder))
            this.(maskCustomPatterns) scrubbed.

(** [scrubObject(obj)]: the value returned and, when it is an object,
    whether an assignment to [__proto__] on an object that has it as
    prototype reaches the accessor of [Object.prototype]: it does through
    an array, and through an object built here when it does on that
    object, which then has no own property [__proto__]. *)
Fixpoint scrubObject_built (this : t) (obj : value) {struct obj}
  : value * bool :=
  match obj with
  | VNull | VUndefined => (obj, true)
  | VStr s => (VStr (scrubString this s), true)
  | VNum _ | VBool _ => (obj, true)
  | VArr items =>
      (VArr (map (fun item => fst (scrubObject_built this item)) items), true)
  | VObj entries =>
      let scrubbed :=
        (fix loop (es : list (string * value)) (scrubbed : Obj.t)
             {struct es} : Obj.t :=
           match es with
           | [] => scrubbed
           | (key, v) :: tl =>
               let scrubbedKey := scrubString this key in
               let built := scrubObject_built this v in
               loop tl (Obj.set scrubbedKey (fst built) (snd built) scrubbed)
           end) entries Obj.empty in
      (VObj (Obj.own scrubbed), Obj.accessor scrubbed)
  end.

(** [scrubObject(obj)] *)
Definition scrubObject (this : t) (obj : value) : value :=
  fst (scrubObject_built this obj).



Record ScrubStats : Type := {
  emailsFound : nat;
  phonesFound : nat;
  ssnsFound : nat;
  creditCardsFound : nat;
  ipAddressesFound : nat;
  apiKeysFound : nat;
  totalReductions : Z
}.

(** [getScrubStats(original, scrubbed)] *)
Definition getScrubStats (original scrubbed : string) : ScrubStats :=
  {| emailsFound := List.length (match_all original PATTERNS.email);
     phonesFound := List.length (match_all original PATTERNS.phone);
     ssnsFound := List.length (match_all original PATTERNS.ssn);
     creditCardsFound := List.length (match_all original PATTERNS.creditCard);
     ipAddressesFound := List.length (match_all original PATTERNS.ipAddress);
     apiKeysFound :=
       List.length (match_all original PATTERNS.apiKey)
       + List.length (match_all original PATTERNS.githubToken)
       + List.length (match_all original PATTERNS.stripeKey);
     totalReductions :=
       (Z.of_nat (String.length original) - Z.of_nat (String.length scrubbed))%Z |}.

End PIIScrubber.

(** [scrubPII(data, config?)] *)
Definition scrubPII (data : value) (config : ScrubConfig.t) : value :=
  let scrubber := PIIScrubber.constructor config in
  PIIScrubber.scrubObject scrubber data.

(** [scrubString(text, config?)] *)
Definition scrubString (text : string) (config : ScrubConfig.t) : string :=
  let scrubber := PIIScrubber.constructor config in
  PIIScrubber.scrubString scrubber text.

(* ================================================================== *)
(** * commands/generate.ts, step 4                                     *)
(* ================================================================== *)

Module Generate.

(** The object literal [mergedData] of [run]. *)
Definition mergedData (email githubOrg exportTimestamp : string)
           (githubData stripeData : value) : value :=
  VObj [("email", VStr email);
        ("githubOrg", VStr githubOrg);
        ("exportTimestamp", VStr exportTimestamp);
        ("github", githubData);
        ("stripe", stripeData)].

(** Step 4 of [run]: the call of [scrubPII] and the two reads made from
    its result for the log line, [scrubResult.stats.itemsFound] and
    [scrubResult.stats.bytesReduced].  Returns [scrubResult] for step 5. *)
Definition run_step4 (merged : value) : result value :=
  let scrubResult := scrubPII merged ScrubConfig.empty in
  stats <- get_prop scrubResult "stats" ;;
  _ <- get_prop stats "itemsFound" ;;
  stats <- get_prop scrubResult "stats" ;;
  _ <- get_prop stats "bytesReduced" ;;
  Ok scrubResult.

End Generate.

(* ================================================================== *)
(** * utils/classify.ts                                                *)
(* ================================================================== *)

Module GDPRClassifier.

Record Summary : Type := {
  totalFields : nat;
  articlesFound : list value;
  highSensitivityFields : nat;
  processingTime : Z
}.

Record ClassificationResult : Type := {
  classifications : list value;
  summary : Summary
}.

(** [s.split('.')] *)
Fixpoint split_dot (s : string) : list string :=
  match s with
  | EmptyString => [""]
  | String c tl =>
      if Ascii.eqb c "." then "" :: split_dot tl
      else match split_dot tl with
           | [] => [String c ""]
           | seg :: segs => String c seg :: segs
           end
  end.

(** [typeof v === 'object' && v !== null] *)
Definition is_object (v : value) : bool :=
  match v with VArr _ | VObj _ => true | _ => false end.

(** [extractFieldPaths(obj, prefix = '')] *)
Fixpoint extractFieldPaths (obj : value) (prefix : string) {struct obj}
  : list string :=
  match obj with
  | VNull | VUndefined => []
  | VObj entries =>
      (fix loop (es : list (string * value)) (fields : list string)
           {struct es} : list string :=
         match es with
         | [] => fields
         | (key, v) :: tl =>
             let fieldPath :=
               if negb (String.eqb prefix "") then prefix +++ "." +++ key
               else key in
             let fields := fields ++ [fieldPath] in
             let fields :=
               if is_object v && (List.length (split_dot prefix) <? 3)
               then fields ++ extractFieldPaths v fieldPath
               else fields in
             loop tl fields
         end) entries []
  | VArr (first :: _) =>
      let fieldPath := prefix +++ "[0]" in
      let fields := [fieldPath] in
      if is_object first
      then fields ++ extractFieldPaths first fieldPath
      else fields
  | _ => []
  end.

(** [createDataSample(obj, maxDepth = 2, currentDepth = 0)].  A sample is
    a string, an array or an object built here, never null, and the
    accessor [__proto__] is reached through every sample object: that is
    the [true] passed to [Obj.set]. *)
Fixpoint createDataSample (obj : value) (maxDepth currentDepth : nat)
         {struct obj} : value :=
  if (maxDepth <=? currentDepth)
     || match obj with VNull | VUndefined => true | _ => false end
  then VStr (typeof obj)
  else
    match obj with
    | VArr [] => VArr []
    | VArr (first :: _) =>
        VArr [createDataSample first maxDepth (currentDepth + 1)]
    | VObj entries =>
        VObj (Obj.own
                ((fix loop (es : list (string * value))
                      (sample : Obj.t) (count : nat)
                      {struct es} : Obj.t :=
                    match es with
                    | [] => sample
                    | (key, v) :: tl =>
                        if 5 <=? count then sample
                        else loop tl
                               (Obj.set key
                                  (createDataSample v maxDepth
                                                    (currentDepth + 1))
                                  true sample)
                               (count + 1)
                    end) entries Obj.empty 0))
    | _ => VStr (typeof obj)
    end.

(** The request handed to [openai.chat.completions.create]; the sampling
    temperature, a floating-point constant, is left out. *)
Record Request : Type := {
  model : string;
  system_content : string;
  user_content : string;
  max_tokens : nat
}.

(** Equality as [Set] sees it.  Containers are compared by reference, and
    every container of a parsed response is a distinct one. *)
Definition same_value_zero (a b : value) : bool :=
  match a, b with
  | VNull, VNull | VUndefined, VUndefined => true
  | VBool x, VBool y => Bool.eqb x y
  | VNum x, VNum y => (x =? y)%Z
  | VStr x, VStr y => String.eqb x y
  | _, _ => false
  end.

(** [[...new Set(xs)]] *)
Fixpoint set_to_array (xs : list value) (seen : list value) : list value :=
  match xs with
  | [] => seen
  | x :: tl =>
      if existsb (same_value_zero x) seen then set_to_array tl seen
      else set_to_array tl (seen ++ [x])
  end.

(** [c.field && c.article && c.reasoning && c.dataType && c.sensitivity],
    as the condition of [filter]. *)
Definition is_valid (c : value) : result bool :=
  field <- get_prop c "field" ;;
  if negb (truthy field) then Ok false else
  article <- get_prop c "article" ;;
  if negb (truthy article) then Ok false else
  reasoning <- get_prop c "reasoning" ;;
  if negb (truthy reasoning) then Ok false else
  dataType <- get_prop c "dataType" ;;
  if negb (truthy dataType) then Ok false else
  sensitivity <- get_prop c "sensitivity" ;;
  Ok (truthy sensitivity).

(** [xs.filter(p)] for a callback that can throw. *)
Fixpoint filter_r (p : value -> result bool) (xs : list value)
  : result (list value) :=
  match xs with
  | [] => Ok []
  | x :: tl =>
      keep <- p x ;;
      rest <- filter_r p tl ;;
      Ok (if keep then x :: rest else rest)
  end.

(** [xs.map(f)] for a callback that can throw. *)
Fixpoint map_r {A B : Type} (f : A -> result B) (xs : list A)
  : result (list B) :=
  match xs with
  | [] => Ok []
  | x :: tl =>
      y <- f x ;;
      ys <- map_r f tl ;;
      Ok (y :: ys)
  end.

(** [c.sensitivity === 'high'] *)
Definition is_high (c : value) : result bool :=
  s <- get_prop c "sensitivity" ;;
  Ok (match s with VStr x => String.eqb x "high" | _ => false end).

Section ClassifyData.

(** The collaborators of [classifyData]: JSON serialization and parsing,
    the system prompt, the reasoning service (its reply is the content of
    the first choice, if any) and the two clock readings. *)
Variable JSON_stringify : list string -> value -> string.
Variable JSON_parse : string -> result value.
Variable getSystemPrompt : string.
Variable create : Request -> result (option string).
Variable startTime endTime : Z.

(** The validation that follows [JSON.parse]. *)
Definition summarize (fieldPaths : list string) (parsed : value)
  : result ClassificationResult :=
  match parsed with
  | VArr cs =>
      validClassifications <- filter_r is_valid cs ;;
      articles <- map_r (fun c => get_prop c "article") validClassifications ;;
      let articlesFound := set_to_array articles [] in
      high <- filter_r is_high validClassifications ;;
      let highSensitivityFields := List.length high in
      Ok {| classifications := validClassifications;
            summary := {| totalFields := List.length fieldPaths;
                          articlesFound := articlesFound;
                          highSensitivityFields := highSensitivityFields;
                          processingTime := (endTime - startTime)%Z |} |}
  | VNull =>
      Throw (TypeError "Cannot read properties of null (reading 'filter')")
  | VUndefined =>
      Throw (TypeError "Cannot read properties of undefined (reading 'filter')")
  | _ => Throw (TypeError "classifications.filter is not a function")
  end.

(** [classifyData(scrubbedData)]: the outcome and the requests sent to the
    reasoning service. *)
Definition classifyData (scrubbedData : value)
  : result ClassificationResult * list Request :=
  let fieldPaths := extractFieldPaths scrubbedData "" in
  if List.length fieldPaths =? 0 then
    (Ok {| classifications := [];
           summary := {| totalFields := 0;
                         articlesFound := [];
                         highSensitivityFields := 0;
                         processingTime := (endTime - startTime)%Z |} |},
     [])
  else
    let sampleData := createDataSample scrubbedData 2 0 in
    let request :=
      {| model := "gpt-4o";
         system_content := getSystemPrompt;
         user_content :=
           "Classify these data fields according to GDPR articles for a DSAR evidence pack:"
           +++ String (ascii_of_N 10) (String (ascii_of_N 10)
                 (JSON_stringify fieldPaths sampleData));
         max_tokens := 2000 |} in
    let body :=
      response <- create request ;;
      match response with
      | None | Some EmptyString => Throw (Error "No response from GPT-4o")
      | Some content =>
          match JSON_parse content with
          | Throw parseError =>
              Throw (Error ("Failed to parse GPT-4o response as JSON: "
                            +++ error_to_string parseError))
          | Ok parsed => summarize fieldPaths parsed
          end
      end in
    (match body with
     | Ok r => Ok r
     | Throw e => Throw (Error ("GDPR classification failed: " +++ message e))
     end,
     [request]).

End ClassifyData.

End GDPRClassifier.

(* ================================================================== *)
(** * utils/performance.ts: StreamProcessor                            *)
(* ================================================================== *)

Module StreamProcessor.

(** The fields of a [StreamProcessor]. *)
Record t : Type := Make {
  chunkSize : nat;
  processedCount : nat
}.

(** [new StreamProcessor(chunkSize = 100)] *)
Definition constructor (chunkSize : option nat) : t :=
  Make (match chunkSize with Some k => k | None => 100 end) 0.

(** What a traversal leaves behind: the object's fields, the arguments of
    every worker call and of every [onProgress] call, in order. *)
Record Trace (A : Type) : Type := {
  this_after : t;
  worker_calls : list A;
  progress_calls : list (nat * nat)
}.

(** [items.slice(i, j)] for [0 <= i <= j]. *)
Definition slice {T : Type} (items : list T) (i j : nat) : list T :=
  firstn (j - i) (skipn i items).

Section Processing.

Variables T R : Type.

(** The loop of [processInChunks] from index [i] on.  Waiting for
    [setImmediate] between two chunks has no effect on the data.  [fuel]
    bounds the number of evaluations of the loop condition; [None] means
    the bound was reached. *)
Fixpoint chunk_loop (fuel : nat) (len : nat) (items : list T)
         (processor : list T -> result (list R)) (onProgress : bool)
         (i : nat) (this : t) (results : list R)
         (calls : list (list T)) (progress : list (nat * nat))
  : option (result (list R) * Trace (list T)) :=
  match fuel with
  | 0 => None
  | S fuel' =>
      if i <? len then
        let chunk := slice items i (i + this.(chunkSize)) in
        match processor chunk with
        | Throw e =>
            Some (Throw e,
                  Build_Trace this (calls ++ [chunk]) progress)
        | Ok chunkResults =>
            let results := results ++ chunkResults in
            let this :=
              Make this.(chunkSize) (this.(processedCount) + List.length chunk) in
            let progress :=
              if onProgress
              then progress ++ [(this.(processedCount), len)]
              else progress in
            chunk_loop fuel' len items processor onProgress
                       (i + this.(chunkSize)) this results
                       (calls ++ [chunk]) progress
        end
      else Some (Ok results, Build_Trace this calls progress)
  end.

(** [processInChunks(items, processor, onProgress?)] *)
Definition processInChunks (fuel : nat) (this : t) (items : list T)
           (processor : list T -> result (list R)) (onProgress : bool)
  : option (result (list R) * Trace (list T)) :=
  chunk_loop fuel (List.length items) items processor onProgress
             0 this [] [] [].

(** The loop of [processSequentially] over the items from index [i] on.
    The collection hint and the wait for [setImmediate] have no effect on
    the data. *)
Fixpoint seq_loop (len : nat) (rest : list T)
         (processor : T -> nat -> result R) (onProgress : bool)
         (i : nat) (this : t) (results : list R)
         (calls : list (T * nat)) (progress : list (nat * nat))
  : result (list R) * Trace (T * nat) :=
  match rest with
  | [] => (Ok results, Build_Trace this calls progress)
  | item :: tl =>
      match processor item i with
      | Throw e => (Throw e, Build_Trace this (calls ++ [(item, i)]) progress)
      | Ok r =>
          let results := results ++ [r] in
          let this := Make this.(chunkSize) (this.(processedCount) + 1) in
          let progress :=
            if onProgress
            then progress ++ [(this.(processedCount), len)]
            else progress in
          seq_loop len tl processor onProgress (i + 1) this results
                   (calls ++ [(item, i)]) progress
      end
  end.

(** [processSequentially(items, processor, onProgress?)] *)
Definition processSequentially (this : t) (items : list T)
           (processor : T -> nat -> result R) (onProgress : bool)
  : result (list R) * Trace (T * nat) :=
  seq_loop (List.length items) items processor onProgress 0 this [] [] [].

(** The chunk worker that applies an item worker to each element of its
    chunk in turn and stops at the first failure. *)
Fixpoint lift (f : T -> result R) (chunk : list T) : result (list R) :=
  match chunk with
  | [] => Ok []
  | x :: tl =>
      r <- f x ;;
      rs <- lift f tl ;;
      Ok (r :: rs)
  end.

End Processing.

End StreamProcessor.

(* ================================================================== *)
(** * utils/cleanup.ts                                                 *)
(* ================================================================== *)

Module FileCleanup.
Import RegExp.

(** An entry of the target directory: its name, what [statSync] reports
    (or the message of the error it throws), and the message of the error
    [unlinkSync] throws on it, if it does. *)
Record file : Type := {
  name : string;
  mtime : Z;
  size : Z;
  stat_error : option string;
  unlink_error : option string
}.

(** The target directory as the file-system calls see it. *)
Inductive directory : Type :=
| Missing
| Unreadable (msg : string)
| Listing (files : list file).

Record CleanupResult : Type := {
  filesScanned : nat;
  filesDeleted : nat;
  deletedFiles : list string;
  totalSizeFreed : Z;
  errors : list string
}.

Record t : Type := Make {
  targetDir : string;
  maxAgeHours : Z
}.

(** [new FileCleanup(targetDir = '.', maxAgeHours = 24)] *)
Definition constructor (targetDir : option string) (maxAgeHours : option Z) : t :=
  Make (match targetDir with Some d => d | None => "." end)
       (match maxAgeHours with Some h => h | None => 24%Z end).

Local Notation "r1 ;; r2" := (Seq r1 r2) (at level 61, right associativity).

(** [/^evidence_.*\.pdf$/], [/^mapping_.*\.csv$/], [/^evidence_pack_.*\.zip$/] *)
Definition evidenceFilePatterns : list RegExp.t :=
  [ RegExp.Make (Bol ;; lit "evidence_" ;; star dot ;; lit ".pdf" ;; Eol)
                false false;
    RegExp.Make (Bol ;; lit "mapping_" ;; star dot ;; lit ".csv" ;; Eol)
                false false;
    RegExp.Make (Bol ;; lit "evidence_pack_" ;; star dot ;; lit ".zip" ;; Eol)
                false false ].

Definition isEvidenceFile (file : string) : bool :=
  existsb (fun pattern => RegExp.test pattern file) evidenceFilePatterns.

Fixpoint find_file (n : string) (fs : list file) : option file :=
  match fs with
  | [] => None
  | f :: tl => if String.eqb f.(name) n then Some f else find_file n tl
  end.

(** [statSync(join(targetDir, file))] *)
Definition statSync (fs : list file) (n : string) : result file :=
  match find_file n fs with
  | None => Throw (Error ("ENOENT: no such file or directory, stat '" +++ n +++ "'"))
  | Some f =>
      match f.(stat_error) with
      | Some msg => Throw (Error msg)
      | None => Ok f
      end
  end.

(** [unlinkSync(join(targetDir, file))]: the directory without the entry,
    or the error thrown, in which case nothing is removed. *)
Definition unlinkSync (fs : list file) (n : string) : result (list file) :=
  match find_file n fs with
  | None => Throw (Error ("ENOENT: no such file or directory, unlink '" +++ n +++ "'"))
  | Some f =>
      match f.(unlink_error) with
      | Some msg => Throw (Error msg)
      | None => Ok (filter (fun g => negb (String.eqb g.(name) n)) fs)
      end
  end.

(** The body of the [for (const file of files)] loop. *)
Fixpoint scan (files : list string) (cutoffTime : Z)
         (result : CleanupResult) (fs : list file)
  : CleanupResult * list file :=
  match files with
  | [] => (result, fs)
  | file :: tl =>
      if negb (isEvidenceFile file) then scan tl cutoffTime result fs
      else
        let result :=
          {| filesScanned := result.(filesScanned) + 1;
             filesDeleted := result.(filesDeleted);
             deletedFiles := result.(deletedFiles);
             totalSizeFreed := result.(totalSizeFreed);
             errors := result.(errors) |} in
        let failed (e : error) :=
          {| filesScanned := result.(filesScanned);
             filesDeleted := result.(filesDeleted);
             deletedFiles := result.(deletedFiles);
             totalSizeFreed := result.(totalSizeFreed);
             errors := result.(errors)
                       ++ ["Failed to process " +++ file +++ ": " +++ message e] |} in
        match statSync fs file with
        | Throw e => scan tl cutoffTime (failed e) fs
        | Ok stats =>
            if (stats.(mtime) <? cutoffTime)%Z then
              let fileSize := stats.(size) in
              match unlinkSync fs file with
              | Throw e => scan tl cutoffTime (failed e) fs
              | Ok fs' =>
                  scan tl cutoffTime
                       {| filesScanned := result.(filesScanned);
                          filesDeleted := result.(filesDeleted) + 1;
                          deletedFiles := result.(deletedFiles) ++ [file];
                          totalSizeFreed := (result.(totalSizeFreed) + fileSize)%Z;
                          errors := result.(errors) |}
                       fs'
              end
            else scan tl cutoffTime result fs
        end
  end.

Definition empty_result : CleanupResult :=
  {| filesScanned := 0; filesDeleted := 0; deletedFiles := [];
     totalSizeFreed := 0%Z; errors := [] |}.

(** [cleanupOldFiles()]: the result and the directory afterwards.  [now] is
    the reading of [Date.now()]. *)
Definition cleanupOldFiles (this : t) (now : Z) (dir : directory)
  : CleanupResult * directory :=
  let result := empty_result in
  match dir with
  | Missing => (result, dir)
  | Unreadable msg =>
      ({| filesScanned := 0; filesDeleted := 0; deletedFiles := [];
          totalSizeFreed := 0%Z;
          errors := ["Directory scan failed: " +++ msg] |},
       dir)
  | Listing fs =>
      let files := map name fs in
      let cutoffTime := (now - this.(maxAgeHours) * 60 * 60 * 1000)%Z in
      let (result, fs') := scan files cutoffTime result fs in
      (result, Listing fs')
  end.

End FileCleanup.

(* ================================================================== *)
(** * Vocabulary of the properties                                     *)
(* ================================================================== *)

Module Props.
Import GDPRClassifier.

(** The result of a classification that was skipped. *)
Definition empty_classification (startTime endTime : Z) : ClassificationResult :=
  {| classifications := [];
     summary := {| totalFields := 0;
                   articlesFound := [];
                   highSensitivityFields := 0;
                   processingTime := (endTime - startTime)%Z |} |}.

(** The null root and the scalar roots. *)
Definition null_and_scalar_roots (b : bool) (n : Z) (s : string) : list value :=
  [VNull; VUndefined; VBool b; VNum n; VStr s].

(** The strings [typeof] can return for a hierarchical value. *)
Definition type_tags : list string :=
  ["undefined"; "boolean"; "number"; "string"; "object"].

Definition is_type_tag (s : string) : bool :=
  existsb (String.eqb s) type_tags.





(** The attributes a classification record must carry. *)
Definition required_attributes : list string :=
  ["field"; "article"; "reasoning"; "dataType"; "sensitivity"].

Definition nullish (v : value) : bool :=
  match v with VNull | VUndefined => true | _ => false end.

(** The value of attribute [a] of record [c], [undefined] when absent. *)
Definition attr (c : value) (a : string) : value :=
  match c with
  | VObj es =>
      match Obj.lookup a es with
      | Some v => v
      | None => VUndefined
      end
  | _ => VUndefined
  end.

(** The record lacks one of the required attributes. *)
Definition missing_attribute (c : value) : bool :=
  existsb (fun a => match c with
                    | VObj es =>
                        match Obj.lookup a es with
                        | Some _ => false
                        | None => true
                        end
                    | _ => true
                    end) required_attributes.

(** Every required attribute of the record is present and truthy. *)
Definition complete (c : value) : bool :=
  forallb (fun a => truthy (attr c a)) required_attributes.

(** The record's sensitivity is the string [high]. *)
Definition high (c : value) : bool :=
  match attr c "sensitivity" with
  | VStr x => String.eqb x "high"
  | _ => false
  end.

(** A response of two records, the second without [sensitivity]. *)
Definition sample_response : list value :=
  [ VObj [("field", VStr "email"); ("article", VStr "Art. 15");
          ("reasoning", VStr "contact data"); ("dataType", VStr "contact");
          ("sensitivity", VStr "high")];
    VObj [("field", VStr "note"); ("article", VStr "Art. 6");
          ("reasoning", VStr "free text"); ("dataType", VStr "behavioral")] ].

(** The [j]-th chunk of size [K]: the items at the positions from [j * K]
    up to, but not including, [j * K + K]. *)
Definition nth_chunk {T : Type} (K : nat) (items : list T) (j : nat) : list T :=
  StreamProcessor.slice items (j * K) (j * K + K).

(** The outcome both traversals have when every item goes through the
    item worker [f] in input order. *)
Definition outcome_of {T R : Type} (f : T -> result R) (items : list T)
  : result (list R) :=
  StreamProcessor.lift f items.

(** A worker that fails on negative numbers and doubles the others. *)
Definition sample_worker (x : Z) : result Z :=
  if (x <? 0)%Z then Throw (Error "negative") else Ok (2 * x)%Z.

(** [cutoffTime] of [cleanupOldFiles]. *)
Definition cutoff (this : FileCleanup.t) (now : Z) : Z :=
  (now - FileCleanup.maxAgeHours this * 60 * 60 * 1000)%Z.

Definition is_none {A : Type} (o : option A) : bool :=
  match o with None => true | Some _ => false end.

(** The entries a cleanup run removes: evidence artifacts by name, older
    than the cutoff, whose [statSync] and [unlinkSync] calls go through. *)
Definition removed (cutoffTime : Z) (f : FileCleanup.file) : bool :=
  FileCleanup.isEvidenceFile (FileCleanup.name f)
  && is_none (FileCleanup.stat_error f)
  && (FileCleanup.mtime f <? cutoffTime)%Z
  && is_none (FileCleanup.unlink_error f).

Definition kept (cutoffTime : Z) (f : FileCleanup.file) : bool :=
  negb (removed cutoffTime f).

Definition total_size (fs : list FileCleanup.file) : Z :=
  fold_right (fun f acc => (FileCleanup.size f + acc)%Z) 0%Z fs.

(** A directory with two old artifacts, one of which cannot be unlinked,
    a recent artifact and a file that is not an artifact. *)
Definition sample_directory : list FileCleanup.file :=
  [ FileCleanup.Build_file "evidence_a.pdf" 1000 2048 None None;
    FileCleanup.Build_file "mapping_a.csv" 1000 512 None (Some "EPERM");
    FileCleanup.Build_file "evidence_pack_b.zip" 99999000 4096 None None;
    FileCleanup.Build_file "notes.txt" 1000 10 None None ].

(** The pattern matches somewhere in the string. *)
Definition has_match (re : RegExp.t) (s : string) : bool :=
  RegExp.search_from re None s.

(** [needle] occurs in [hay]. *)
Fixpoint contains (needle hay : string) : bool :=
  String.prefix needle hay
  || match hay with
     | String _ tl => contains needle tl
     | EmptyString => false
     end.

(** The default configuration, and the one with every toggle off. *)
Definition default_scrubber : PIIScrubber.t :=
  PIIScrubber.constructor ScrubConfig.empty.

Definition all_off : ScrubConfig.t :=
  ScrubConfig.Make (Some false) (Some false) (Some false) (Some false)
                   (Some false) None None.

(** The patterns [scrubString] applies under a configuration, in order. *)
Definition applied_patterns (this : PIIScrubber.t) : list RegExp.t :=
  (if PIIScrubber.maskEmails this then [PIIScrubber.PATTERNS.email] else [])
  ++ (if PIIScrubber.maskPhones this then [PIIScrubber.PATTERNS.phone] else [])
  ++ (if PIIScrubber.maskSSNs this then [PIIScrubber.PATTERNS.ssn] else [])
  ++ (if PIIScrubber.maskCreditCards this
      then [PIIScrubber.PATTERNS.creditCard] else [])
  ++ (if PIIScrubber.maskIPAddresses this
      then [PIIScrubber.PATTERNS.ipAddress] else [])
  ++ [PIIScrubber.PATTERNS.apiKey; PIIScrubber.PATTERNS.githubToken;
      PIIScrubber.PATTERNS.stripeKey]
  ++ PIIScrubber.maskCustomPatterns this.

(** No applied pattern matches in the string. *)
Definition match_free (this : PIIScrubber.t) (s : string) : bool :=
  forallb (fun re => negb (has_match re s)) (applied_patterns this).



(** Property order of an ordinary object: array-index keys first, in
    ascending order, then the other keys, no key twice. *)
Fixpoint distinct (keys : list string) : bool :=
  match keys with
  | [] => true
  | k :: tl => negb (existsb (String.eqb k) tl) && distinct tl
  end.

Definition not_index (k : string) : bool :=
  match Obj.array_index k with Some _ => false | None => true end.

Fixpoint ascending_from (lo : option N) (keys : list string) : bool :=
  match keys with
  | [] => true
  | k :: tl =>
      match Obj.array_index k with
      | Some n =>
          match lo with Some m => (m <? n)%N | None => true end
          && ascending_from (Some n) tl
      | None => forallb not_index tl && distinct keys
      end
  end.

Definition property_order (keys : list string) : bool :=
  ascending_from None keys.



(** No applied pattern matches in any string leaf or key of the value. *)
Fixpoint all_match_free (this : PIIScrubber.t) (v : value) {struct v} : bool :=
  match v with
  | VStr s => match_free this s
  | VArr items => forallb (all_match_free this) items
  | VObj entries =>
      forallb (fun e => match_free this (fst e) && all_match_free this (snd e))
              entries
  | _ => true
  end.


(** A Stripe key as in the test suite of the repository, and an API key
    assignment. *)
Definition stripe_key_sample : string :=
  "sk_test_1234567890abcdefghijklmnopqrstuvwxyz".
Definition api_key_sample : string := "api_key=abc123".

(** The loop of [scrubObject] over the entries of an object, by name. *)
Fixpoint scrub_entries (this : PIIScrubber.t) (es : list (string * value))
         (scrubbed : Obj.t) : Obj.t :=
  match es with
  | [] => scrubbed
  | (key, v) :: tl =>
      scrub_entries this tl
        (Obj.set (PIIScrubber.scrubString this key)
                 (PIIScrubber.scrubObject this v)
                 (snd (PIIScrubber.scrubObject_built this v)) scrubbed)
  end.

(** The key can be assigned as an own property of an object built from
    [{}]. *)
Definition own_key (k : string) : bool := negb (String.eqb k "__proto__").


(** No object of the value has a key [__proto__]. *)
Fixpoint proto_free (v : value) {struct v} : bool :=
  match v with
  | VArr items => forallb proto_free items
  | VObj entries =>
      forallb (fun e => own_key (fst e) && proto_free (snd e)) entries
  | _ => true
  end.

(** In every object of the value the keys are in property order. *)
Fixpoint well_ordered (v : value) {struct v} : bool :=
  match v with
  | VArr items => forallb well_ordered items
  | VObj entries =>
      property_order (map fst entries)
      && forallb (fun e => well_ordered (snd e)) entries
  | _ => true
  end.

(** An address followed by ten digits. *)
Definition email_then_digits : string := "a@b.cd5551234567".

(** A string with an address on its own and the same address followed by
    ten digits. *)
Definition address_twice : string := "a@b.cd a@b.cd5551234567".


(** Do the two lists have the same length, with [f] true of the elements
    at each place? *)
Section Pairwise.
Variables (A B : Type) (f : A -> B -> bool).


End Pairwise.





End Props.

(* ================================================================== *)
(** * What a pattern matches                                           *)
(* ================================================================== *)

Module Matching.
Import RegExp.

(** The iterations of a quantifier: [w] is made of iterations of [L], at
    least [mn] of them and at most [mx], those beyond the compulsory ones
    not empty. *)
Inductive Reps (L : option ascii -> string -> string -> Prop)
  : nat -> option nat -> option ascii -> string -> string -> Prop :=
| reps_done mn mx p after :
    mx = Some 0 \/ mn = 0 -> Reps L mn mx p "" after
| reps_step mn mx p w1 w2 after :
    mx <> Some 0 ->
    L p w1 (w2 +++ after) ->
    (mn = 0 -> w1 <> "") ->
    Reps L (Nat.pred mn) (pred_max mx) (last_of p w1) w2 after ->
    Reps L mn mx p (w1 +++ w2) after.

(** [Matches ic r p w after]: the pattern [r] matches exactly [w] when [w]
    comes after the code unit [p] and is followed by [after]. *)
Fixpoint Matches (ic : bool) (r : regex) (p : option ascii)
         (w after : string) {struct r} : Prop :=
  match r with
  | Eps => w = ""
  | Chars cs => exists c, w = String c "" /\ in_set ic cs c = true
  | Seq r1 r2 =>
      exists w1 w2,
        w = w1 +++ w2
        /\ Matches ic r1 p w1 (w2 +++ after)
        /\ Matches ic r2 (last_of p w1) w2 after
  | Alt r1 r2 => Matches ic r1 p w after \/ Matches ic r2 p w after
  | Capture _ r1 => Matches ic r1 p w after
  | Repeat r1 mn mx => Reps (Matches ic r1) mn mx p w after
  | WordB => w = "" /\ at_boundary p after = true
  | Bol => w = "" /\ p = None
  | Eol => w = "" /\ after = ""
  end.

Definition all_ascii : list ascii := map ascii_of_nat (seq 0 256).

Fixpoint string_forall (f : ascii -> bool) (s : string) : bool :=
  match s with
  | EmptyString => true
  | String c tl => f c && string_forall f tl
  end.

Fixpoint string_exists (f : ascii -> bool) (s : string) : bool :=
  match s with
  | EmptyString => false
  | String c tl => f c || string_exists f tl
  end.

(** No [\b], [^] or [$] in the pattern. *)
Fixpoint free_of_assertions (r : regex) : bool :=
  match r with
  | Seq r1 r2 | Alt r1 r2 => free_of_assertions r1 && free_of_assertions r2
  | Capture _ r1 | Repeat r1 _ _ => free_of_assertions r1
  | WordB | Bol | Eol => false
  | Eps | Chars _ => true
  end.

(** Every code unit the pattern can consume satisfies [E]. *)
Fixpoint within (ic : bool) (E : ascii -> bool) (r : regex) : bool :=
  match r with
  | Chars cs => forallb (fun c => implb (in_set ic cs c) (E c)) all_ascii
  | Seq r1 r2 | Alt r1 r2 => within ic E r1 && within ic E r2
  | Capture _ r1 | Repeat r1 _ _ => within ic E r1
  | _ => true
  end.

(** Whatever the pattern matches contains a code unit that satisfies [D];
    a sufficient syntactic condition. *)
Fixpoint requires (ic : bool) (D : ascii -> bool) (r : regex) : bool :=
  match r with
  | Chars cs => forallb (fun c => implb (in_set ic cs c) (D c)) all_ascii
  | Seq r1 r2 => requires ic D r1 || requires ic D r2
  | Alt r1 r2 => requires ic D r1 && requires ic D r2
  | Capture _ r1 => requires ic D r1
  | Repeat r1 mn mx =>
      (1 <=? mn)
      && negb (match mx with Some 0 => true | _ => false end)
      && requires ic D r1
  | _ => false
  end.

(** The pattern is [r1 r2 ... rn \b] with no assertion in the [ri]. *)
Fixpoint closes_with_boundary (r : regex) : bool :=
  match r with
  | WordB => true
  | Seq a b => free_of_assertions a && closes_with_boundary b
  | _ => false
  end.

(** The pattern is [\b r1 r2 ... rn \b] with no assertion in the [ri]. *)
Definition word_bounded (r : regex) : bool :=
  match r with
  | Seq WordB r' => closes_with_boundary r'
  | _ => false
  end.

Definition placeholder : string := "[REDACTED]".

(** A sufficient condition for a pass with the default placeholder to
    leave no match of its own pattern: the pattern is global, it is either
    free of assertions or enclosed in two [\b]; it consumes code units of
    [E] only, and what it matches holds a code unit of [D]; the brackets of
    the placeholder are outside [E] and no code unit of the placeholder is
    in [D]. *)
Definition redaction_stable (re : RegExp.t) (E D : ascii -> bool) : bool :=
  global re
  && (word_bounded (source re) || free_of_assertions (source re))
  && within (ignoreCase re) E (source re)
  && requires (ignoreCase re) D (source re)
  && negb (E "["%char) && negb (E "]"%char)
  && negb (string_exists D placeholder).


(** The context of the output at a position, against that of the input at
    the position it comes from: the same code unit before it, or a word
    boundary in the input where the pattern asks for one. *)
Definition same_context (re : RegExp.t) (p' p : option ascii) (s : string)
  : Prop :=
  p' = p \/ (word_bounded (source re) = true -> at_boundary p s = true).

(** Reading [t] from the left, a code unit outside [E] comes before any
    code unit of [D]. *)
Fixpoint blocked (E D : ascii -> bool) (t : string) : bool :=
  match t with
  | EmptyString => false
  | String c tl => negb (E c) || (negb (D c) && blocked E D tl)
  end.

Fixpoint all_suffixes_blocked (E D : ascii -> bool) (t : string) : bool :=
  match t with
  | EmptyString => true
  | String _ tl => blocked E D t && all_suffixes_blocked E D tl
  end.

End Matching.

(* ================================================================== *)
(** * The passes of the scrubber                                       *)
(* ================================================================== *)

Module Passes.
Import RegExp.

Local Open Scope char_scope.

(** For each toggleable category: its pattern, the code units the pattern
    can consume, and code units of which every match holds one. *)
Definition email_units : ascii -> bool :=
  in_ranges [("A","Z"); ("a","z"); ("0","9"); one "."; one "_"; one "%";
             one "+"; one "-"; one "@"; one "|"].
Definition phone_units : ascii -> bool :=
  in_ranges (digit ++ [one "+"; one "-"; one "."; one "("; one ")"] ++ space).
Definition ssn_units : ascii -> bool := in_ranges (one "-" :: digit).
Definition card_units : ascii -> bool := in_ranges (one "-" :: digit ++ space).
Definition ip_units : ascii -> bool := in_ranges (one "." :: digit).
Definition at_sign : ascii -> bool := in_ranges [one "@"].
Definition digits : ascii -> bool := in_ranges digit.

Definition categories
  : list (RegExp.t * ((ascii -> bool) * (ascii -> bool))) :=
  [ (PIIScrubber.PATTERNS.email, (email_units, at_sign));
    (PIIScrubber.PATTERNS.phone, (phone_units, digits));
    (PIIScrubber.PATTERNS.ssn, (ssn_units, digits));
    (PIIScrubber.PATTERNS.creditCard, (card_units, digits));
    (PIIScrubber.PATTERNS.ipAddress, (ip_units, digits)) ].

(** The patterns of the toggleable categories. *)
Definition category_patterns : list RegExp.t := map fst categories.

(** The passes [scrubString] makes under a configuration: pattern and
    replacement template, in order. *)
Definition passes (this : PIIScrubber.t) : list (RegExp.t * string) :=
  let ph := PIIScrubber.placeholder this in
  (if PIIScrubber.maskEmails this
   then [(PIIScrubber.PATTERNS.email, ph)] else [])
  ++ (if PIIScrubber.maskPhones this
      then [(PIIScrubber.PATTERNS.phone, ph)] else [])
  ++ (if PIIScrubber.maskSSNs this
      then [(PIIScrubber.PATTERNS.ssn, ph)] else [])
  ++ (if PIIScrubber.maskCreditCards this
      then [(PIIScrubber.PATTERNS.creditCard, ph)] else [])
  ++ (if PIIScrubber.maskIPAddresses this
      then [(PIIScrubber.PATTERNS.ipAddress, ph)] else [])
  ++ [(PIIScrubber.PATTERNS.apiKey, ("$1: " +++ ph)%string);
      (PIIScrubber.PATTERNS.githubToken, ph);
      (PIIScrubber.PATTERNS.stripeKey, ph)]
  ++ map (fun re => (re, ph)) (PIIScrubber.maskCustomPatterns this).

Definition run_passes (ps : list (RegExp.t * string)) (text : string) : string :=
  fold_left (fun scrubbed pass => replace scrubbed (fst pass) (snd pass))
            ps text.

End Passes.

(* ================================================================== *)
(** * utils/performance.ts: DataBuffer                                 *)
(* ================================================================== *)

Module DataBuffer.

Section Buffer.

Variable T : Type.

(** The fields of a [DataBuffer]; the flush callback is passed to the
    operations that call it.  [maxSize] is a non-negative integer. *)
Record t : Type := Make {
  buffer : list T;
  maxSize : nat
}.

(** [new DataBuffer(maxSize, flushCallback)] *)
Definition constructor (maxSize : nat) : t := Make [] maxSize.

(** [flush()]: the outcome, the buffer afterwards and the arguments of the
    callback calls made.  The buffer is emptied before the callback runs. *)
Definition flush (this : t) (flushCallback : list T -> result unit)
  : result unit * t * list (list T) :=
  if 0 <? List.length this.(buffer) then
    let data := this.(buffer) in
    let this := Make [] this.(maxSize) in
    (flushCallback data, this, [data])
  else (Ok tt, this, []).

(** [add(item)] *)
Definition add (this : t) (flushCallback : list T -> result unit) (item : T)
  : result unit * t * list (list T) :=
  let this := Make (this.(buffer) ++ [item]) this.(maxSize) in
  if this.(maxSize) <=? List.length this.(buffer)
  then flush this flushCallback
  else (Ok tt, this, []).

(** [size()] *)
Definition size (this : t) : nat := List.length this.(buffer).

End Buffer.

End DataBuffer.

(* ================================================================== *)
(** * providers/stripe.ts and providers/github.ts                      *)
(* ================================================================== *)

Module StripeProvider.

(** The two fields of a [Stripe.Charge] that the code reads.  An amount is
    an integer, in the smallest unit of the currency. *)
Record Charge : Type := {
  status : string;
  amount : Z
}.

(** [calculateTotalCharges(charges)] *)
Definition calculateTotalCharges (charges : list Charge) : Z :=
  fold_left (fun total charge =>
               if String.eqb charge.(status) "succeeded"
               then (total + charge.(amount))%Z
               else total)
            charges 0%Z.

(** The field of a [Stripe.Customer] that the code reads. *)
Record Customer : Type := {
  id : string
}.

Record StripeExportResult : Type := {
  customers : list Customer;
  charges : list Charge;
  methods : list value
}.

(** The requests made for a customer, by customer id. *)
Inductive call : Type :=
| ChargesList (customer : string)
| PaymentMethodsList (customer : string).

(** The loop over the customers found: a failed request for a customer is
    logged and the loop goes on with the next customer. *)
Fixpoint per_customer (chargesList : string -> result (list Charge))
         (paymentMethodsList : string -> result (list value))
         (todo : list Customer) (result : StripeExportResult)
         (calls : list call) : StripeExportResult * list call :=
  match todo with
  | [] => (result, calls)
  | customer :: tl =>
      let calls := calls ++ [ChargesList customer.(id)] in
      match chargesList customer.(id) with
      | Throw _ => per_customer chargesList paymentMethodsList tl result calls
      | Ok data =>
          let result :=
            {| customers := result.(customers);
               charges := result.(charges) ++ data;
               methods := result.(methods) |} in
          let calls := calls ++ [PaymentMethodsList customer.(id)] in
          match paymentMethodsList customer.(id) with
          | Throw _ =>
              per_customer chargesList paymentMethodsList tl result calls
          | Ok data =>
              per_customer chargesList paymentMethodsList tl
                {| customers := result.(customers);
                   charges := result.(charges);
                   methods := result.(methods) ++ data |}
                calls
          end
      end
  end.

(** [exportCustomerData(email)], given the outcome of the customer search
    and of the two listings: the outcome and the listing requests made. *)
Definition exportCustomerData (customerSearch : result (list Customer))
           (chargesList : string -> result (list Charge))
           (paymentMethodsList : string -> result (list value))
  : result StripeExportResult * list call :=
  match customerSearch with
  | Throw error =>
      (Throw (Error ("Stripe API error: " +++ message error)), [])
  | Ok data =>
      let result := {| customers := data; charges := []; methods := [] |} in
      if List.length result.(customers) =? 0 then (Ok result, [])
      else
        let (result, calls) :=
          per_customer chargesList paymentMethodsList result.(customers)
                       result [] in
        (Ok result, calls)
  end.

End StripeProvider.

Module GitHubProvider.

Record GitHubExportResult : Type := {
  events : list value;
  audit : list value
}.

(** The loop over a paginating iterator: every page is pushed, and the loop
    is left once [limit] items are held.  A page is the outcome of one
    fetch; the items held when a fetch fails are returned with the error. *)
Fixpoint collect (limit : nat) (pages : list (result (list value)))
         (held : list value) : list value * option error :=
  match pages with
  | [] => (held, None)
  | Throw e :: _ => (held, Some e)
  | Ok page :: tl =>
      let held := held ++ page in
      if limit <=? List.length held then (held, None)
      else collect limit tl held
  end.

(** [exportUserData(username, org?)], given what the two iterators yield. *)
Definition exportUserData (eventPages auditPages : list (result (list value)))
           (org : option string) : result GitHubExportResult :=
  match collect 1000 eventPages [] with
  | (_, Some error) => Throw (Error ("GitHub API error: " +++ message error))
  | (events, None) =>
      let audit :=
        match org with
        | None | Some EmptyString => []
        | Some _ => fst (collect 500 auditPages [])
        end in
      Ok {| events := events; audit := audit |}
  end.

End GitHubProvider.

(* ================================================================== *)
(** * commands/generate.ts, step 7: the name of the archive            *)
(* ================================================================== *)

Module ArchiveName.
Import RegExp.

(** [/[^a-zA-Z0-9]/g] and [/[:.]/g] *)
Definition not_alphanumeric : RegExp.t :=
  RegExp.Make (Chars (NotRanges [("a","z"); ("A","Z"); ("0","9")]%char))
              true false.
Definition colon_or_dot : RegExp.t :=
  RegExp.Make (Chars (Ranges [one ":"; one "."]%char)) true false.

(** The second argument of [createEncryptedArchive] in [run]; [iso] is
    [new Date().toISOString()]. *)
Definition archiveName (email iso : string) : string :=
  "evidence_pack_" +++ replace email not_alphanumeric "_"
  +++ "_" +++ replace iso colon_or_dot "-" +++ ".zip".

End ArchiveName.

(* ================================================================== *)
(** * Vocabulary of further properties                                 *)
(* ================================================================== *)

Module Checks.

(** A caller that awaits [add] for each item in turn and stops at the
    first rejection: the last outcome, the buffer and every callback call
    made. *)
Fixpoint add_all {T : Type} (this : DataBuffer.t T)
         (flushCallback : list T -> result unit) (items : list T)
         (calls : list (list T))
  : result unit * DataBuffer.t T * list (list T) :=
  match items with
  | [] => (Ok tt, this, calls)
  | item :: tl =>
      match DataBuffer.add this flushCallback item with
      | (Ok _, this', cs) => add_all this' flushCallback tl (calls ++ cs)
      | (Throw e, this', cs) => (Throw e, this', calls ++ cs)
      end
  end.

Definition succeeded {A : Type} (r : result A) : bool :=
  match r with Ok _ => true | Throw _ => false end.

(** The size of a batch handed to the flush callback. *)
Definition batch_size (maxSize : nat) : nat := Nat.max 1 maxSize.

(** The items with their indices, as [processSequentially] hands them to
    the worker. *)
Definition indexed {T : Type} (items : list T) : list (T * nat) :=
  combine items (seq 0 (List.length items)).


(** The [onProgress] calls of [processSequentially] after [n] items, for
    a counter that stood at [start]. *)
Definition progress_reports (onProgress : bool) (start total n : nat)
  : list (nat * nat) :=
  if onProgress then map (fun k => (start + k, total)) (seq 1 n) else [].

(** The [onProgress] calls of [processInChunks] after [n] chunks of size
    [K]. *)
Definition chunk_reports (onProgress : bool) (start K total n : nat)
  : list (nat * nat) :=
  if onProgress
  then map (fun k => (start + Nat.min total (k * K), total)) (seq 1 n)
  else [].

(** What the chunk worker answered on the chunks, in order. *)
Definition replies {T R : Type} (processor : list T -> result (list R))
           (chunks : list (list T)) : list R :=
  flat_map (fun chunk => match processor chunk with
                         | Ok chunkResults => chunkResults
                         | Throw _ => []
                         end) chunks.


(** Line feed and carriage return, the code units [.] does not match. *)
Definition line_terminator (c : ascii) : bool :=
  RegExp.in_ranges [RegExp.one (ascii_of_N 10); RegExp.one (ascii_of_N 13)] c.

Definition no_line_break (s : string) : bool :=
  Matching.string_forall (fun c => negb (line_terminator c)) s.

(** The name is [pre], then anything without a line break, then [suf]. *)
Definition named (pre suf file : string) : Prop :=
  exists mid, no_line_break mid = true /\ file = pre +++ mid +++ suf.

(** [/^pre.*suf$/] *)
Definition glob (pre suf : string) : RegExp.t :=
  RegExp.Make
    (RegExp.Seq RegExp.Bol
       (RegExp.Seq (RegExp.lit pre)
          (RegExp.Seq (RegExp.star RegExp.dot)
             (RegExp.Seq (RegExp.lit suf) RegExp.Eol))))
    false false.

(** The message of the error a cleanup run meets on an entry: evidence
    artifacts by name on which [statSync] fails, or that are older than
    the cutoff and on which [unlinkSync] fails. *)
Definition failure (cutoffTime : Z) (f : FileCleanup.file) : option string :=
  if FileCleanup.isEvidenceFile (FileCleanup.name f) then
    match FileCleanup.stat_error f with
    | Some msg => Some msg
    | None =>
        if (FileCleanup.mtime f <? cutoffTime)%Z
        then FileCleanup.unlink_error f
        else None
    end
  else None.

Definition error_lines (cutoffTime : Z) (f : FileCleanup.file) : list string :=
  match failure cutoffTime f with
  | Some msg => ["Failed to process " +++ FileCleanup.name f +++ ": " +++ msg]
  | None => []
  end.

(** Evidence artifacts by name that are not older than the cutoff. *)
Definition recent (cutoffTime : Z) (f : FileCleanup.file) : bool :=
  FileCleanup.isEvidenceFile (FileCleanup.name f)
  && Props.is_none (FileCleanup.stat_error f)
  && negb (FileCleanup.mtime f <? cutoffTime)%Z.

Definition evidence_named (f : FileCleanup.file) : bool :=
  FileCleanup.isEvidenceFile (FileCleanup.name f).

(** The string with every code unit replaced by its image. *)
Fixpoint map_units (f : ascii -> ascii) (s : string) : string :=
  match s with
  | EmptyString => ""
  | String c tl => String (f c) (map_units f tl)
  end.

(** The code units of a file name made of an address and a time stamp. *)
Definition name_units (c : ascii) : bool :=
  RegExp.in_ranges [("a","z"); ("A","Z"); ("0","9"); RegExp.one "_";
                    RegExp.one "-"; RegExp.one "+"; RegExp.one "."]%char c.

(** The code units of [toISOString()]. *)
Definition iso_units (c : ascii) : bool :=
  RegExp.in_ranges [("0","9"); RegExp.one "-"; RegExp.one "+";
                    RegExp.one ":"; RegExp.one "."; RegExp.one "T";
                    RegExp.one "Z"]%char c.


(** A root in which [extractFieldPaths] finds no field: null, undefined,
    a scalar, the empty array or the empty object. *)
Definition fieldless (v : value) : bool :=
  match v with
  | VArr (_ :: _) | VObj (_ :: _) => false
  | _ => true
  end.

(** The loop of [extractFieldPaths] over the entries of an object, by
    name. *)
Fixpoint paths_loop (prefix : string) (es : list (string * value))
         (fields : list string) : list string :=
  match es with
  | [] => fields
  | (key, v) :: tl =>
      let fieldPath :=
        if negb (String.eqb prefix "") then prefix +++ "." +++ key else key in
      let fields := fields ++ [fieldPath] in
      let fields :=
        if GDPRClassifier.is_object v
           && (List.length (GDPRClassifier.split_dot prefix) <? 3)
        then fields ++ GDPRClassifier.extractFieldPaths v fieldPath
        else fields in
      paths_loop prefix tl fields
  end.

(** The number of dots in a path. *)
Fixpoint dots (s : string) : nat :=
  match s with
  | EmptyString => 0
  | String c tl => (if Ascii.eqb c "." then 1 else 0) + dots tl
  end.

(** No key of an object inside the value holds a dot. *)
Fixpoint keys_dot_free (v : value) : bool :=
  match v with
  | VArr items => forallb keys_dot_free items
  | VObj entries =>
      forallb (fun e => (dots (fst e) =? 0) && keys_dot_free (snd e)) entries
  | _ => true
  end.

(** No two elements are the same value for [Set]. *)
Fixpoint pairwise_distinct (xs : list value) : bool :=
  match xs with
  | [] => true
  | x :: tl =>
      negb (existsb (GDPRClassifier.same_value_zero x) tl)
      && pairwise_distinct tl
  end.

(** A parsed reply holds no [undefined]: JSON has none. *)
Definition defined (c : value) : bool :=
  match c with VUndefined => false | _ => true end.


(** The code units without one of which no pattern of the scrubber
    matches: the digits, [@], [:], [=] and [_]. *)
Definition trigger (c : ascii) : bool :=
  RegExp.in_ranges [("0","9"); RegExp.one "@"; RegExp.one ":";
                    RegExp.one "="; RegExp.one "_"]%char c.

Definition plain (s : string) : bool :=
  negb (Matching.string_exists trigger s).

(** Every string leaf and every key of the value is plain. *)
Fixpoint all_plain (v : value) : bool :=
  match v with
  | VStr s => plain s
  | VArr items => forallb all_plain items
  | VObj entries =>
      forallb (fun e => plain (fst e) && all_plain (snd e)) entries
  | _ => true
  end.

(** The patterns of the scrubber's registry. *)
Definition registry : list RegExp.t :=
  [ PIIScrubber.PATTERNS.email; PIIScrubber.PATTERNS.phone;
    PIIScrubber.PATTERNS.ssn; PIIScrubber.PATTERNS.creditCard;
    PIIScrubber.PATTERNS.ipAddress; PIIScrubber.PATTERNS.apiKey;
    PIIScrubber.PATTERNS.githubToken; PIIScrubber.PATTERNS.stripeKey ].

Definition no_statistics : PIIScrubber.ScrubStats :=
  {| PIIScrubber.emailsFound := 0; PIIScrubber.phonesFound := 0;
     PIIScrubber.ssnsFound := 0; PIIScrubber.creditCardsFound := 0;
     PIIScrubber.ipAddressesFound := 0; PIIScrubber.apiKeysFound := 0;
     PIIScrubber.totalReductions := 0%Z |}.


(** The gaps with the fills between them: [g0 f1 g1 ... fn gn]. *)
Fixpoint weave (gaps fills : list string) : string :=
  match gaps, fills with
  | g :: gs, f :: fs => g +++ f +++ weave gs fs
  | g :: _, [] => g
  | [], _ => ""
  end.

(** The template holds no [$], so it stands for itself. *)
Definition dollar_free (tmpl : string) : bool :=
  negb (Matching.string_exists (Ascii.eqb "$") tmpl).


(** The items of the pages that were fetched. *)
Definition fetched (pages : list (result (list value))) : list value :=
  flat_map (fun page => match page with
                        | Ok items => items
                        | Throw _ => []
                        end) pages.

(** No page holds more than [per_page] items. *)
Definition pages_within (per_page : nat) (pages : list (result (list value)))
  : Prop :=
  forall items, In (Ok items) pages -> List.length items <= per_page.

Definition charge_succeeded (charge : StripeProvider.Charge) : bool :=
  String.eqb (StripeProvider.status charge) "succeeded".


(** What a listing gave: nothing when it failed. *)
Definition items_of {A : Type} (r : result (list A)) : list A :=
  match r with Ok items => items | Throw _ => [] end.


(** The number of code units of the string that satisfy [D]. *)
Fixpoint count_units (D : ascii -> bool) (s : string) : nat :=
  match s with
  | EmptyString => 0
  | String c tl => (if D c then 1 else 0) + count_units D tl
  end.

(** A number of code units satisfying [D] that every match of the pattern
    holds: a lower bound read off the syntax. *)
Fixpoint least_units (ic : bool) (D : ascii -> bool) (r : RegExp.regex)
  : nat :=
  match r with
  | RegExp.Chars cs =>
      if forallb (fun c => implb (RegExp.in_set ic cs c) (D c))
                 Matching.all_ascii
      then 1 else 0
  | RegExp.Seq r1 r2 => least_units ic D r1 + least_units ic D r2
  | RegExp.Alt r1 r2 => Nat.min (least_units ic D r1) (least_units ic D r2)
  | RegExp.Capture _ r1 => least_units ic D r1
  | RegExp.Repeat r1 mn mx =>
      match mx with
      | Some k => Nat.min mn k
      | None => mn
      end * least_units ic D r1
  | _ => 0
  end.

(** [@], [:], [=] and [_]. *)
Definition symbol (c : ascii) : bool :=
  RegExp.in_ranges [RegExp.one "@"; RegExp.one ":"; RegExp.one "=";
                    RegExp.one "_"]%char c.

End Checks.

(* ================================================================== *)
(** * Properties                                                       *)
(* ================================================================== *)

Unset Implicit Arguments.

(** Induction over hierarchical values, with the hypothesis available for
    every element of an array and every property value of an object. *)
Lemma value_ind (P : value -> Prop)
      (Hnull : P VNull) (Hundef : P VUndefined)
      (Hbool : forall b, P (VBool b)) (Hnum : forall n, P (VNum n))
      (Hstr : forall s, P (VStr s))
      (Harr : forall items, Forall P items -> P (VArr items))
      (Hobj : forall entries, Forall (fun e => P (snd e)) entries ->
                              P (VObj entries)) :
  forall v, P v.
Proof.
  fix IH 1. intros [ | | b | n | s | items | entries ].
  - exact Hnull.
  - exact Hundef.
  - apply Hbool.
  - apply Hnum.
  - apply Hstr.
  - apply Harr. induction items as [ | x xs IHxs ]; constructor.
    + apply IH.
    + exact IHxs.
  - apply Hobj. induction entries as [ | [k x] es IHes ]; constructor.
    + apply IH.
    + exact IHes.
Qed.

(** ** Field-path extraction and the classification short cut *)

Section FieldPaths.
Import GDPRClassifier Props.

Variable JSON_stringify : list string -> value -> string.
Variable JSON_parse : string -> result value.
Variable getSystemPrompt : string.
Variable create : Request -> result (option string).
Variable startTime endTime : Z.

(** C9. On a null root and on every scalar root (string, number, boolean)
    [extractFieldPaths] returns the empty sequence, and [classifyData] then
    returns the empty result (no classifications, [totalFields = 0]) as a
    normal value, having sent no request to the reasoning service; on
    [{a:{b:1}}] the extracted paths are [a] and [a.b]. *)
Theorem extract_empty_on_null_and_scalars (b : bool) (n : Z) (s : string) :
  Forall (fun root =>
            extractFieldPaths root "" = []
            /\ classifyData JSON_stringify JSON_parse getSystemPrompt create
                            startTime endTime root
               = (Ok (empty_classification startTime endTime), []))
         (null_and_scalar_roots b n s)
  /\ extractFieldPaths (VObj [("a", VObj [("b", VNum 1)])]) "" = ["a"; "a.b"]
  /\ In "a" (extractFieldPaths (VObj [("a", VObj [("b", VNum 1)])]) "")
  /\ In "a.b" (extractFieldPaths (VObj [("a", VObj [("b", VNum 1)])]) "").
Proof.
  split.
  - unfold null_and_scalar_roots.
    repeat constructor.
  - cbn. repeat split; auto.
Qed.

End FieldPaths.

(** ** Assignments to an object *)

Section ObjSet.

Variable P : value -> Prop.

Lemma overwrite_values k v es :
  P v -> Forall (fun e => P (snd e)) es ->
  Forall (fun e => P (snd e)) (Obj.overwrite k v es).
Proof.
  intros Hv Hes. induction Hes as [ | [k' v'] tl Hx Htl IH ]; simpl.
  - constructor.
  - destruct (String.eqb k' k); constructor; auto.
Qed.

Lemma insert_index_values n k v es :
  P v -> Forall (fun e => P (snd e)) es ->
  Forall (fun e => P (snd e)) (Obj.insert_index n k v es).
Proof.
  intros Hv Hes. induction Hes as [ | [k' v'] tl Hx Htl IH ]; simpl.
  - repeat constructor; exact Hv.
  - destruct (Obj.array_index k') as [n' | ].
    + destruct (n' <? n)%N; repeat constructor; auto.
    + repeat constructor; auto.
Qed.

Lemma define_values k v es :
  P v -> Forall (fun e => P (snd e)) es ->
  Forall (fun e => P (snd e)) (Obj.define k v es).
Proof.
  intros Hv Hes. unfold Obj.define.
  destruct (Obj.lookup k es).
  - now apply overwrite_values.
  - destruct (Obj.array_index k).
    + now apply insert_index_values.
    + apply Forall_app. split; [ exact Hes | repeat constructor; exact Hv ].
Qed.

Lemma set_values k v reaches o :
  P v -> Forall (fun e => P (snd e)) (Obj.own o) ->
  Forall (fun e => P (snd e)) (Obj.own (Obj.set k v reaches o)).
Proof.
  intros Hv Ho. unfold Obj.set.
  destruct (Obj.lookup k (Obj.own o));
    [ | destruct (String.eqb k "__proto__" && Obj.accessor o) ];
    cbn [Obj.own]; try exact Ho; apply define_values; assumption.
Qed.

End ObjSet.





(** ** The structural sample *)

Section Sample.
Import GDPRClassifier Props.

Lemma typeof_is_tag v : is_type_tag (typeof v) = true.
Proof. destruct v; reflexivity. Qed.





End Sample.

(** ** Validation of the parsed classification response *)

Section Validation.
Import GDPRClassifier Props.

Lemma get_prop_attr c a : nullish c = false -> get_prop c a = Ok (attr c a).
Proof.
  destruct c; simpl; intros H; try discriminate; try reflexivity.
  destruct (Obj.lookup a entries); reflexivity.
Qed.

Lemma is_valid_complete c : nullish c = false -> is_valid c = Ok (complete c).
Proof.
  intros H. unfold is_valid, complete, required_attributes.
  rewrite !(get_prop_attr c _ H). simpl.
  destruct (truthy (attr c "field")); simpl; [ | reflexivity ].
  destruct (truthy (attr c "article")); simpl; [ | reflexivity ].
  destruct (truthy (attr c "reasoning")); simpl; [ | reflexivity ].
  destruct (truthy (attr c "dataType")); simpl; [ | reflexivity ].
  destruct (truthy (attr c "sensitivity")); reflexivity.
Qed.

Lemma is_high_high c : nullish c = false -> is_high c = Ok (high c).
Proof.
  intros H. unfold is_high, high. rewrite (get_prop_attr c _ H). reflexivity.
Qed.

Lemma filter_r_pure (p : value -> result bool) (q : value -> bool) cs :
  (forall c, nullish c = false -> p c = Ok (q c)) ->
  forallb (fun c => negb (nullish c)) cs = true ->
  filter_r p cs = Ok (filter q cs).
Proof.
  intros Hp. induction cs as [ | c tl IH ]; simpl; intros Hcs.
  - reflexivity.
  - apply andb_prop in Hcs. destruct Hcs as [Hc Htl].
    apply negb_true_iff in Hc.
    rewrite (Hp c Hc). simpl. rewrite (IH Htl). simpl.
    destruct (q c); reflexivity.
Qed.

Lemma map_r_pure (cs : list value) a :
  forallb (fun c => negb (nullish c)) cs = true ->
  map_r (fun c => get_prop c a) cs = Ok (map (fun c => attr c a) cs).
Proof.
  induction cs as [ | c tl IH ]; simpl; intros Hcs.
  - reflexivity.
  - apply andb_prop in Hcs. destruct Hcs as [Hc Htl].
    apply negb_true_iff in Hc.
    rewrite (get_prop_attr c _ Hc). simpl. rewrite (IH Htl). reflexivity.
Qed.

Lemma forallb_filter (A : Type) (p q : A -> bool) xs :
  forallb p xs = true -> forallb p (filter q xs) = true.
Proof.
  induction xs as [ | x tl IH ]; simpl; intros H; [ reflexivity | ].
  apply andb_prop in H. destruct H as [Hx Htl].
  destruct (q x); simpl; [ rewrite Hx | ]; auto.
Qed.

Lemma missing_not_complete c : missing_attribute c = true -> complete c = false.
Proof.
  unfold missing_attribute, complete. intros H.
  apply existsb_exists in H. destruct H as [a [Ha Hmiss]].
  apply not_true_is_false. intros Hall.
  rewrite forallb_forall in Hall. specialize (Hall a Ha).
  unfold attr in Hall. destruct c; try discriminate.
  destruct (Obj.lookup a entries); discriminate.
Qed.

Lemma summarize_array t0 t1 fieldPaths cs :
  forallb (fun c => negb (nullish c)) cs = true ->
  summarize t0 t1 fieldPaths (VArr cs)
  = Ok {| classifications := filter complete cs;
          summary :=
            {| totalFields := List.length fieldPaths;
               articlesFound :=
                 set_to_array (map (fun c => attr c "article")
                                   (filter complete cs)) [];
               highSensitivityFields :=
                 List.length (filter high (filter complete cs));
               processingTime := (t1 - t0)%Z |} |}.
Proof.
  intros Hcs. unfold summarize.
  rewrite (filter_r_pure is_valid complete cs is_valid_complete Hcs). simpl.
  pose proof (forallb_filter _ _ complete cs Hcs) as Hvalid.
  rewrite (map_r_pure _ "article" Hvalid). simpl.
  rewrite (filter_r_pure is_high high _ is_high_high Hvalid). simpl.
  reflexivity.
Qed.

Variable JSON_stringify : list string -> value -> string.
Variable JSON_parse : string -> result value.
Variable getSystemPrompt : string.
Variable create : Request -> result (option string).
Variable startTime endTime : Z.

(** C7, amended.  Whenever the reasoning service answers and its answer
    parses as a sequence of records, none of them null or undefined,
    [classifyData] returns normally; [classifications]
    holds, in order, exactly the records whose five required attributes are
    all present and truthy, so a record that lacks any of them is not in
    it; [summary.totalFields] is the number of extracted field paths, not
    the number of surviving records; [highSensitivityFields] counts the
    surviving records whose sensitivity is ['high']. *)
Theorem incomplete_records_are_dropped
        (scrubbedData : value) (c0 : ascii) (content : string) (cs : list value) :
  extractFieldPaths scrubbedData "" <> [] ->
  (forall request, create request = Ok (Some (String c0 content))) ->
  JSON_parse (String c0 content) = Ok (VArr cs) ->
  forallb (fun c => negb (nullish c)) cs = true ->
  exists r request,
    classifyData JSON_stringify JSON_parse getSystemPrompt create
                 startTime endTime scrubbedData = (Ok r, [request])
    /\ r.(classifications) = filter complete cs
    /\ (forall c, In c cs -> missing_attribute c = true ->
                  ~ In c r.(classifications))
    /\ r.(summary).(totalFields)
       = List.length (extractFieldPaths scrubbedData "")
    /\ r.(summary).(highSensitivityFields)
       = List.length (filter high r.(classifications)).
Proof.
  intros Hpaths Hcreate Hparse Hcs.
  unfold classifyData.
  destruct (extractFieldPaths scrubbedData "") as [ | p ps ] eqn:Hfp;
    [ congruence | ].
  cbn [List.length Nat.eqb].
  rewrite Hcreate. cbn [bind]. rewrite Hparse.
  rewrite (summarize_array _ _ _ cs Hcs).
  eexists. eexists. split; [ reflexivity | ]. simpl.
  repeat split.
  intros c Hin Hmiss Hc. apply filter_In in Hc. destruct Hc as [_ Hc].
  rewrite (missing_not_complete _ Hmiss) in Hc. discriminate.
Qed.

End Validation.

Lemma incomplete_records_are_dropped_witness :
  exists r request,
    GDPRClassifier.classifyData
      (fun _ _ => "{}") (fun _ => Ok (VArr Props.sample_response)) "prompt"
      (fun _ => Ok (Some "[]")) 0%Z 5%Z
      (VObj [("email", VStr "[REDACTED]"); ("note", VStr "call [REDACTED]")])
    = (Ok r, [request])
    /\ r.(GDPRClassifier.classifications)
       = filter Props.complete Props.sample_response
    /\ (forall c, In c Props.sample_response ->
                  Props.missing_attribute c = true ->
                  ~ In c r.(GDPRClassifier.classifications))
    /\ r.(GDPRClassifier.summary).(GDPRClassifier.totalFields)
       = List.length
           (GDPRClassifier.extractFieldPaths
              (VObj [("email", VStr "[REDACTED]");
                     ("note", VStr "call [REDACTED]")]) "")
    /\ r.(GDPRClassifier.summary).(GDPRClassifier.highSensitivityFields)
       = List.length (filter Props.high r.(GDPRClassifier.classifications)).
Proof.
  apply (incomplete_records_are_dropped
           (fun _ _ => "{}") (fun _ => Ok (VArr Props.sample_response)) "prompt"
           (fun _ => Ok (Some "[]")) 0%Z 5%Z
           (VObj [("email", VStr "[REDACTED]"); ("note", VStr "call [REDACTED]")])
           "[" "]" Props.sample_response).
  - vm_compute. discriminate.
  - intros request. reflexivity.
  - reflexivity.
  - vm_compute. reflexivity.
Defined.

(** C7 as stated fails: a response in which a record without
    [sensitivity] is followed by [null] parses as a sequence, yet nothing
    is excluded from a result, since there is none: reading [field] of
    [null] throws, and the whole classification fails. *)
Lemma null_record_is_not_excluded :
  let incomplete :=
    VObj [("field", VStr "note"); ("article", VStr "Art. 6");
          ("reasoning", VStr "free text"); ("dataType", VStr "behavioral")] in
  Props.missing_attribute incomplete = true
  /\ fst (GDPRClassifier.classifyData
            (fun _ _ => "{}") (fun _ => Ok (VArr [incomplete; VNull]))
            "prompt" (fun _ => Ok (Some "[]")) 0%Z 5%Z
            (VObj [("email", VStr "[REDACTED]")]))
     = Throw (Error ("GDPR classification failed: "
                     +++ "Cannot read properties of null (reading 'field')")).
Proof.
  split; vm_compute; reflexivity.
Qed.

(** ** Chunked and sequential traversal *)

Section Chunks.
Import StreamProcessor Props.

Variables T R : Type.
Variable f : T -> result R.

Lemma lift_app xs ys :
  lift f (xs ++ ys)
  = (rs <- lift f xs ;; rs' <- lift f ys ;; Ok (rs ++ rs')).
Proof.
  induction xs as [ | x tl IH ]; simpl.
  - destruct (lift f ys); reflexivity.
  - destruct (f x) as [r | e]; simpl; [ | reflexivity ].
    rewrite IH. destruct (lift f tl) as [rs | e]; simpl; [ | reflexivity ].
    destruct (lift f ys); reflexivity.
Qed.

Lemma lift_length xs rs : lift f xs = Ok rs -> List.length rs = List.length xs.
Proof.
  revert rs. induction xs as [ | x tl IH ]; simpl; intros rs H.
  - inversion H. reflexivity.
  - destruct (f x) as [r | e]; simpl in H; [ | discriminate ].
    destruct (lift f tl) as [rs' | e]; simpl in H; [ | discriminate ].
    inversion H. simpl. f_equal. apply IH. reflexivity.
Qed.

(** The items from a position on are the chunk taken there followed by the
    items after it. *)
Lemma skipn_chunk (items : list T) i K :
  skipn i items = slice items i (i + K) ++ skipn (i + K) items.
Proof.
  unfold slice. replace (i + K - i) with K by lia.
  rewrite Nat.add_comm, <- skipn_skipn. symmetry. apply firstn_skipn.
Qed.

Lemma seq_loop_outcome len (processor : T -> nat -> result R) onProgress :
  (forall x i, processor x i = f x) ->
  forall rest i this results calls progress,
    fst (seq_loop len rest processor onProgress i this results calls progress)
    = (rs <- lift f rest ;; Ok (results ++ rs)).
Proof.
  intros Hp. induction rest as [ | item tl IH ];
    intros i this results calls progress; simpl.
  - rewrite app_nil_r. reflexivity.
  - rewrite Hp. destruct (f item) as [r | e]; simpl; [ | reflexivity ].
    rewrite IH. destruct (lift f tl) as [rs | e]; simpl; [ | reflexivity ].
    rewrite <- app_assoc. reflexivity.
Qed.

Lemma chunk_loop_outcome (items : list T) processor onProgress :
  (forall chunk, processor chunk = lift f chunk) ->
  forall fuel j this results calls progress,
    1 <= chunkSize this ->
    j * chunkSize this < List.length items + chunkSize this ->
    List.length items - j * chunkSize this < fuel ->
    exists trace n,
      chunk_loop fuel (List.length items) items processor onProgress
                 (j * chunkSize this) this results calls progress
      = Some (rs <- lift f (skipn (j * chunkSize this) items) ;;
              Ok (results ++ rs), trace)
      /\ worker_calls trace
         = calls ++ map (nth_chunk (chunkSize this) items) (seq j n)
      /\ (j + n) * chunkSize this < List.length items + chunkSize this
      /\ (forall rs, lift f (skipn (j * chunkSize this) items) = Ok rs ->
                     List.length items <= (j + n) * chunkSize this).
Proof.
  intros Hp. induction fuel as [ | fuel IH ];
    intros j this results calls progress HK Hj Hfuel; [ lia | ].
  cbn [chunk_loop].
  destruct (j * chunkSize this <? List.length items) eqn:Hlt.
  - apply Nat.ltb_lt in Hlt.
    rewrite (skipn_chunk items (j * chunkSize this) (chunkSize this)).
    rewrite lift_app, Hp.
    destruct (lift f (slice items (j * chunkSize this)
                            (j * chunkSize this + chunkSize this)))
      as [chunkResults | e] eqn:Hchunk; cbn [bind].
    + set (this' := Make (chunkSize this) _).
      assert (E : S j * chunkSize this
                  = j * chunkSize this + chunkSize this) by (simpl; lia).
      destruct (IH (S j) this' (results ++ chunkResults)
                   (calls ++ [slice items (j * chunkSize this)
                                    (j * chunkSize this + chunkSize this)])
                   (if onProgress
                    then progress ++ [(processedCount this', List.length items)]
                    else progress))
        as [trace [n [Hrun [Hcalls [Hbound Hdone]]]]];
        change (chunkSize this') with (chunkSize this) in *; try lia.
      rewrite E in Hrun, Hdone.
      exists trace, (S n).
      split; [ | split; [ | split ] ].
      * rewrite Hrun.
        destruct (lift f (skipn (j * chunkSize this + chunkSize this) items));
          cbn [bind]; [ rewrite app_assoc | ]; reflexivity.
      * rewrite Hcalls, <- app_assoc. reflexivity.
      * replace (j + S n) with (S j + n) by lia. exact Hbound.
      * intros rs Hrs. replace (j + S n) with (S j + n) by lia.
        destruct (lift f (skipn (j * chunkSize this + chunkSize this) items))
          as [rs' | e] eqn:Hrest; cbn [bind] in Hrs; [ | discriminate ].
        eapply Hdone. reflexivity.
    + eexists. exists 1. split; [ reflexivity | ]. cbn [worker_calls].
      split; [ reflexivity | ]. split; [ lia | ]. intros rs Hrs. discriminate.
  - apply Nat.ltb_ge in Hlt.
    rewrite skipn_all2 by exact Hlt. cbn [lift bind]. rewrite app_nil_r.
    eexists. exists 0. split; [ reflexivity | ]. cbn [worker_calls seq map].
    rewrite app_nil_r. split; [ reflexivity | ].
    rewrite Nat.add_0_r. split; [ exact Hj | intros rs _; exact Hlt ].
Qed.

Lemma firstn_plus (l : list T) n k :
  firstn (n + k) l = firstn n l ++ firstn k (skipn n l).
Proof.
  revert l. induction n as [ | n IH ]; intros l; simpl.
  - reflexivity.
  - destruct l as [ | x tl ]; simpl.
    + rewrite firstn_nil. reflexivity.
    + rewrite IH. reflexivity.
Qed.

Lemma concat_chunks (items : list T) K n :
  concat (map (nth_chunk K items) (seq 0 n)) = firstn (n * K) items.
Proof.
  induction n as [ | n IH ].
  - reflexivity.
  - rewrite seq_S, map_app, concat_app, IH. simpl.
    rewrite app_nil_r. unfold nth_chunk, slice.
    replace (n * K + K - n * K) with K by lia.
    replace (K + n * K) with (n * K + K) by lia.
    symmetry. apply firstn_plus.
Qed.

Lemma nth_chunk_length (items : list T) K j :
  List.length (nth_chunk K items j) = Nat.min K (List.length items - j * K).
Proof.
  unfold nth_chunk, slice. rewrite length_firstn, length_skipn.
  replace (j * K + K - j * K) with K by lia. reflexivity.
Qed.

(** C8. For every list of items and every chunk size [K >= 1], when the
    chunk worker applies the item worker to each element of its chunk,
    [processInChunks] comes to an end and has the outcome of
    [processSequentially] over the same items: the same results in the same
    order, or the same failure.  The chunks handed to the worker are, in
    order, the contiguous slices at [0], [K], [2K], ...: each has [K] items
    except possibly the last, none is empty, and when no worker call fails
    they add up to the items. *)
Theorem chunks_agree_with_sequential
        (this : t) (items : list T)
        (chunkWorker : list T -> result (list R))
        (itemWorker : T -> nat -> result R)
        (onProgress : bool) (fuel : nat) :
  1 <= chunkSize this ->
  (forall chunk, chunkWorker chunk = lift f chunk) ->
  (forall x i, itemWorker x i = f x) ->
  List.length items < fuel ->
  exists trace n,
    processInChunks fuel this items chunkWorker onProgress
    = Some (fst (processSequentially this items itemWorker onProgress), trace)
    /\ worker_calls trace = map (nth_chunk (chunkSize this) items) (seq 0 n)
    /\ (forall j, S j < n ->
                  List.length (nth_chunk (chunkSize this) items j)
                  = chunkSize this)
    /\ (forall j, j < n ->
                  1 <= List.length (nth_chunk (chunkSize this) items j)
                  <= chunkSize this)
    /\ (forall results,
           fst (processSequentially this items itemWorker onProgress)
           = Ok results ->
           concat (worker_calls trace) = items
           /\ List.length results = List.length items).
Proof.
  intros HK Hchunk Hitem Hfuel.
  destruct (chunk_loop_outcome items chunkWorker onProgress Hchunk
              fuel 0 this [] [] [] HK)
    as [trace [n [Hrun [Hcalls [Hbound Hdone]]]]]; [ simpl; lia | simpl; lia | ].
  simpl in Hrun, Hcalls, Hbound, Hdone.
  assert (Hseq : fst (processSequentially this items itemWorker onProgress)
                 = lift f items).
  { unfold processSequentially. rewrite (seq_loop_outcome _ _ _ Hitem).
    destruct (lift f items); reflexivity. }
  exists trace, n. rewrite Hseq.
  split; [ | split; [ | split; [ | split ] ] ].
  - unfold processInChunks. rewrite Hrun.
    destruct (lift f items); reflexivity.
  - exact Hcalls.
  - intros j Hjn. rewrite nth_chunk_length. nia.
  - intros j Hjn. rewrite nth_chunk_length. nia.
  - intros results Hres. split.
    + rewrite Hcalls, concat_chunks. apply firstn_all2.
      eapply Hdone. exact Hres.
    + eapply lift_length. exact Hres.
Qed.

End Chunks.

Lemma chunks_agree_with_sequential_witness :
  exists trace n,
    StreamProcessor.processInChunks
      6 (StreamProcessor.constructor (Some 2)) [1; 2; 3; 4; 5]%Z
      (StreamProcessor.lift Props.sample_worker) false
    = Some (fst (StreamProcessor.processSequentially
                   (StreamProcessor.constructor (Some 2)) [1; 2; 3; 4; 5]%Z
                   (fun x _ => Props.sample_worker x) false), trace)
    /\ StreamProcessor.worker_calls trace
       = map (Props.nth_chunk 2 [1; 2; 3; 4; 5]%Z) (seq 0 n)
    /\ (forall j, S j < n ->
                  List.length (Props.nth_chunk 2 [1; 2; 3; 4; 5]%Z j) = 2)
    /\ (forall j, j < n ->
                  1 <= List.length (Props.nth_chunk 2 [1; 2; 3; 4; 5]%Z j) <= 2)
    /\ (forall results,
           fst (StreamProcessor.processSequentially
                  (StreamProcessor.constructor (Some 2)) [1; 2; 3; 4; 5]%Z
                  (fun x _ => Props.sample_worker x) false)
           = Ok results ->
           concat (StreamProcessor.worker_calls trace) = [1; 2; 3; 4; 5]%Z
           /\ List.length results = 5).
Proof.
  apply (chunks_agree_with_sequential Z Z Props.sample_worker
           (StreamProcessor.constructor (Some 2)) [1; 2; 3; 4; 5]%Z
           (StreamProcessor.lift Props.sample_worker)
           (fun x _ => Props.sample_worker x) false 6).
  - simpl. lia.
  - reflexivity.
  - reflexivity.
  - simpl. lia.
Defined.

(** ** Start-up cleanup *)

Section Cleanup.
Import FileCleanup Props.

Lemma find_file_skip n pre f post :
  ~ In n (map name pre) -> name f = n ->
  find_file n (pre ++ f :: post) = Some f.
Proof.
  intros Hnot Hn. induction pre as [ | g tl IH ]; simpl.
  - rewrite Hn, String.eqb_refl. reflexivity.
  - simpl in Hnot. destruct (String.eqb (name g) n) eqn:Hg.
    + apply String.eqb_eq in Hg. tauto.
    + apply IH. tauto.
Qed.

Lemma filter_other_names n fs :
  ~ In n (map name fs) ->
  filter (fun g => negb (String.eqb (name g) n)) fs = fs.
Proof.
  induction fs as [ | g tl IH ]; simpl; intros Hnot; [ reflexivity | ].
  destruct (String.eqb (name g) n) eqn:Hg; simpl.
  - apply String.eqb_eq in Hg. tauto.
  - rewrite IH; tauto.
Qed.

Lemma unlink_one pre f post :
  NoDup (map name (pre ++ f :: post)) ->
  filter (fun g => negb (String.eqb (name g) (name f))) (pre ++ f :: post)
  = pre ++ post.
Proof.
  intros Hnd. rewrite map_app in Hnd. simpl in Hnd.
  pose proof (NoDup_remove_2 _ _ _ Hnd) as Hnot.
  rewrite in_app_iff in Hnot.
  rewrite filter_app. simpl. rewrite String.eqb_refl. simpl.
  rewrite !filter_other_names; tauto.
Qed.

(** The loop goes on to the next entry with some other result record. *)
Ltac next_entry :=
  match goal with
  | Hnext : forall result', _ |- context [scan _ _ ?r _] => exact (Hnext r)
  end.

Lemma scan_spec cutoffTime todo :
  forall pre result,
    NoDup (map name (pre ++ todo)) ->
    let out := scan (map name todo) cutoffTime result (pre ++ todo) in
    snd out = pre ++ filter (kept cutoffTime) todo
    /\ deletedFiles (fst out)
       = deletedFiles result ++ map name (filter (removed cutoffTime) todo)
    /\ filesDeleted (fst out)
       = filesDeleted result + List.length (filter (removed cutoffTime) todo)
    /\ totalSizeFreed (fst out)
       = (totalSizeFreed result
          + total_size (filter (removed cutoffTime) todo))%Z.
Proof.
  induction todo as [ | f tl IH ]; intros pre result Hnd; cbn zeta.
  - simpl. rewrite !app_nil_r, Z.add_0_r, Nat.add_0_r. auto.
  - assert (Hnext : forall result',
               let out := scan (map name tl) cutoffTime result'
                               ((pre ++ [f]) ++ tl) in
               snd out = (pre ++ [f]) ++ filter (kept cutoffTime) tl
               /\ deletedFiles (fst out)
                  = deletedFiles result'
                    ++ map name (filter (removed cutoffTime) tl)
               /\ filesDeleted (fst out)
                  = filesDeleted result'
                    + List.length (filter (removed cutoffTime) tl)
               /\ totalSizeFreed (fst out)
                  = (totalSizeFreed result'
                     + total_size (filter (removed cutoffTime) tl))%Z).
    { intros result'. apply IH. rewrite <- app_assoc. exact Hnd. }
    assert (Hfind : find_file (name f) (pre ++ f :: tl) = Some f).
    { apply find_file_skip; [ | reflexivity ].
      rewrite map_app in Hnd. simpl in Hnd.
      pose proof (NoDup_remove_2 _ _ _ Hnd) as Hnot.
      rewrite in_app_iff in Hnot. tauto. }
    cbn [map scan]. unfold kept, removed. cbn [filter].
    rewrite <- !app_assoc in Hnext. cbn [app] in Hnext.
    destruct (isEvidenceFile (name f)) eqn:Hev; cbn [negb andb].
    + unfold statSync, unlinkSync. rewrite Hfind.
      destruct (stat_error f) as [msg | ] eqn:Hstat; cbn [is_none andb negb].
      * next_entry.
      * destruct (mtime f <? cutoffTime)%Z eqn:Hold; cbn [andb negb].
        -- destruct (unlink_error f) as [msg | ] eqn:Hunlink;
             cbn [is_none negb].
           ++ next_entry.
           ++ rewrite (unlink_one pre f tl Hnd).
              assert (Hnd' : NoDup (map name (pre ++ tl))).
              { rewrite map_app in *. simpl in Hnd.
                apply NoDup_remove_1 in Hnd. exact Hnd. }
              destruct (IH pre
                          {| filesScanned := filesScanned result + 1;
                             filesDeleted := filesDeleted result + 1;
                             deletedFiles := deletedFiles result ++ [name f];
                             totalSizeFreed :=
                               (totalSizeFreed result + size f)%Z;
                             errors := errors result |} Hnd')
                as [Hfs [Hnames [Hcount Hsize]]].
              cbn [filesScanned filesDeleted deletedFiles totalSizeFreed errors]
                in *.
              fold (kept cutoffTime). fold (removed cutoffTime).
              rewrite Hfs, Hnames, Hcount, Hsize.
              cbn [map List.length total_size fold_right].
              rewrite <- app_assoc. fold (total_size (filter (removed cutoffTime) tl)).
              repeat split; try reflexivity; lia.
        -- next_entry.
    + next_entry.
Qed.

(** C10. [cleanupOldFiles] removes exactly the entries of the target
    directory whose name matches one of the three evidence patterns, whose
    modification time is before the cutoff, and on which [statSync] and
    [unlinkSync] succeed; every other entry is still there, unchanged, and
    nothing is removed when the directory is missing or unreadable.  The
    names, the count and the byte total of the result are those of the
    removed entries. *)
Theorem cleanup_removes_only_old_evidence
        (this : FileCleanup.t) (now : Z) (fs : list file) (msg : string) :
  NoDup (map name fs) ->
  let out := cleanupOldFiles this now (Listing fs) in
  let gone := filter (removed (cutoff this now)) fs in
  snd out = Listing (filter (kept (cutoff this now)) fs)
  /\ (forall g, In g gone ->
                isEvidenceFile (name g) = true
                /\ (mtime g < cutoff this now)%Z)
  /\ (forall g, In g fs -> ~ In g gone ->
                In g (filter (kept (cutoff this now)) fs))
  /\ deletedFiles (fst out) = map name gone
  /\ filesDeleted (fst out) = List.length gone
  /\ totalSizeFreed (fst out) = total_size gone
  /\ snd (cleanupOldFiles this now Missing) = Missing
  /\ deletedFiles (fst (cleanupOldFiles this now Missing)) = []
  /\ snd (cleanupOldFiles this now (Unreadable msg)) = Unreadable msg
  /\ deletedFiles (fst (cleanupOldFiles this now (Unreadable msg))) = [].
Proof.
  intros Hnd out gone.
  destruct (scan_spec (cutoff this now) fs [] empty_result Hnd)
    as [Hfs [Hnames [Hcount Hsize]]].
  cbn [app] in Hfs, Hnames, Hcount, Hsize.
  unfold out, cleanupOldFiles. fold (cutoff this now).
  destruct (scan (map name fs) (cutoff this now) empty_result fs)
    as [result fs'] eqn:Hscan.
  cbn [fst snd] in *.
  split; [ rewrite Hfs; reflexivity | ].
  split.
  { intros g Hg. apply filter_In in Hg. destruct Hg as [_ Hg].
    unfold removed in Hg.
    repeat (apply andb_prop in Hg; destruct Hg as [Hg ?]).
    split; [ assumption | apply Z.ltb_lt; assumption ]. }
  split.
  { intros g Hin Hnot. apply filter_In. split; [ exact Hin | ].
    unfold kept. destruct (removed (cutoff this now) g) eqn:Hr;
      [ | reflexivity ].
    exfalso. apply Hnot. apply filter_In. split; assumption. }
  repeat split; assumption.
Qed.

End Cleanup.

Lemma cleanup_removes_only_old_evidence_witness :
  let this := FileCleanup.constructor None None in
  let now := 100000000%Z in
  let fs := Props.sample_directory in
  let out := FileCleanup.cleanupOldFiles this now (FileCleanup.Listing fs) in
  let gone := filter (Props.removed (Props.cutoff this now)) fs in
  snd out = FileCleanup.Listing (filter (Props.kept (Props.cutoff this now)) fs)
  /\ (forall g, In g gone ->
                FileCleanup.isEvidenceFile (FileCleanup.name g) = true
                /\ (FileCleanup.mtime g < Props.cutoff this now)%Z)
  /\ (forall g, In g fs -> ~ In g gone ->
                In g (filter (Props.kept (Props.cutoff this now)) fs))
  /\ FileCleanup.deletedFiles (fst out) = map FileCleanup.name gone
  /\ FileCleanup.filesDeleted (fst out) = List.length gone
  /\ FileCleanup.totalSizeFreed (fst out) = Props.total_size gone
  /\ snd (FileCleanup.cleanupOldFiles this now FileCleanup.Missing)
     = FileCleanup.Missing
  /\ FileCleanup.deletedFiles
       (fst (FileCleanup.cleanupOldFiles this now FileCleanup.Missing)) = []
  /\ snd (FileCleanup.cleanupOldFiles this now (FileCleanup.Unreadable "EACCES"))
     = FileCleanup.Unreadable "EACCES"
  /\ FileCleanup.deletedFiles
       (fst (FileCleanup.cleanupOldFiles this now
               (FileCleanup.Unreadable "EACCES"))) = [].
Proof.
  apply (cleanup_removes_only_old_evidence
           (FileCleanup.constructor None None) 100000000%Z
           Props.sample_directory "EACCES").
  simpl. repeat constructor; simpl; intuition discriminate.
Defined.

(** ** The result of the scrub entry point *)

Section ScrubEntryPoint.

(** C2 fails on the code: [scrubPII] returns the scrubbed value itself, not
    a record of scrubbed data, statistics and byte delta.  On the
    [mergedData] of [run], whatever the exported data, the result has no
    [scrubbedData], [stats] or [bytesReduced] property, and step 4 of [run]
    throws on [scrubResult.stats.itemsFound]. *)
Theorem scrubPII_result_has_no_components
        (email githubOrg exportTimestamp : string)
        (githubData stripeData : value) :
  let merged :=
    Generate.mergedData email githubOrg exportTimestamp githubData stripeData in
  scrubPII merged ScrubConfig.empty
  = PIIScrubber.scrubObject (PIIScrubber.constructor ScrubConfig.empty) merged
  /\ get_prop (scrubPII merged ScrubConfig.empty) "scrubbedData" = Ok VUndefined
  /\ get_prop (scrubPII merged ScrubConfig.empty) "stats" = Ok VUndefined
  /\ get_prop (scrubPII merged ScrubConfig.empty) "bytesReduced" = Ok VUndefined
  /\ Generate.run_step4 merged
     = Throw (TypeError
                "Cannot read properties of undefined (reading 'itemsFound')").
Proof.
  cbv zeta. split; [ reflexivity | ].
  repeat split; vm_compute; reflexivity.
Qed.

End ScrubEntryPoint.

(** ** Credential tokens *)

Section Credentials.
Import Props.

(** C3 fails on the code.  Under the default configuration the Stripe key
    of the repository's own test matches the Stripe pattern, yet the phone
    pass, which runs first, rewrites its digits and the rest of the key
    stays in clear.  With every toggle off, an API key assignment is
    replaced by the key's value followed by the placeholder, so the
    credential itself stays in the output. *)
Theorem credential_tokens_survive :
  has_match PIIScrubber.PATTERNS.stripeKey stripe_key_sample = true
  /\ PIIScrubber.scrubString default_scrubber stripe_key_sample
     = "sk_test_[REDACTED]abcdefghijklmnopqrstuvwxyz"
  /\ scrubString stripe_key_sample all_off = "[REDACTED]"
  /\ has_match PIIScrubber.PATTERNS.apiKey api_key_sample = true
  /\ scrubString api_key_sample all_off = "abc123: [REDACTED]"
  /\ contains "abc123" (scrubString api_key_sample all_off) = true.
Proof.
  repeat split; vm_compute; reflexivity.
Qed.

End Credentials.

(** ** Property order and assignments *)

Section PropertyOrder.
Import Props.

Lemma lookup_overwrite {V : Type} k (v : V) es k' :
  Obj.lookup k' (Obj.overwrite k v es)
  = match Obj.lookup k es with
    | Some _ => if String.eqb k k' then Some v else Obj.lookup k' es
    | None => Obj.lookup k' es
    end.
Proof.
  induction es as [ | [k0 v0] tl IH ]; simpl; [ reflexivity | ].
  destruct (String.eqb k0 k) eqn:E0; simpl.
  - apply String.eqb_eq in E0. subst k0.
    destruct (String.eqb k k'); reflexivity.
  - rewrite IH. destruct (String.eqb k0 k') eqn:E1.
    + apply String.eqb_eq in E1. subst k0.
      rewrite String.eqb_sym, E0. destruct (Obj.lookup k tl); reflexivity.
    + reflexivity.
Qed.

Lemma lookup_insert_index {V : Type} n k (v : V) es k' :
  Obj.lookup k es = None ->
  Obj.lookup k' (Obj.insert_index n k v es)
  = if String.eqb k k' then Some v else Obj.lookup k' es.
Proof.
  induction es as [ | [k0 v0] tl IH ]; simpl; intros Hnone.
  - reflexivity.
  - destruct (String.eqb k0 k) eqn:E0; [ discriminate | ].
    assert (Hhere : Obj.lookup k' ((k, v) :: (k0, v0) :: tl)
                    = if String.eqb k k' then Some v
                      else if String.eqb k0 k' then Some v0
                           else Obj.lookup k' tl) by reflexivity.
    destruct (Obj.array_index k0) as [n0 | ]; [ destruct (n0 <? n)%N | ];
      try exact Hhere.
    simpl. rewrite (IH Hnone).
    destruct (String.eqb k0 k') eqn:E1; [ | reflexivity ].
    apply String.eqb_eq in E1. subst k0.
    rewrite String.eqb_sym, E0. reflexivity.
Qed.

Lemma lookup_app {V : Type} k' (es es' : list (string * V)) :
  Obj.lookup k' (es ++ es')
  = match Obj.lookup k' es with
    | Some v => Some v
    | None => Obj.lookup k' es'
    end.
Proof.
  induction es as [ | [k0 v0] tl IH ]; simpl; [ reflexivity | ].
  destruct (String.eqb k0 k'); [ reflexivity | exact IH ].
Qed.

(** Reading a key after an assignment. *)
Lemma lookup_define {V : Type} k (v : V) es k' :
  Obj.lookup k' (Obj.define k v es)
  = if String.eqb k k' then Some v else Obj.lookup k' es.
Proof.
  unfold Obj.define. destruct (Obj.lookup k es) as [old | ] eqn:Hk.
  - rewrite lookup_overwrite, Hk. reflexivity.
  - destruct (Obj.array_index k) as [n | ].
    + apply lookup_insert_index. exact Hk.
    + rewrite lookup_app. simpl.
      destruct (String.eqb k k') eqn:E.
      * apply String.eqb_eq in E. subst k'. rewrite Hk. reflexivity.
      * destruct (Obj.lookup k' es); reflexivity.
Qed.

Lemma lookup_absent k (es : list (string * value)) :
  ~ In k (map fst es) -> Obj.lookup k es = None.
Proof.
  induction es as [ | [k0 v0] tl IH ]; simpl; intros Hnot; [ reflexivity | ].
  destruct (String.eqb k0 k) eqn:E.
  - apply String.eqb_eq in E. tauto.
  - apply IH. tauto.
Qed.

Lemma distinct_last keys k : distinct (keys ++ [k]) = true -> ~ In k keys.
Proof.
  induction keys as [ | k0 tl IH ]; simpl; intros H Hin; [ exact Hin | ].
  apply andb_prop in H. destruct H as [Hk0 Htl].
  destruct Hin as [-> | Hin]; [ | exact (IH Htl Hin) ].
  apply negb_true_iff in Hk0.
  assert (Hex : existsb (String.eqb k) (tl ++ [k]) = true).
  { apply existsb_exists. exists k. split.
    - apply in_or_app. right. left. reflexivity.
    - apply String.eqb_refl. }
  congruence.
Qed.

Lemma distinct_prefix keys more :
  distinct (keys ++ more) = true -> distinct keys = true.
Proof.
  induction keys as [ | k0 tl IH ]; simpl; intros H; [ reflexivity | ].
  apply andb_prop in H. destruct H as [Hk0 Htl].
  rewrite (IH Htl), andb_true_r.
  apply negb_true_iff. apply negb_true_iff in Hk0.
  apply not_true_is_false. intros Hex. apply existsb_exists in Hex.
  destruct Hex as [x [Hx Hxe]].
  assert (Hex' : existsb (String.eqb k0) (tl ++ more) = true).
  { apply existsb_exists. exists x. split; [ apply in_or_app; left | ]; assumption. }
  congruence.
Qed.

Lemma forallb_prefix (A : Type) (p : A -> bool) xs ys :
  forallb p (xs ++ ys) = true -> forallb p xs = true.
Proof.
  rewrite forallb_app. intros H. apply andb_prop in H. tauto.
Qed.

Lemma ascending_prefix keys :
  forall lo more,
    ascending_from lo (keys ++ more) = true -> ascending_from lo keys = true.
Proof.
  induction keys as [ | k0 tl IH ]; intros lo more H; [ reflexivity | ].
  cbn [app ascending_from] in *.
  destruct (Obj.array_index k0) as [n0 | ].
  - apply andb_prop in H. destruct H as [Hlo Htl].
    rewrite Hlo. simpl. exact (IH _ _ Htl).
  - apply andb_prop in H. destruct H as [Hni Hd].
    rewrite (forallb_prefix _ _ _ _ Hni). simpl.
    exact (distinct_prefix (k0 :: tl) more Hd).
Qed.

Lemma ascending_last_index keys :
  forall lo k n,
    ascending_from lo (keys ++ [k]) = true -> Obj.array_index k = Some n ->
    Forall (fun k' => exists n', Obj.array_index k' = Some n' /\ (n' < n)%N) keys
    /\ (forall m, lo = Some m -> (m < n)%N).
Proof.
  induction keys as [ | k0 tl IH ]; intros lo k n H Hk;
    cbn [app ascending_from] in H.
  - rewrite Hk in H. split; [ constructor | ].
    intros m ->. apply andb_prop in H. destruct H as [H _].
    apply N.ltb_lt. exact H.
  - destruct (Obj.array_index k0) as [n0 | ] eqn:Hk0.
    + apply andb_prop in H. destruct H as [Hlo Htl].
      destruct (IH _ _ _ Htl Hk) as [Hall Hn0].
      specialize (Hn0 n0 eq_refl).
      split.
      * constructor; [ exists n0; split; [ exact Hk0 | exact Hn0 ] | exact Hall ].
      * intros m ->. apply N.ltb_lt in Hlo. lia.
    + apply andb_prop in H. destruct H as [Hni _].
      rewrite forallb_app in Hni. apply andb_prop in Hni.
      destruct Hni as [_ Hni]. simpl in Hni. unfold not_index in Hni.
      rewrite Hk in Hni. discriminate.
Qed.

Lemma ascending_last_fresh keys :
  forall lo k, ascending_from lo (keys ++ [k]) = true -> ~ In k keys.
Proof.
  induction keys as [ | k0 tl IH ]; intros lo k H Hin; [ exact Hin | ].
  cbn [app ascending_from] in H.
  destruct (Obj.array_index k0) as [n0 | ] eqn:Hk0.
  - apply andb_prop in H. destruct H as [_ Htl].
    destruct Hin as [-> | Hin]; [ | exact (IH _ _ Htl Hin) ].
    destruct (ascending_last_index _ _ _ _ Htl Hk0) as [_ Hlt].
    specialize (Hlt n0 eq_refl). lia.
  - apply andb_prop in H. destruct H as [_ Hd].
    exact (distinct_last (k0 :: tl) k Hd Hin).
Qed.

Lemma insert_index_last n k (v : value) es :
  Forall (fun k' => exists n', Obj.array_index k' = Some n' /\ (n' < n)%N)
         (map fst es) ->
  Obj.insert_index n k v es = es ++ [(k, v)].
Proof.
  induction es as [ | [k0 v0] tl IH ]; simpl; intros H; [ reflexivity | ].
  inversion H as [ | ? ? [n0 [Hk0 Hlt]] Htl ]; subst.
  rewrite Hk0. apply N.ltb_lt in Hlt. rewrite Hlt, (IH Htl). reflexivity.
Qed.

(** Assigning a key that keeps the keys in property order appends it. *)
Lemma define_in_order k (v : value) es :
  property_order (map fst es ++ [k]) = true ->
  Obj.define k v es = es ++ [(k, v)].
Proof.
  unfold property_order. intros H. unfold Obj.define.
  rewrite (lookup_absent _ _ (ascending_last_fresh _ _ _ H)).
  destruct (Obj.array_index k) as [n | ] eqn:Hk; [ | reflexivity ].
  apply insert_index_last.
  exact (proj1 (ascending_last_index _ _ _ _ H Hk)).
Qed.


(** Assigning a key other than [__proto__] that keeps the keys in property
    order appends it. *)
Lemma set_in_order k v reaches o :
  own_key k = true ->
  property_order (map fst (Obj.own o) ++ [k]) = true ->
  Obj.set k v reaches o = Obj.Build (Obj.own o ++ [(k, v)]) (Obj.accessor o).
Proof.
  intros Hk H. unfold Obj.set.
  rewrite (lookup_absent _ _ (ascending_last_fresh _ _ _ H)).
  unfold own_key in Hk. apply negb_true_iff in Hk. rewrite Hk. cbn [andb].
  rewrite (define_in_order _ _ _ H). reflexivity.
Qed.

(** An assignment to [__proto__] on an object that reaches the accessor
    and has no such own property writes no own property. *)
Lemma set_proto v reaches o :
  Obj.lookup "__proto__" (Obj.own o) = None -> Obj.accessor o = true ->
  Obj.set "__proto__" v reaches o
  = Obj.Build (Obj.own o)
              (match v with
               | VNull => false
               | VObj _ => reaches
               | _ => true
               end).
Proof.
  intros Hnone Hacc. unfold Obj.set. rewrite Hnone, Hacc. reflexivity.
Qed.

End PropertyOrder.

(** ** The structure of a scrubbed value *)

Section ScrubStructure.
Import Props.

Variable this : PIIScrubber.t.

Lemma scrubObject_arr items :
  PIIScrubber.scrubObject this (VArr items)
  = VArr (map (PIIScrubber.scrubObject this) items).
Proof. reflexivity. Qed.

Lemma scrubObject_obj es :
  PIIScrubber.scrubObject this (VObj es)
  = VObj (Obj.own (scrub_entries this es Obj.empty)).
Proof.
  unfold PIIScrubber.scrubObject at 1.
  cbn [PIIScrubber.scrubObject_built fst]. do 2 f_equal.
  generalize Obj.empty.
  induction es as [ | [key v] tl IH ]; intros acc; cbn [scrub_entries].
  - reflexivity.
  - apply IH.
Qed.



Lemma scrub_entries_in_order es :
  forall acc,
    property_order
      (map fst (Obj.own acc)
       ++ map (fun e => PIIScrubber.scrubString this (fst e)) es)
    = true ->
    forallb (fun e => own_key (PIIScrubber.scrubString this (fst e))) es
    = true ->
    scrub_entries this es acc
    = Obj.Build
        (Obj.own acc
         ++ map (fun e => (PIIScrubber.scrubString this (fst e),
                           PIIScrubber.scrubObject this (snd e))) es)
        (Obj.accessor acc).
Proof.
  induction es as [ | [key v] tl IH ]; intros acc H Hown;
    cbn [scrub_entries map fst snd].
  - rewrite app_nil_r. destruct acc; reflexivity.
  - cbn [map fst forallb] in H, Hown.
    apply andb_true_iff in Hown. destruct Hown as [Hkey Htl].
    assert (Hstep : property_order
                      (map fst (Obj.own acc)
                       ++ [PIIScrubber.scrubString this key]) = true).
    { apply (ascending_prefix _ None
               (map (fun e => PIIScrubber.scrubString this (fst e)) tl)).
      rewrite <- app_assoc. exact H. }
    rewrite (set_in_order _ _ _ _ Hkey Hstep).
    rewrite IH; cbn [Obj.own Obj.accessor].
    + rewrite <- app_assoc. reflexivity.
    + rewrite map_app, <- app_assoc. exact H.
    + exact Htl.
Qed.



End ScrubStructure.

(** ** [scrubObject] on the store *)

Section StoreScrub.
Import Props.















End StoreScrub.

Section StoreReads.
Import Props.







End StoreReads.

Section StoreAssign.
Import Props.

(** Assignment of an own property, on entries that correspond. *)
Section Related.
Variables (A B : Type) (R : A -> B -> Prop).






End Related.


End StoreAssign.

Section StoreScrubReads.
Import Props.
Variable this : PIIScrubber.t.

Lemma scrubObject_built_obj es :
  PIIScrubber.scrubObject_built this (VObj es)
  = (VObj (Obj.own (scrub_entries this es Obj.empty)),
     Obj.accessor (scrub_entries this es Obj.empty)).
Proof.
  cbn [PIIScrubber.scrubObject_built]. generalize Obj.empty.
  induction es as [ | [key v] tl IH ]; intros acc; cbn [scrub_entries].
  - reflexivity.
  - apply IH.
Qed.








End StoreScrubReads.

(** ** The structure of scrubbed data *)

Section ScrubbedStructure.
Import Props.
Variable this : PIIScrubber.t.


End ScrubbedStructure.



(** An entry whose key is [__proto__] is not in the result: on a parsed
    object with the own keys [__proto__] and [k], the assignment of the
    first runs the setter of [Object.prototype], which ignores a string. *)
Lemma scrubObject_leaves_out_proto_key :
  PIIScrubber.scrubObject Props.default_scrubber
    (VObj [("__proto__", VStr "a@b.co"); ("k", VNum 1)])
  = VObj [("k", VNum 1)].
Proof. vm_compute. reflexivity. Qed.

(** ** Array-index keys are canonical *)

Section ArrayIndex.
Import Props.

Lemma digits_val_bounds s :
  forall acc n,
    Obj.digits_val s acc = Some n ->
    (acc * 10 ^ N.of_nat (String.length s) <= n
     < (acc + 1) * 10 ^ N.of_nat (String.length s))%N.
Proof.
  induction s as [ | c tl IH ]; intros acc n H; cbn [Obj.digits_val] in H.
  - inversion H; subst. simpl. lia.
  - destruct ((48 <=? RegExp.code c) && (RegExp.code c <=? 57))%N eqn:Hd;
      [ | discriminate ].
    apply andb_prop in Hd. destruct Hd as [Hlo Hhi].
    apply N.leb_le in Hlo. apply N.leb_le in Hhi.
    specialize (IH _ _ H).
    cbn [String.length]. rewrite Nat2N.inj_succ, N.pow_succ_r'.
    set (P := (10 ^ N.of_nat (String.length tl))%N) in *.
    set (d := (RegExp.code c - 48)%N) in *.
    assert (Hd : (d <= 9)%N) by (unfold d; lia).
    assert (H1 : (acc * (10 * P) <= (10 * acc + d) * P)%N) by nia.
    assert (H2 : ((10 * acc + d + 1) * P <= (acc + 1) * (10 * P))%N) by nia.
    lia.
Qed.

Lemma code_inj c1 c2 : RegExp.code c1 = RegExp.code c2 -> c1 = c2.
Proof.
  unfold RegExp.code. intros H.
  rewrite <- (ascii_N_embedding c1), <- (ascii_N_embedding c2), H.
  reflexivity.
Qed.

Lemma digits_val_inj s1 :
  forall s2 a1 a2 n,
    String.length s1 = String.length s2 ->
    Obj.digits_val s1 a1 = Some n -> Obj.digits_val s2 a2 = Some n ->
    a1 = a2 /\ s1 = s2.
Proof.
  induction s1 as [ | c1 t1 IH ]; intros [ | c2 t2 ] a1 a2 n Hlen H1 H2;
    try discriminate.
  - simpl in *. split; congruence.
  - cbn [Obj.digits_val] in H1, H2.
    destruct ((48 <=? RegExp.code c1) && (RegExp.code c1 <=? 57))%N eqn:Hd1;
      [ | discriminate ].
    destruct ((48 <=? RegExp.code c2) && (RegExp.code c2 <=? 57))%N eqn:Hd2;
      [ | discriminate ].
    apply andb_prop in Hd1. destruct Hd1 as [Hlo1 Hhi1].
    apply andb_prop in Hd2. destruct Hd2 as [Hlo2 Hhi2].
    apply N.leb_le in Hlo1, Hhi1, Hlo2, Hhi2.
    simpl in Hlen. injection Hlen as Hlen.
    destruct (IH _ _ _ _ Hlen H1 H2) as [Hacc Htl].
    assert (Hc : RegExp.code c1 = RegExp.code c2) by lia.
    apply code_inj in Hc. subst. split; [ lia | reflexivity ].
Qed.

Lemma nonzero_digits_range c tl n :
  Obj.digits_val (String c tl) 0%N = Some n ->
  RegExp.code c <> 48%N ->
  (10 ^ N.of_nat (String.length tl) <= n
   < 10 ^ N.of_nat (S (String.length tl)))%N.
Proof.
  intros H Hnz. cbn [Obj.digits_val] in H.
  destruct ((48 <=? RegExp.code c) && (RegExp.code c <=? 57))%N eqn:Hd;
    [ | discriminate ].
  apply andb_prop in Hd. destruct Hd as [Hlo Hhi].
  apply N.leb_le in Hlo. apply N.leb_le in Hhi.
  apply digits_val_bounds in H.
  rewrite Nat2N.inj_succ, N.pow_succ_r'.
  set (P := (10 ^ N.of_nat (String.length tl))%N) in *.
  set (d := (RegExp.code c - 48)%N) in *.
  assert (Hd : (1 <= d <= 9)%N) by (unfold d; lia).
  replace (10 * 0 + d)%N with d in H by lia.
  assert (H1 : (1 * P <= d * P)%N) by (apply N.mul_le_mono_r; lia).
  assert (H2 : ((d + 1) * P <= 10 * P)%N) by (apply N.mul_le_mono_r; lia).
  lia.
Qed.

(** What [array_index] accepts: [0], or digits that do not start with 0. *)
Lemma array_index_shape k n :
  Obj.array_index k = Some n ->
  (k = "0" /\ n = 0%N)
  \/ (exists c tl, k = String c tl /\ RegExp.code c <> 48%N
                   /\ Obj.digits_val k 0%N = Some n).
Proof.
  unfold Obj.array_index. destruct k as [ | c tl ]; [ discriminate | ].
  destruct (Ascii.eqb c "0") eqn:Hc.
  - apply Ascii.eqb_eq in Hc. subst c.
    destruct tl; intros H; [ left; split; congruence | discriminate ].
  - intros H. right. exists c, tl.
    assert (Hne : RegExp.code c <> 48%N).
    { intros Heq. apply (code_inj c "0") in Heq. subst c. discriminate. }
    split; [ reflexivity | ]. split; [ exact Hne | ].
    assert (H' : (if String.length (String c tl) <=? 10
                  then match Obj.digits_val (String c tl) 0%N with
                       | Some n0 => if (n0 <? 4294967295)%N then Some n0 else None
                       | None => None
                       end
                  else None) = Some n).
    { destruct c as [[] [] [] [] [] [] [] []]; try exact H; discriminate. }
    destruct (String.length (String c tl) <=? 10); [ | discriminate ].
    destruct (Obj.digits_val (String c tl) 0%N) as [n0 | ]; [ | discriminate ].
    destruct (n0 <? 4294967295)%N; congruence.
Qed.

Lemma pow10_lt_length a b n :
  (10 ^ N.of_nat a <= n)%N -> (n < 10 ^ N.of_nat (S b))%N -> a <= b.
Proof.
  intros Hlo Hhi.
  destruct (le_lt_dec a b) as [Hle | Hgt]; [ exact Hle | exfalso ].
  assert (Hpow : (10 ^ N.of_nat (S b) <= 10 ^ N.of_nat a)%N).
  { apply N.pow_le_mono_r; lia. }
  lia.
Qed.

Lemma array_index_inj k1 k2 n :
  Obj.array_index k1 = Some n -> Obj.array_index k2 = Some n -> k1 = k2.
Proof.
  intros H1 H2.
  apply array_index_shape in H1. apply array_index_shape in H2.
  destruct H1 as [[-> ->] | [c1 [t1 [-> [Hc1 Hv1]]]]];
    destruct H2 as [[-> Hn] | [c2 [t2 [-> [Hc2 Hv2]]]]].
  - reflexivity.
  - pose proof (nonzero_digits_range _ _ _ Hv2 Hc2) as Hr.
    assert (1 <= 10 ^ N.of_nat (String.length t2))%N
      by (apply N.lt_pred_le, N.neq_0_lt_0, N.pow_nonzero; lia).
    lia.
  - subst n. pose proof (nonzero_digits_range _ _ _ Hv1 Hc1) as Hr.
    assert (1 <= 10 ^ N.of_nat (String.length t1))%N
      by (apply N.lt_pred_le, N.neq_0_lt_0, N.pow_nonzero; lia).
    lia.
  - pose proof (nonzero_digits_range _ _ _ Hv1 Hc1) as [Hlo1 Hhi1].
    pose proof (nonzero_digits_range _ _ _ Hv2 Hc2) as [Hlo2 Hhi2].
    pose proof (pow10_lt_length _ _ _ Hlo1 Hhi2).
    pose proof (pow10_lt_length _ _ _ Hlo2 Hhi1).
    assert (Hlen : String.length (String c1 t1) = String.length (String c2 t2))
      by (simpl; lia).
    exact (proj2 (digits_val_inj _ _ _ _ _ Hlen Hv1 Hv2)).
Qed.

End ArrayIndex.

(** ** Objects built by assignment are in property order *)

Section BuiltObjects.
Import Props.

Lemma overwrite_keys {V : Type} k (v : V) es : map fst (Obj.overwrite k v es) = map fst es.
Proof.
  induction es as [ | [k0 v0] tl IH ]; simpl; [ reflexivity | ].
  destruct (String.eqb k0 k); simpl; [ reflexivity | ].
  rewrite IH. reflexivity.
Qed.

Lemma lookup_none_fresh {V : Type} k (es : list (string * V)) :
  Obj.lookup k es = None -> ~ In k (map fst es).
Proof.
  induction es as [ | [k0 v0] tl IH ]; simpl; intros H Hin; [ exact Hin | ].
  destruct (String.eqb k0 k) eqn:E; [ discriminate | ].
  destruct Hin as [-> | Hin]; [ | exact (IH H Hin) ].
  rewrite String.eqb_refl in E. discriminate.
Qed.

Lemma existsb_eqb_false k keys :
  ~ In k keys -> existsb (String.eqb k) keys = false.
Proof.
  intros H. apply not_true_is_false. intros Hex.
  apply existsb_exists in Hex. destruct Hex as [x [Hx Hxe]].
  apply String.eqb_eq in Hxe. subst x. exact (H Hx).
Qed.

Lemma existsb_eqb_in k keys :
  existsb (String.eqb k) keys = false -> ~ In k keys.
Proof.
  intros H Hin.
  assert (Hex : existsb (String.eqb k) keys = true).
  { apply existsb_exists. exists k. split; [ exact Hin | apply String.eqb_refl ]. }
  congruence.
Qed.

Lemma distinct_snoc keys k :
  distinct keys = true -> ~ In k keys -> distinct (keys ++ [k]) = true.
Proof.
  induction keys as [ | k0 tl IH ]; simpl; intros Hd Hk; [ reflexivity | ].
  apply andb_prop in Hd. destruct Hd as [Hk0 Htl].
  apply negb_true_iff in Hk0. apply existsb_eqb_in in Hk0.
  rewrite IH by tauto. rewrite andb_true_r. apply negb_true_iff.
  apply existsb_eqb_false. intros Hin. apply in_app_or in Hin.
  destruct Hin as [Hin | [-> | []]]; tauto.
Qed.

Lemma ascending_snoc_plain keys :
  forall lo k,
    ascending_from lo keys = true -> Obj.array_index k = None ->
    ~ In k keys -> ascending_from lo (keys ++ [k]) = true.
Proof.
  induction keys as [ | k0 tl IH ]; intros lo k H Hk Hfresh;
    cbn [app ascending_from] in *.
  - rewrite Hk. reflexivity.
  - destruct (Obj.array_index k0) as [n0 | ].
    + apply andb_prop in H. destruct H as [Hlo Htl].
      rewrite Hlo. simpl. apply IH; [ exact Htl | exact Hk | ].
      simpl in Hfresh. tauto.
    + apply andb_prop in H. destruct H as [Hni Hd].
      rewrite forallb_app, Hni. simpl. unfold not_index at 1. rewrite Hk. simpl.
      exact (distinct_snoc (k0 :: tl) k Hd Hfresh).
Qed.

Lemma ascending_weaken keys lo :
  ascending_from lo keys = true -> ascending_from None keys = true.
Proof.
  destruct keys as [ | k0 tl ]; [ reflexivity | ].
  cbn [ascending_from]. destruct (Obj.array_index k0); [ | tauto ].
  intros H. apply andb_prop in H. tauto.
Qed.

Lemma ascending_insert n k (v : value) es :
  forall lo,
    ascending_from lo (map fst es) = true ->
    Obj.array_index k = Some n -> ~ In k (map fst es) ->
    match lo with Some m => (m <? n)%N | None => true end = true ->
    ascending_from lo (map fst (Obj.insert_index n k v es)) = true.
Proof.
  induction es as [ | [k0 v0] tl IH ]; intros lo H Hk Hfresh Hlo;
    cbn [Obj.insert_index map fst ascending_from] in *.
  - rewrite Hk, Hlo. reflexivity.
  - destruct (Obj.array_index k0) as [n0 | ] eqn:Hk0.
    + apply andb_prop in H. destruct H as [Hlo0 Htl].
      destruct (n0 <? n)%N eqn:Hlt; cbn [map fst ascending_from].
      * rewrite Hk0, Hlo0. simpl. apply IH; try assumption.
        intros Hin. apply Hfresh. right. exact Hin.
      * rewrite Hk, Hlo, Hk0. simpl. rewrite Htl, andb_true_r.
        apply N.ltb_lt. apply N.ltb_ge in Hlt.
        assert (n <> n0).
        { intros ->. apply Hfresh. left.
          exact (array_index_inj _ _ _ Hk0 Hk). }
        lia.
    + cbn [map fst ascending_from]. rewrite Hk, Hlo, Hk0. simpl. exact H.
Qed.

(** An assignment keeps the keys in property order. *)
Lemma define_keeps_order k (v : value) es :
  property_order (map fst es) = true ->
  property_order (map fst (Obj.define k v es)) = true.
Proof.
  unfold property_order, Obj.define. intros H.
  destruct (Obj.lookup k es) as [old | ] eqn:Hk.
  - rewrite overwrite_keys. exact H.
  - apply lookup_none_fresh in Hk.
    destruct (Obj.array_index k) as [n | ] eqn:Hidx.
    + apply ascending_insert; auto.
    + rewrite map_app. simpl. apply ascending_snoc_plain; assumption.
Qed.

Lemma set_keeps_order k v reaches o :
  property_order (map fst (Obj.own o)) = true ->
  property_order (map fst (Obj.own (Obj.set k v reaches o))) = true.
Proof.
  intros H. unfold Obj.set.
  destruct (Obj.lookup k (Obj.own o));
    [ | destruct (String.eqb k "__proto__" && Obj.accessor o) ];
    cbn [Obj.own]; try exact H; apply define_keeps_order; exact H.
Qed.

(** An object that reaches the accessor has no own property
    [__proto__]: such a property is written only once the accessor is no
    longer reached. *)
Lemma set_keeps_accessor_free k v reaches o :
  (Obj.accessor o = true -> Obj.lookup "__proto__" (Obj.own o) = None) ->
  Obj.accessor (Obj.set k v reaches o) = true ->
  Obj.lookup "__proto__" (Obj.own (Obj.set k v reaches o)) = None.
Proof.
  intros Hinv. unfold Obj.set.
  destruct (Obj.lookup k (Obj.own o)) as [old | ] eqn:Hk;
    cbn [Obj.own Obj.accessor].
  - intros Hacc. rewrite lookup_define.
    destruct (String.eqb k "__proto__") eqn:E; [ | exact (Hinv Hacc) ].
    apply String.eqb_eq in E. subst k. rewrite (Hinv Hacc) in Hk.
    discriminate.
  - destruct (String.eqb k "__proto__") eqn:E.
    + apply String.eqb_eq in E. subst k.
      destruct (Obj.accessor o); cbn [andb Obj.own Obj.accessor];
        [ intros _; exact Hk | discriminate ].
    + cbn [andb Obj.own Obj.accessor]. intros Hacc.
      rewrite lookup_define, E. exact (Hinv Hacc).
Qed.

Lemma scrub_entries_accessor_free this es :
  forall acc,
    (Obj.accessor acc = true ->
     Obj.lookup "__proto__" (Obj.own acc) = None) ->
    Obj.accessor (scrub_entries this es acc) = true ->
    Obj.lookup "__proto__" (Obj.own (scrub_entries this es acc)) = None.
Proof.
  induction es as [ | [key v] tl IH ]; intros acc Hinv; cbn [scrub_entries].
  - exact Hinv.
  - apply IH. apply set_keeps_accessor_free. exact Hinv.
Qed.

(** So an object that [scrubObject] returns and through which the accessor
    is reached has no own property [__proto__], as the lookup through it
    supposes. *)
Lemma scrubObject_built_accessor_free this es out :
  PIIScrubber.scrubObject_built this (VObj es) = (VObj out, true) ->
  Obj.lookup "__proto__" out = None.
Proof.
  rewrite scrubObject_built_obj. intros H.
  injection H as Hout Hacc. rewrite <- Hout.
  apply scrub_entries_accessor_free; [ reflexivity | exact Hacc ].
Qed.

(** The sample assigned to a key is never null, so an object of a sample
    always reaches the accessor. *)
Lemma set_sample_keeps_accessor k v o :
  v <> VNull -> Obj.accessor o = true ->
  Obj.accessor (Obj.set k v true o) = true.
Proof.
  intros Hv Hacc. unfold Obj.set.
  destruct (Obj.lookup k (Obj.own o));
    [ | destruct (String.eqb k "__proto__" && Obj.accessor o) ];
    cbn [Obj.accessor]; try exact Hacc.
  destruct v; try reflexivity. congruence.
Qed.

Lemma scrub_entries_ordered this es :
  forall acc,
    property_order (map fst (Obj.own acc)) = true ->
    Forall (fun e => well_ordered (snd e) = true) (Obj.own acc) ->
    Forall (fun e => well_ordered (PIIScrubber.scrubObject this (snd e)) = true)
           es ->
    property_order (map fst (Obj.own (scrub_entries this es acc))) = true
    /\ Forall (fun e => well_ordered (snd e) = true)
              (Obj.own (scrub_entries this es acc)).
Proof.
  induction es as [ | [key v] tl IH ]; intros acc Hord Hvals Hes;
    cbn [scrub_entries].
  - split; assumption.
  - inversion Hes as [ | ? ? Hv Htl ]; subst. apply IH.
    + apply set_keeps_order. exact Hord.
    + apply (set_values (fun x => well_ordered x = true)); assumption.
    + exact Htl.
Qed.

(** Every object of a scrubbed value has its keys in property order. *)
Lemma scrubObject_well_ordered this obj :
  well_ordered (PIIScrubber.scrubObject this obj) = true.
Proof.
  induction obj as [ | | b | n | s | items IH | entries IH ] using value_ind;
    try reflexivity.
  - rewrite scrubObject_arr. cbn [well_ordered].
    rewrite forallb_forall. intros x Hx. apply in_map_iff in Hx.
    destruct Hx as [y [<- Hy]]. rewrite Forall_forall in IH. exact (IH y Hy).
  - rewrite scrubObject_obj. cbn [well_ordered].
    destruct (scrub_entries_ordered this entries Obj.empty) as [Hk Hv];
      [ reflexivity | constructor | exact IH | ].
    rewrite Hk. simpl. rewrite forallb_forall. rewrite Forall_forall in Hv.
    exact Hv.
Qed.

End BuiltObjects.

(** ** A second pass *)

Section SecondPass.
Import Props.

Lemma replace_from_no_match re tmpl fuel :
  forall before p s,
    RegExp.search_from re p s = false ->
    RegExp.replace_from re tmpl fuel before p s = s.
Proof.
  induction fuel as [ | fuel IH ]; intros before p s H; [ reflexivity | ].
  cbn [RegExp.replace_from].
  destruct s as [ | c tl ]; cbn [RegExp.search_from] in H;
    destruct (RegExp.exec_at re p _) as [[len cs] | ]; try discriminate.
  - reflexivity.
  - rewrite IH by exact H. reflexivity.
Qed.

(** Where a pattern does not match, [replace] returns the string. *)
Lemma replace_no_match s re tmpl :
  has_match re s = false -> RegExp.replace s re tmpl = s.
Proof. apply replace_from_no_match. Qed.

Lemma fold_replace_no_match tmpl patterns s :
  forallb (fun re => negb (has_match re s)) patterns = true ->
  fold_left (fun scrubbed pattern => RegExp.replace scrubbed pattern tmpl)
            patterns s = s.
Proof.
  induction patterns as [ | re tl IH ]; simpl; intros H; [ reflexivity | ].
  apply andb_prop in H. destruct H as [Hre Htl].
  apply negb_true_iff in Hre. rewrite (replace_no_match _ _ _ Hre).
  exact (IH Htl).
Qed.

(** A string in which no applied pattern matches is left as it is. *)
Lemma scrubString_match_free this s :
  match_free this s = true -> PIIScrubber.scrubString this s = s.
Proof.
  unfold match_free, applied_patterns, PIIScrubber.scrubString.
  rewrite !forallb_app. intros H.
  repeat (apply andb_prop in H; destruct H as [? H]).
  repeat match goal with
         | Hc : forallb _ (if ?b then _ else _) = true |- _ =>
             destruct b; simpl in Hc
         | Hc : forallb _ (_ :: _) = true |- _ => simpl in Hc
         | Hc : _ && _ = true |- _ => apply andb_prop in Hc; destruct Hc
         | Hc : negb _ = true |- _ => apply negb_true_iff in Hc
         end;
    repeat match goal with
           | Hc : has_match ?re s = false |- _ =>
               rewrite (replace_no_match s re _ Hc); clear Hc
           end;
    apply fold_replace_no_match; assumption.
Qed.

Lemma scrubObject_fixed this obj :
  well_ordered obj = true -> proto_free obj = true ->
  all_match_free this obj = true ->
  PIIScrubber.scrubObject this obj = obj.
Proof.
  induction obj as [ | | b | n | s | items IH | entries IH ] using value_ind;
    intros Hord Hproto Hfree; try reflexivity.
  - cbn [all_match_free] in Hfree. unfold PIIScrubber.scrubObject.
    cbn [PIIScrubber.scrubObject_built fst].
    rewrite (scrubString_match_free _ _ Hfree). reflexivity.
  - rewrite scrubObject_arr. cbn [well_ordered proto_free all_match_free] in *.
    f_equal. rewrite <- (map_id items) at 2.
    apply map_ext_in. intros x Hx.
    rewrite Forall_forall in IH.
    rewrite forallb_forall in Hord, Hproto, Hfree.
    apply IH; auto.
  - rewrite scrubObject_obj.
    cbn [well_ordered proto_free all_match_free] in *.
    apply andb_prop in Hord. destruct Hord as [Hkeys Hvals].
    rewrite forallb_forall in Hvals, Hproto, Hfree.
    rewrite Forall_forall in IH.
    assert (Hk : map (fun e => PIIScrubber.scrubString this (fst e)) entries
                 = map fst entries).
    { apply map_ext_in. intros e He. specialize (Hfree e He).
      apply andb_prop in Hfree. apply scrubString_match_free. tauto. }
    rewrite scrub_entries_in_order.
    + cbn [Obj.own Obj.empty app]. f_equal.
      rewrite <- (map_id entries) at 2.
      apply map_ext_in. intros [k v] He. cbn [fst snd].
      specialize (Hfree _ He). apply andb_prop in Hfree.
      specialize (Hproto _ He). apply andb_prop in Hproto.
      cbn [fst snd] in Hfree, Hproto.
      rewrite (scrubString_match_free _ _ (proj1 Hfree)).
      pose proof (IH _ He (Hvals _ He) (proj2 Hproto) (proj2 Hfree)) as Hv.
      cbn [snd] in Hv. rewrite Hv. reflexivity.
    + cbn [Obj.own Obj.empty map app]. rewrite Hk. exact Hkeys.
    + apply forallb_forall. intros e He.
      specialize (Hfree e He). apply andb_prop in Hfree.
      specialize (Hproto e He). apply andb_prop in Hproto.
      rewrite (scrubString_match_free _ _ (proj1 Hfree)). tauto.
Qed.

(** C4, amended.  A second pass under the same configuration changes
    nothing whenever, in the scrubbed data, no applied pattern matches in
    any string leaf or key and no object has a key [__proto__]. *)
Theorem scrub_twice_same_when_match_free (this : PIIScrubber.t) (v : value) :
  all_match_free this (PIIScrubber.scrubObject this v) = true ->
  proto_free (PIIScrubber.scrubObject this v) = true ->
  PIIScrubber.scrubObject this (PIIScrubber.scrubObject this v)
  = PIIScrubber.scrubObject this v.
Proof.
  intros Hfree Hproto. apply scrubObject_fixed; [ | exact Hproto | exact Hfree ].
  apply scrubObject_well_ordered.
Qed.

End SecondPass.

(** C4 as stated fails: the phone pass leaves an address in front of the
    placeholder, which a second pass redacts. *)
Lemma scrub_twice_differs :
  scrubPII (VStr Props.email_then_digits) ScrubConfig.empty
  = VStr "a@b.cd[REDACTED]"
  /\ scrubPII (scrubPII (VStr Props.email_then_digits) ScrubConfig.empty)
             ScrubConfig.empty
     = VStr "[REDACTED][REDACTED]"
  /\ scrubPII (scrubPII (VStr Props.email_then_digits) ScrubConfig.empty)
             ScrubConfig.empty
     <> scrubPII (VStr Props.email_then_digits) ScrubConfig.empty.
Proof.
  repeat split; try (vm_compute; reflexivity).
  vm_compute. discriminate.
Qed.

Lemma scrub_twice_same_witness :
  let v := VObj [("email", VStr "user@example.com");
                 ("note", VStr "call 555-123-4567")] in
  Props.all_match_free Props.default_scrubber
    (PIIScrubber.scrubObject Props.default_scrubber v) = true
  /\ Props.proto_free (PIIScrubber.scrubObject Props.default_scrubber v) = true
  /\ PIIScrubber.scrubObject Props.default_scrubber
       (PIIScrubber.scrubObject Props.default_scrubber v)
     = PIIScrubber.scrubObject Props.default_scrubber v.
Proof.
  cbv zeta. split; [ vm_compute; reflexivity | ].
  split; [ vm_compute; reflexivity | ].
  apply (scrub_twice_same_when_match_free Props.default_scrubber).
  - vm_compute. reflexivity.
  - vm_compute. reflexivity.
Defined.

(** The second condition is needed.  With the placeholder [__proto__], on
    a parsed object with the keys [__proto__], holding null, and
    [a@b.co], the first assignment sets the prototype of the new object
    to null, and the second, for which no accessor is reached any more,
    writes the own property [__proto__]; no pattern matches in the
    result, and a second pass, on a new object, leaves the entry out. *)
Lemma own_proto_key_is_lost_in_a_second_pass :
  let this :=
    PIIScrubber.constructor
      (ScrubConfig.Make None None None None None None (Some "__proto__")) in
  let v := VObj [("__proto__", VNull); ("a@b.co", VNum 1)] in
  PIIScrubber.scrubObject this v = VObj [("__proto__", VNum 1)]
  /\ Props.all_match_free this (PIIScrubber.scrubObject this v) = true
  /\ Props.proto_free (PIIScrubber.scrubObject this v) = false
  /\ PIIScrubber.scrubObject this (PIIScrubber.scrubObject this v) = VObj [].
Proof.
  repeat split; vm_compute; reflexivity.
Qed.

(** C1 as stated fails.  Under the default configuration the phone pass,
    which runs after the e-mail pass, turns the ten digits into the
    placeholder; the address in front of them now ends at a word boundary, so
    the output contains a match of the e-mail pattern.  In the second string
    the address [a@b.cd] is found by the e-mail pattern (the statistic is 1),
    and the output still contains it. *)
Lemma output_still_matches_email :
  Props.has_match PIIScrubber.PATTERNS.email
    (scrubString Props.email_then_digits ScrubConfig.empty) = true
  /\ scrubString Props.email_then_digits ScrubConfig.empty = "a@b.cd[REDACTED]"
  /\ RegExp.match_all Props.address_twice PIIScrubber.PATTERNS.email = ["a@b.cd"]
  /\ PIIScrubber.emailsFound
       (PIIScrubber.getScrubStats
          Props.address_twice
          (scrubString Props.address_twice ScrubConfig.empty)) = 1
  /\ scrubString Props.address_twice ScrubConfig.empty
     = "[REDACTED] a@b.cd[REDACTED]"
  /\ Props.contains "a@b.cd" (scrubString Props.address_twice ScrubConfig.empty)
     = true.
Proof.
  repeat split; vm_compute; reflexivity.
Qed.

(** ** The matcher finds what the patterns match *)

Section Matcher.
Import RegExp Matching.

Lemma append_nil_r s : s +++ "" = s.
Proof. induction s as [ | c tl IH ]; simpl; congruence. Qed.

Lemma append_assoc a b c : (a +++ b) +++ c = a +++ (b +++ c).
Proof. induction a as [ | x tl IH ]; simpl; congruence. Qed.

Lemma append_length a b :
  String.length (a +++ b) = String.length a + String.length b.
Proof. induction a as [ | x tl IH ]; simpl; congruence. Qed.

Lemma last_of_cons p c tl : last_of p (String c tl) = last_of (Some c) tl.
Proof. destruct tl; reflexivity. Qed.

Lemma last_of_append a : forall p b,
  last_of p (a +++ b) = last_of (last_of p a) b.
Proof.
  induction a as [ | x tl IH ]; intros p b.
  - reflexivity.
  - change (String x tl +++ b) with (String x (tl +++ b)).
    rewrite !last_of_cons. apply IH.
Qed.

Lemma append_same_length w s :
  String.length s = String.length (w +++ s) -> w = "".
Proof.
  rewrite append_length. destruct w; simpl; [ reflexivity | lia ].
Qed.

Lemma max_zero_or_not (mx : option nat) : mx = Some 0 \/ mx <> Some 0.
Proof.
  destruct mx as [[ | n] | ];
    [ left; reflexivity | right; discriminate | right; discriminate ].
Qed.

Lemma repeat_matcher_stop step gs fuel mn mx (k : cont) x :
  mx = Some 0 \/ fuel = 0 ->
  repeat_matcher step gs fuel mn mx k x = k x.
Proof.
  intros [-> | ->]; [ destruct fuel; reflexivity | ].
  destruct mx as [[ | n] | ]; reflexivity.
Qed.

Lemma repeat_matcher_iterate step gs fuel mn mx (k : cont) x :
  mx <> Some 0 ->
  repeat_matcher step gs (S fuel) mn mx k x
  = let d : cont := fun y =>
        if (mn =? 0) && (String.length (rest y) =? String.length (rest x))
        then None
        else repeat_matcher step gs fuel (Nat.pred mn) (pred_max mx) k y in
    if mn =? 0
    then match step d (clear_caps gs x) with
         | Some z => Some z
         | None => k x
         end
    else step d (clear_caps gs x).
Proof.
  intros Hmx. destruct mx as [[ | n] | ]; [ congruence | | ]; reflexivity.
Qed.

Section Quantifier.

Variable L : option ascii -> string -> string -> Prop.
Variable step : cont -> cont.
Variable gs : list nat.

Hypothesis step_sound :
  forall (k : cont) st res,
    step k st = Some res ->
    exists w after cs,
      rest st = w +++ after /\ L (prev st) w after
      /\ k (MState (last_of (prev st) w) after cs) = Some res.

Lemma repeat_matcher_sound fuel :
  forall mn mx (k : cont) x res,
    mn <= fuel ->
    repeat_matcher step gs fuel mn mx k x = Some res ->
    exists w after cs,
      rest x = w +++ after /\ Reps L mn mx (prev x) w after
      /\ k (MState (last_of (prev x) w) after cs) = Some res.
Proof.
  assert (Hstop : forall mn mx (k : cont) x res,
             mx = Some 0 \/ mn = 0 -> k x = Some res ->
             exists w after cs,
               rest x = w +++ after /\ Reps L mn mx (prev x) w after
               /\ k (MState (last_of (prev x) w) after cs) = Some res).
  { intros mn mx k [p s cs] res Hdone Hk. exists "", s, cs.
    split; [ reflexivity | ]. split; [ constructor; exact Hdone | exact Hk ]. }
  induction fuel as [ | fuel IH ]; intros mn mx k x res Hfuel Hrun.
  - rewrite repeat_matcher_stop in Hrun by (right; reflexivity).
    apply Hstop; [ right; lia | exact Hrun ].
  - destruct (max_zero_or_not mx) as [Hz | Hnz].
    + rewrite repeat_matcher_stop in Hrun by (left; exact Hz).
      apply Hstop; [ left; exact Hz | exact Hrun ].
    + rewrite repeat_matcher_iterate in Hrun by exact Hnz. cbv zeta in Hrun.
      set (d := fun y : mstate => _) in Hrun.
      assert (Hiter : forall res',
                 step d (clear_caps gs x) = Some res' ->
                 exists w after cs,
                   rest x = w +++ after /\ Reps L mn mx (prev x) w after
                   /\ k (MState (last_of (prev x) w) after cs) = Some res').
      { intros res' Hs. apply step_sound in Hs.
        destruct Hs as [w1 [a1 [cs1 [Hrest [HL Hd]]]]].
        unfold d in Hd. cbn [clear_caps rest prev] in Hrest, HL, Hd.
        destruct ((mn =? 0) && (String.length a1 =? String.length (rest x)))
          eqn:Hempty; [ discriminate | ].
        apply IH in Hd; [ | lia ].
        destruct Hd as [w2 [a2 [cs2 [Hrest2 [HR Hk]]]]].
        cbn [rest prev] in Hrest2, HR, Hk.
        exists (w1 +++ w2), a2, cs2. subst a1.
        split; [ rewrite append_assoc; exact Hrest | ].
        split; [ | rewrite last_of_append; exact Hk ].
        apply reps_step; try assumption.
        intros Hmn Hw1. subst mn w1. cbn [append] in Hrest.
        rewrite Hrest, !Nat.eqb_refl in Hempty. discriminate. }
      destruct (mn =? 0) eqn:Hmn.
      * destruct (step d (clear_caps gs x)) as [z | ] eqn:Hs.
        -- inversion Hrun; subst z. apply Hiter. reflexivity.
        -- apply Nat.eqb_eq in Hmn. apply Hstop; [ right | ]; assumption.
      * apply Hiter. exact Hrun.
Qed.

Hypothesis step_complete :
  forall (k : cont) st w after,
    rest st = w +++ after -> L (prev st) w after ->
    (forall cs, k (MState (last_of (prev st) w) after cs) <> None) ->
    step k st <> None.

Lemma repeat_matcher_complete mn mx p w after :
  Reps L mn mx p w after ->
  forall fuel (k : cont) x,
    prev x = p -> rest x = w +++ after ->
    mn + String.length w <= fuel ->
    (forall cs, k (MState (last_of p w) after cs) <> None) ->
    repeat_matcher step gs fuel mn mx k x <> None.
Proof.
  induction 1 as [ mn mx p after Hdone
                 | mn mx p w1 w2 after Hmx HL Hne HR IH ];
    intros fuel k x Hp Hrest Hfuel Hk.
  - assert (Hkx : k x <> None).
    { destruct x as [p' s cs]. cbn [prev rest append] in *. subst. apply Hk. }
    destruct fuel as [ | fuel ].
    + rewrite repeat_matcher_stop by (right; reflexivity). exact Hkx.
    + destruct (max_zero_or_not mx) as [Hz | Hnz].
      * rewrite repeat_matcher_stop by (left; exact Hz). exact Hkx.
      * rewrite repeat_matcher_iterate by exact Hnz. cbv zeta.
        destruct Hdone as [Hdone | Hdone]; [ congruence | subst mn ].
        cbn [Nat.eqb]. destruct (step _ _); [ discriminate | exact Hkx ].
  - rewrite append_length in Hfuel.
    destruct fuel as [ | fuel ].
    + assert (mn = 0) by lia. destruct w1; [ tauto | simpl in Hfuel; lia ].
    + rewrite repeat_matcher_iterate by exact Hmx. cbv zeta.
      set (d := fun y : mstate => _).
      assert (Hstep : step d (clear_caps gs x) <> None).
      { apply (step_complete _ _ w1 (w2 +++ after)).
        - cbn [clear_caps rest]. rewrite Hrest. apply append_assoc.
        - cbn [clear_caps prev]. rewrite Hp. exact HL.
        - intros cs. unfold d. cbn [clear_caps prev rest]. rewrite Hp.
          destruct ((mn =? 0)
                    && (String.length (w2 +++ after) =? String.length (rest x)))
            eqn:Hempty.
          + apply andb_prop in Hempty. destruct Hempty as [Hmn Hlen].
            apply Nat.eqb_eq in Hmn, Hlen.
            rewrite Hrest, append_assoc in Hlen.
            apply append_same_length in Hlen. tauto.
          + apply IH; try reflexivity.
            * destruct (Nat.eq_dec mn 0) as [Hmn | Hmn].
              -- specialize (Hne Hmn).
                 destruct w1; [ tauto | simpl in Hfuel; lia ].
              -- lia.
            * intros cs'. rewrite <- last_of_append. apply Hk. }
      destruct (mn =? 0); [ | exact Hstep ].
      destruct (step d (clear_caps gs x)); [ discriminate | congruence ].
Qed.

End Quantifier.

Variable ic : bool.

Ltac facts := repeat split; try reflexivity; try assumption.

Lemma m_sound r :
  forall (k : cont) st res,
    m ic r k st = Some res ->
    exists w after cs,
      rest st = w +++ after /\ Matches ic r (prev st) w after
      /\ k (MState (last_of (prev st) w) after cs) = Some res.
Proof.
  induction r as [ | cs | r1 IH1 r2 IH2 | r1 IH1 r2 IH2 | i r1 IH1
                 | r1 IH1 mn mx | | | ];
    intros k [p s caps0] res Hrun; cbn [m prev rest caps] in *.
  - exists "", s, caps0. facts.
  - destruct s as [ | c tl ]; [ discriminate | ].
    destruct (in_set ic cs c) eqn:Hin; [ | discriminate ].
    exists (String c ""), tl, caps0.
    split; [ reflexivity | ]. split; [ exists c; facts | exact Hrun ].
  - apply IH1 in Hrun. destruct Hrun as [w1 [a1 [cs1 [Hs [Hm1 Hrun]]]]].
    apply IH2 in Hrun. destruct Hrun as [w2 [a2 [cs2 [Ha [Hm2 Hk]]]]].
    cbn [prev rest] in *. subst a1.
    exists (w1 +++ w2), a2, cs2.
    split; [ rewrite append_assoc; exact Hs | ].
    split; [ exists w1, w2; facts | rewrite last_of_append; exact Hk ].
  - destruct (m ic r1 k (MState p s caps0)) as [z | ] eqn:H1.
    + inversion Hrun; subst z. apply IH1 in H1.
      destruct H1 as [w [a [cs [Hs [Hm Hk]]]]].
      exists w, a, cs. cbn [Matches]. facts; tauto.
    + apply IH2 in Hrun. destruct Hrun as [w [a [cs [Hs [Hm Hk]]]]].
      exists w, a, cs. cbn [Matches]. facts; tauto.
  - apply IH1 in Hrun. destruct Hrun as [w [a [cs [Hs [Hm Hk]]]]].
    cbn [prev rest set_cap caps] in *. exists w, a, ((i, taken (MState p s caps0) (MState (last_of p w) a cs)) :: cs). facts.
  - apply (repeat_matcher_sound (Matches ic r1) (m ic r1) (groups r1)) in Hrun;
      [ exact Hrun | exact IH1 | lia ].
  - destruct (at_boundary p s) eqn:Hb; [ | discriminate ].
    exists "", s, caps0. facts.
  - destruct p; [ discriminate | ]. exists "", s, caps0. facts.
  - destruct s; [ | discriminate ]. exists "", "", caps0. facts.
Qed.

Lemma m_complete r :
  forall (k : cont) st w after,
    rest st = w +++ after -> Matches ic r (prev st) w after ->
    (forall cs, k (MState (last_of (prev st) w) after cs) <> None) ->
    m ic r k st <> None.
Proof.
  induction r as [ | cs | r1 IH1 r2 IH2 | r1 IH1 r2 IH2 | i r1 IH1
                 | r1 IH1 mn mx | | | ];
    intros k [p s caps0] w after Hs Hm Hk; cbn [m prev rest caps Matches] in *.
  - subst w. cbn [append last_of] in *. subst s. apply Hk.
  - destruct Hm as [c [-> Hin]]. cbn [append] in Hs. subst s.
    rewrite Hin. apply Hk.
  - destruct Hm as [w1 [w2 [-> [Hm1 Hm2]]]].
    apply (IH1 _ _ w1 (w2 +++ after)).
    + cbn [rest]. rewrite Hs. apply append_assoc.
    + exact Hm1.
    + intros cs. apply (IH2 _ _ w2 after); cbn [prev rest]; auto.
      intros cs'. rewrite <- last_of_append. apply Hk.
  - destruct (m ic r1 k (MState p s caps0)) as [z | ] eqn:H1; [ discriminate | ].
    destruct Hm as [Hm | Hm].
    + exfalso. revert H1. apply (IH1 _ _ w after); auto.
    + apply (IH2 _ _ w after); auto.
  - apply (IH1 _ _ w after); auto.
    intros cs. cbn [set_cap prev rest caps]. apply Hk.
  - apply (repeat_matcher_complete (Matches ic r1) (m ic r1) (groups r1) IH1
             mn mx p w after Hm); auto.
    subst s. rewrite append_length. lia.
  - destruct Hm as [-> Hb]. cbn [append last_of] in *. subst s.
    rewrite Hb. apply Hk.
  - destruct Hm as [-> ->]. cbn [append last_of] in *. subst s. apply Hk.
  - destruct Hm as [-> ->]. cbn [append last_of] in *. subst s. apply Hk.
Qed.

Lemma drop_append w after : drop (String.length w) (w +++ after) = after.
Proof.
  unfold drop. rewrite append_length.
  replace (String.length w + String.length after - String.length w)
    with (String.length after) by lia.
  induction w as [ | c tl IH ]; simpl.
  - induction after as [ | c tl IH ]; simpl; [ reflexivity | ].
    f_equal. exact IH.
  - exact IH.
Qed.

Lemma substring_append w after : substring 0 (String.length w) (w +++ after) = w.
Proof.
  induction w as [ | c tl IH ]; simpl.
  - destruct after; reflexivity.
  - f_equal. exact IH.
Qed.

End Matcher.

Section Exec.
Import RegExp Matching.

Variable re : RegExp.t.

(** A successful attempt is a match of the pattern. *)
Lemma exec_at_sound p s len cs :
  exec_at re p s = Some (len, cs) ->
  exists w after,
    s = w +++ after /\ len = String.length w
    /\ Matches (ignoreCase re) (source re) p w after.
Proof.
  unfold exec_at. intros H.
  destruct (m (ignoreCase re) (source re) (fun y => Some y) (MState p s []))
    as [y | ] eqn:Hm; [ | discriminate ].
  apply m_sound in Hm. destruct Hm as [w [after [cs' [Hs [HM Hy]]]]].
  cbn [prev rest] in *. inversion Hy; subst y. cbn [rest caps] in H.
  inversion H; subst. exists w, after. split; [ reflexivity | ].
  split; [ | exact HM ]. rewrite append_length. lia.
Qed.

(** Where the pattern has a match, the attempt succeeds. *)
Lemma exec_at_complete p w after :
  Matches (ignoreCase re) (source re) p w after ->
  exec_at re p (w +++ after) <> None.
Proof.
  intros HM. unfold exec_at.
  destruct (m (ignoreCase re) (source re) (fun y => Some y)
              (MState p (w +++ after) [])) as [y | ] eqn:Hm; [ discriminate | ].
  exfalso. revert Hm. apply (m_complete _ _ _ _ w after); auto.
  discriminate.
Qed.

End Exec.

(** ** What the syntax of a pattern tells about its matches *)

Section PatternShape.
Import RegExp Matching.

Variable ic : bool.

Lemma in_all_ascii c : In c all_ascii.
Proof.
  unfold all_ascii. rewrite <- (ascii_nat_embedding c).
  apply in_map. apply in_seq. pose proof (nat_ascii_bounded c). lia.
Qed.

Lemma string_forall_append f a b :
  string_forall f (a +++ b) = string_forall f a && string_forall f b.
Proof.
  induction a as [ | c tl IH ]; simpl; [ reflexivity | ].
  rewrite IH, andb_assoc. reflexivity.
Qed.

Lemma string_exists_append f a b :
  string_exists f (a +++ b) = string_exists f a || string_exists f b.
Proof.
  induction a as [ | c tl IH ]; simpl; [ reflexivity | ].
  rewrite IH, orb_assoc. reflexivity.
Qed.

Lemma class_subset (cs : charset) (F : ascii -> bool) c :
  forallb (fun c => implb (in_set ic cs c) (F c)) all_ascii = true ->
  in_set ic cs c = true -> F c = true.
Proof.
  intros Hall Hin. rewrite forallb_forall in Hall.
  specialize (Hall c (in_all_ascii c)). rewrite Hin in Hall. exact Hall.
Qed.

Lemma within_matches E r :
  within ic E r = true ->
  forall p w after, Matches ic r p w after -> string_forall E w = true.
Proof.
  induction r as [ | cs | r1 IH1 r2 IH2 | r1 IH1 r2 IH2 | i r1 IH1
                 | r1 IH1 mn mx | | | ];
    cbn [within Matches]; intros Hin p w after Hm.
  - subst w. reflexivity.
  - destruct Hm as [c [-> Hc]]. simpl.
    rewrite (class_subset cs E c Hin Hc). reflexivity.
  - apply andb_prop in Hin. destruct Hin as [H1 H2].
    destruct Hm as [w1 [w2 [-> [Hm1 Hm2]]]].
    rewrite string_forall_append, (IH1 H1 _ _ _ Hm1), (IH2 H2 _ _ _ Hm2).
    reflexivity.
  - apply andb_prop in Hin. destruct Hin as [H1 H2].
    destruct Hm as [Hm | Hm]; eauto.
  - eauto.
  - induction Hm as [ | mn mx p w1 w2 after Hmx HL Hne HR IHR ];
      [ reflexivity | ].
    rewrite string_forall_append, (IH1 Hin _ _ _ HL), IHR. reflexivity.
  - destruct Hm as [-> _]. reflexivity.
  - destruct Hm as [-> _]. reflexivity.
  - destruct Hm as [-> _]. reflexivity.
Qed.

Lemma requires_matches D r :
  requires ic D r = true ->
  forall p w after, Matches ic r p w after -> string_exists D w = true.
Proof.
  induction r as [ | cs | r1 IH1 r2 IH2 | r1 IH1 r2 IH2 | i r1 IH1
                 | r1 IH1 mn mx | | | ];
    cbn [requires Matches]; intros Hreq p w after Hm; try discriminate.
  - destruct Hm as [c [-> Hc]]. simpl.
    rewrite (class_subset cs D c Hreq Hc). reflexivity.
  - destruct Hm as [w1 [w2 [-> [Hm1 Hm2]]]]. rewrite string_exists_append.
    apply orb_prop in Hreq. destruct Hreq as [H1 | H2].
    + rewrite (IH1 H1 _ _ _ Hm1). reflexivity.
    + rewrite (IH2 H2 _ _ _ Hm2). apply orb_true_r.
  - apply andb_prop in Hreq. destruct Hreq as [H1 H2].
    destruct Hm as [Hm | Hm]; eauto.
  - eauto.
  - apply andb_prop in Hreq. destruct Hreq as [Hreq H1].
    apply andb_prop in Hreq. destruct Hreq as [Hmn Hmx].
    apply Nat.leb_le in Hmn.
    destruct Hm as [ mn mx p after Hdone | mn mx p w1 w2 after Hnz HL Hne HR ].
    + destruct Hdone as [-> | ->]; [ discriminate | lia ].
    + rewrite string_exists_append, (IH1 H1 _ _ _ HL). reflexivity.
Qed.

Lemma assertion_free_anywhere r :
  free_of_assertions r = true ->
  forall p w after p' after',
    Matches ic r p w after -> Matches ic r p' w after'.
Proof.
  induction r as [ | cs | r1 IH1 r2 IH2 | r1 IH1 r2 IH2 | i r1 IH1
                 | r1 IH1 mn mx | | | ];
    cbn [free_of_assertions Matches]; intros Hfree p w after p' after' Hm;
    try discriminate; try exact Hm.
  - apply andb_prop in Hfree. destruct Hfree as [H1 H2].
    destruct Hm as [w1 [w2 [-> [Hm1 Hm2]]]]. exists w1, w2.
    split; [ reflexivity | ]. split; eauto.
  - apply andb_prop in Hfree. destruct Hfree as [H1 H2].
    destruct Hm as [Hm | Hm]; [ left | right ]; eauto.
  - eauto.
  - revert p' after'.
    induction Hm as [ mn mx p after Hdone
                    | mn mx p w1 w2 after Hmx HL Hne HR IHR ];
      intros p' after'.
    + constructor. exact Hdone.
    + apply reps_step; eauto.
Qed.

Lemma closing_boundary_holds r :
  closes_with_boundary r = true ->
  forall p w after,
    Matches ic r p w after -> at_boundary (last_of p w) after = true.
Proof.
  induction r as [ | cs | r1 IH1 r2 IH2 | r1 IH1 r2 IH2 | i r1 IH1
                 | r1 IH1 mn mx | | | ];
    cbn [closes_with_boundary Matches]; intros Hc p w after Hm;
    try discriminate.
  - apply andb_prop in Hc. destruct Hc as [_ H2].
    destruct Hm as [w1 [w2 [-> [_ Hm2]]]].
    rewrite last_of_append. eauto.
  - destruct Hm as [-> Hb]. exact Hb.
Qed.

Lemma closing_boundary_moves r :
  closes_with_boundary r = true ->
  forall p w after p' after',
    Matches ic r p w after ->
    at_boundary (last_of p' w) after' = true ->
    Matches ic r p' w after'.
Proof.
  induction r as [ | cs | r1 IH1 r2 IH2 | r1 IH1 r2 IH2 | i r1 IH1
                 | r1 IH1 mn mx | | | ];
    cbn [closes_with_boundary Matches]; intros Hc p w after p' after' Hm Hb;
    try discriminate.
  - apply andb_prop in Hc. destruct Hc as [H1 H2].
    destruct Hm as [w1 [w2 [-> [Hm1 Hm2]]]]. exists w1, w2.
    split; [ reflexivity | ].
    split; [ eapply assertion_free_anywhere; eassumption | ].
    rewrite last_of_append in Hb. eauto.
  - destruct Hm as [-> _]. split; [ reflexivity | exact Hb ].
Qed.

(** A pattern enclosed in two [\b] holds at word boundaries. *)
Lemma word_bounded_holds r :
  word_bounded r = true ->
  forall p w after,
    Matches ic r p w after ->
    at_boundary p (w +++ after) = true
    /\ at_boundary (last_of p w) after = true.
Proof.
  destruct r as [ | | r1 r2 | | | | | | ]; try discriminate.
  destruct r1; try discriminate. cbn [word_bounded Matches].
  intros Hc p w after [w1 [w2 [-> [[-> Hb] Hm]]]]. cbn [append last_of] in *.
  split; [ exact Hb | ]. exact (closing_boundary_holds _ Hc _ _ _ Hm).
Qed.

(** It matches the same word wherever that word stands between two word
    boundaries. *)
Lemma word_bounded_moves r :
  word_bounded r = true ->
  forall p w after p' after',
    Matches ic r p w after ->
    at_boundary p' (w +++ after') = true ->
    at_boundary (last_of p' w) after' = true ->
    Matches ic r p' w after'.
Proof.
  destruct r as [ | | r1 r2 | | | | | | ]; try discriminate.
  destruct r1; try discriminate. cbn [word_bounded Matches].
  intros Hc p w after p' after' [w1 [w2 [-> [[-> Hb] Hm]]]] Hb1 Hb2.
  cbn [append last_of] in *. exists "", w2.
  split; [ reflexivity | ]. split; [ split; [ reflexivity | exact Hb1 ] | ].
  exact (closing_boundary_moves _ Hc _ _ _ _ _ Hm Hb2).
Qed.

End PatternShape.

(** ** A pass leaves no match of its own pattern *)

Section StablePass.
Import RegExp Matching.

Variable re : RegExp.t.
Variables E D : ascii -> bool.
Hypothesis stable : redaction_stable re E D = true.

Local Notation "'bounded'" := (word_bounded (source re)).

Lemma stable_parts :
  global re = true
  /\ (bounded = false -> free_of_assertions (source re) = true)
  /\ within (ignoreCase re) E (source re) = true
  /\ requires (ignoreCase re) D (source re) = true
  /\ E "["%char = false /\ E "]"%char = false
  /\ string_exists D placeholder = false.
Proof.
  unfold redaction_stable in stable.
  repeat (apply andb_prop in stable; destruct stable as [stable ?]).
  repeat match goal with
         | H : negb _ = true |- _ => apply negb_true_iff in H
         end.
  repeat split; try assumption.
  intros Hb. rewrite Hb in *. assumption.
Qed.

Lemma match_facts p s len cs :
  exec_at re p s = Some (len, cs) ->
  exists w after,
    s = w +++ after /\ len = String.length w /\ w <> ""
    /\ string_forall E w = true /\ string_exists D w = true
    /\ Matches (ignoreCase re) (source re) p w after.
Proof.
  intros H. apply exec_at_sound in H. destruct H as [w [after [Hs [Hlen HM]]]].
  destruct stable_parts as [_ [_ [HE [HD _]]]].
  pose proof (within_matches _ _ _ HE _ _ _ HM) as HwE.
  pose proof (requires_matches _ _ _ HD _ _ _ HM) as HwD.
  exists w, after. repeat split; try assumption.
  intros ->. discriminate.
Qed.

Lemma match_bounded p w after :
  bounded = true ->
  Matches (ignoreCase re) (source re) p w after ->
  at_boundary p (w +++ after) = true
  /\ at_boundary (last_of p w) after = true.
Proof. intros Hb. apply word_bounded_holds. exact Hb. Qed.

Lemma match_moves p w after p' after' :
  Matches (ignoreCase re) (source re) p w after ->
  (bounded = true ->
   at_boundary p' (w +++ after') = true
   /\ at_boundary (last_of p' w) after' = true) ->
  Matches (ignoreCase re) (source re) p' w after'.
Proof.
  intros HM Hb. destruct bounded eqn:Hbd.
  - destruct (Hb eq_refl) as [H1 H2].
    exact (word_bounded_moves _ _ Hbd _ _ _ _ _ HM H1 H2).
  - destruct stable_parts as [_ [Hfree _]].
    exact (assertion_free_anywhere _ _ (Hfree Hbd) _ _ _ _ _ HM).
Qed.

(** The steps of the replacement loop. *)
Lemma replace_at_end fuel before p :
  exec_at re p "" = None ->
  replace_from re placeholder (S fuel) before p "" = "".
Proof. intros H. cbn [replace_from]. rewrite H. reflexivity. Qed.

Lemma replace_advance fuel before p c tl :
  exec_at re p (String c tl) = None ->
  replace_from re placeholder (S fuel) before p (String c tl)
  = String c (replace_from re placeholder fuel (before +++ String c "")
                           (Some c) tl).
Proof. intros H. cbn [replace_from]. rewrite H. reflexivity. Qed.

Lemma replace_match fuel before p w after cs :
  exec_at re p (w +++ after) = Some (String.length w, cs) -> w <> "" ->
  replace_from re placeholder (S fuel) before p (w +++ after)
  = placeholder
    +++ replace_from re placeholder fuel (before +++ w) (last_of p w) after.
Proof.
  intros H Hw. cbn [replace_from]. rewrite H.
  destruct stable_parts as [Hg _]. rewrite Hg.
  rewrite substring_append, drop_append.
  destruct w as [ | c tl ]; [ congruence | ]. reflexivity.
Qed.

(** Up to the first match, input and output agree. *)
Lemma replace_shares_gap fuel :
  forall before p s,
    String.length s < fuel ->
    exists g s2 o2,
      s = g +++ s2
      /\ replace_from re placeholder fuel before p s = g +++ o2
      /\ ((s2 = "" /\ o2 = "")
          \/ (exists o3, o2 = String "[" o3)
             /\ (bounded = true -> at_boundary (last_of p g) s2 = true)).
Proof.
  induction fuel as [ | fuel IH ]; intros before p s Hlen; [ lia | ].
  destruct (exec_at re p s) as [[len cs] | ] eqn:Hex.
  - destruct (match_facts _ _ _ _ Hex) as [w [after [-> [-> [Hw [_ [_ HM]]]]]]].
    exists "", (w +++ after). eexists.
    split; [ reflexivity | ].
    split; [ rewrite (replace_match _ _ _ _ _ _ Hex Hw); reflexivity | ].
    right. split; [ eexists; reflexivity | ].
    intros Hb. exact (proj1 (match_bounded _ _ _ Hb HM)).
  - destruct s as [ | c tl ].
    + exists "", "", "". rewrite (replace_at_end _ _ _ Hex). auto.
    + rewrite (replace_advance _ _ _ _ _ Hex).
      destruct (IH (before +++ String c "") (Some c) tl) as
        [g [s2 [o2 [Hs [Ho Hnext]]]]]; [ simpl in Hlen; lia | ].
      exists (String c g), s2, o2. rewrite Ho, Hs.
      split; [ reflexivity | ]. split; [ reflexivity | ].
      rewrite last_of_cons. exact Hnext.
Qed.

Lemma prefix_in_gap w :
  forall aout g o2,
    w +++ aout = g +++ o2 ->
    string_forall E w = true ->
    o2 = "" \/ (exists o3, o2 = String "[" o3) ->
    exists g2, g = w +++ g2 /\ aout = g2 +++ o2.
Proof.
  destruct stable_parts as [_ [_ [_ [_ [HEl _]]]]].
  induction w as [ | c tl IH ]; intros aout g o2 Heq HE Ho2.
  - exists g. split; [ reflexivity | exact Heq ].
  - simpl in HE. apply andb_prop in HE. destruct HE as [Hc Htl].
    destruct g as [ | c' g' ].
    + cbn [append] in Heq. destruct Ho2 as [-> | [o3 ->]]; [ discriminate | ].
      inversion Heq; subst. congruence.
    + cbn [append] in Heq. inversion Heq; subst c'.
      destruct (IH _ _ _ H1 Htl Ho2) as [g2 [-> ->]].
      exists g2. split; reflexivity.
Qed.

Lemma at_boundary_head p w x y :
  w <> "" -> at_boundary p (w +++ x) = at_boundary p (w +++ y).
Proof. destruct w; [ congruence | reflexivity ]. Qed.

Lemma last_of_nonempty p p' w : w <> "" -> last_of p w = last_of p' w.
Proof. destruct w; [ congruence | reflexivity ]. Qed.

Local Notation "'same_context'" := (Matching.same_context re).

(** Where the input has no match, the output has none that starts in the
    same gap. *)
Lemma no_match_in_gap p' p s out g s2 o2 :
  exec_at re p s = None ->
  s = g +++ s2 -> out = g +++ o2 ->
  (s2 = "" /\ o2 = "")
  \/ (exists o3, o2 = String "[" o3)
     /\ (bounded = true -> at_boundary (last_of p g) s2 = true) ->
  same_context p' p s ->
  exec_at re p' out = None.
Proof.
  intros Hnone Hs Hout Hnext Hctx.
  destruct (exec_at re p' out) as [[len cs] | ] eqn:Hex; [ exfalso | reflexivity ].
  destruct (match_facts _ _ _ _ Hex) as [w [aout [Hw [_ [Hne [HwE [_ HM]]]]]]].
  destruct (prefix_in_gap w aout g o2) as [g2 [Hg Haout]].
  { rewrite <- Hw. exact Hout. }
  { exact HwE. }
  { destruct Hnext as [[_ ->] | [Ho3 _]]; [ left; reflexivity | right; exact Ho3 ]. }
  subst g aout. rewrite append_assoc in Hs.
  apply (exec_at_complete re p w (g2 +++ s2)); [ | rewrite <- Hs; exact Hnone ].
  apply (match_moves _ _ _ _ _ HM). intros Hb.
  destruct (match_bounded _ _ _ Hb HM) as [B1 B2].
  split.
  - destruct Hctx as [-> | Hctx].
    + rewrite (at_boundary_head p w _ (g2 +++ o2) Hne). exact B1.
    + rewrite <- Hs. exact (Hctx Hb).
  - rewrite (last_of_nonempty p p' w Hne).
    destruct g2 as [ | c g2' ].
    + cbn [append] in *.
      destruct Hnext as [[-> ->] | [_ Hnext]]; [ exact B2 | ].
      rewrite append_nil_r in Hnext.
      rewrite (last_of_nonempty p' p w Hne). exact (Hnext Hb).
    + exact B2.
Qed.

Local Notation "'blocked'" := (Matching.blocked E D).
Local Notation "'all_suffixes_blocked'" := (Matching.all_suffixes_blocked E D).

Lemma blocked_no_match t :
  blocked t = true ->
  forall p x, exec_at re p (t +++ x) = None.
Proof.
  intros Hblk p x.
  destruct (exec_at re p (t +++ x)) as [[len cs] | ] eqn:Hex;
    [ exfalso | reflexivity ].
  destruct (match_facts _ _ _ _ Hex) as [w [a [Hw [_ [_ [HwE [HwD _]]]]]]].
  clear Hex. revert w Hw HwE HwD.
  induction t as [ | c tl IH ]; intros w Hw HwE HwD; [ discriminate | ].
  destruct w as [ | c' w' ]; [ discriminate | ].
  cbn [append] in Hw. inversion Hw; subst c'.
  simpl in HwE, HwD, Hblk. apply andb_prop in HwE. destruct HwE as [Hc HwE].
  rewrite Hc in Hblk. simpl in Hblk. apply andb_prop in Hblk.
  destruct Hblk as [HDc Hblk]. apply negb_true_iff in HDc.
  rewrite HDc in HwD. simpl in HwD. eauto.
Qed.

Lemma search_skips_blocked t :
  all_suffixes_blocked t = true ->
  forall p o, search_from re p (t +++ o) = search_from re (last_of p t) o.
Proof.
  induction t as [ | c tl IH ]; intros Hall p o; [ reflexivity | ].
  cbn [all_suffixes_blocked] in Hall. apply andb_prop in Hall.
  destruct Hall as [Hblk Hall].
  change (String c tl +++ o) with (String c (tl +++ o)).
  cbn [search_from].
  change (String c (tl +++ o)) with (String c tl +++ o).
  rewrite (blocked_no_match _ Hblk p o), (IH Hall), last_of_cons. reflexivity.
Qed.

Lemma placeholder_blocked : all_suffixes_blocked placeholder = true.
Proof.
  destruct stable_parts as [_ [_ [_ [_ [HEl [HEr HDp]]]]]].
  unfold placeholder in *. cbn [string_exists] in HDp.
  repeat (apply orb_false_elim in HDp; destruct HDp as [? HDp]).
  cbn [all_suffixes_blocked blocked].
  repeat match goal with
         | H : D _ = false |- _ => rewrite H; clear H
         end.
  rewrite HEl, HEr. cbn [negb andb orb].
  rewrite ?orb_true_r, ?andb_true_r. reflexivity.
Qed.

Lemma replace_leaves_no_match fuel :
  forall before p s p',
    String.length s < fuel -> same_context p' p s ->
    search_from re p' (replace_from re placeholder fuel before p s) = false.
Proof.
  induction fuel as [ | fuel IH ]; intros before p s p' Hlen Hctx; [ lia | ].
  destruct (exec_at re p s) as [[len cs] | ] eqn:Hex.
  - destruct (match_facts _ _ _ _ Hex) as [w [after [-> [-> [Hw [_ [_ HM]]]]]]].
    rewrite (replace_match _ _ _ _ _ _ Hex Hw).
    rewrite (search_skips_blocked _ placeholder_blocked).
    apply IH.
    + rewrite append_length in Hlen. destruct w; [ congruence | ].
      simpl in Hlen. lia.
    + right. intros Hb. exact (proj2 (match_bounded _ _ _ Hb HM)).
  - destruct (replace_shares_gap (S fuel) before p s Hlen)
      as [g [s2 [o2 [Hs [Ho Hnext]]]]].
    pose proof (no_match_in_gap p' p s _ g s2 o2 Hex Hs Ho Hnext Hctx) as Hhere.
    destruct s as [ | c tl ].
    + rewrite (replace_at_end _ _ _ Hex) in *. cbn [search_from].
      rewrite Hhere. reflexivity.
    + rewrite (replace_advance _ _ _ _ _ Hex) in *. cbn [search_from].
      rewrite Hhere. apply IH; [ simpl in Hlen; lia | left; reflexivity ].
Qed.

(** After a pass with the default placeholder, the pattern of the pass
    matches nowhere. *)
Lemma stable_pass_leaves_no_match s :
  Props.has_match re (replace s re placeholder) = false.
Proof.
  unfold Props.has_match, replace.
  apply replace_leaves_no_match; [ lia | left; reflexivity ].
Qed.

End StablePass.

(** ** The passes of [scrubString] *)

Section CategoryPasses.
Import RegExp Matching Passes Props.

Lemma run_passes_app ps qs text :
  run_passes (ps ++ qs) text = run_passes qs (run_passes ps text).
Proof. apply fold_left_app. Qed.

Lemma run_passes_custom ph patterns :
  forall text,
    run_passes (map (fun re => (re, ph)) patterns) text
    = fold_left (fun scrubbed pattern => replace scrubbed pattern ph)
                patterns text.
Proof.
  induction patterns as [ | re tl IH ]; intros text; [ reflexivity | ].
  simpl. apply IH.
Qed.

(** [scrubString] is the run of its passes. *)
Lemma scrubString_passes this text :
  PIIScrubber.scrubString this text = run_passes (passes this) text.
Proof.
  unfold PIIScrubber.scrubString, passes. cbv zeta.
  rewrite !run_passes_app, run_passes_custom.
  destruct (PIIScrubber.maskEmails this), (PIIScrubber.maskPhones this),
    (PIIScrubber.maskSSNs this), (PIIScrubber.maskCreditCards this),
    (PIIScrubber.maskIPAddresses this);
    unfold run_passes; cbn [fold_left fst snd]; reflexivity.
Qed.

Lemma categories_stable :
  forallb (fun c => redaction_stable (fst c) (fst (snd c)) (snd (snd c)))
          categories = true.
Proof. vm_compute. reflexivity. Qed.

(** After its own pass with the default placeholder, the pattern of a
    toggleable category matches nowhere. *)
Lemma category_pass_leaves_no_match re text :
  In re category_patterns ->
  has_match re (replace text re "[REDACTED]") = false.
Proof.
  intros Hin. apply in_map_iff in Hin. destruct Hin as [[re' [E D]] [<- Hin]].
  pose proof categories_stable as Hall. rewrite forallb_forall in Hall.
  exact (stable_pass_leaves_no_match _ E D (Hall _ Hin) text).
Qed.

Lemma match_from_finds re fuel :
  forall p s,
    String.length s < fuel -> search_from re p s = true ->
    1 <= List.length (match_from re fuel p s).
Proof.
  induction fuel as [ | fuel IH ]; intros p s Hlen Hfound; [ lia | ].
  cbn [match_from].
  destruct s as [ | c tl ]; cbn [search_from] in Hfound;
    destruct (exec_at re p _) as [[len cs] | ]; try discriminate;
    try (simpl; lia).
  apply IH; [ simpl in Hlen; lia | exact Hfound ].
Qed.

(** A string in which a pattern matches has at least one occurrence. *)
Lemma match_all_finds re s :
  has_match re s = true -> 1 <= List.length (match_all s re).
Proof. apply match_from_finds. lia. Qed.

(** C1, amended.  With the default placeholder, for every input string and
    every enabled toggleable category, the string that the category's own
    pass produces contains no match of the category's pattern, and neither
    does the output of [scrubString] when the passes that follow leave
    that string unchanged.  For every pre-redaction string in which the
    e-mail pattern matches, the e-mail statistic is at least 1. *)
Theorem pass_leaves_no_match_of_its_pattern
        (this : PIIScrubber.t) (re : RegExp.t)
        (pre post : list (RegExp.t * string))
        (text original scrubbed : string) :
  PIIScrubber.placeholder this = "[REDACTED]" ->
  In re category_patterns ->
  passes this = pre ++ (re, "[REDACTED]") :: post ->
  let after_pass := run_passes (pre ++ [(re, "[REDACTED]")]) text in
  has_match re after_pass = false
  /\ PIIScrubber.scrubString this text = run_passes post after_pass
  /\ (run_passes post after_pass = after_pass ->
      has_match re (PIIScrubber.scrubString this text) = false)
  /\ (has_match PIIScrubber.PATTERNS.email original = true ->
      1 <= PIIScrubber.emailsFound
             (PIIScrubber.getScrubStats original scrubbed)).
Proof.
  intros Hph Hin Hpasses after_pass.
  assert (Hnone : has_match re after_pass = false).
  { unfold after_pass. rewrite run_passes_app.
    apply category_pass_leaves_no_match. exact Hin. }
  assert (Hout : PIIScrubber.scrubString this text
                 = run_passes post after_pass).
  { rewrite scrubString_passes, Hpasses. unfold after_pass.
    rewrite <- run_passes_app, <- app_assoc. cbn [app]. reflexivity. }
  split; [ exact Hnone | ]. split; [ exact Hout | ].
  split.
  - intros Hidle. rewrite Hout, Hidle. exact Hnone.
  - intros Hfound. apply match_all_finds. exact Hfound.
Qed.

End CategoryPasses.

Lemma pass_leaves_no_match_witness :
  let after_pass :=
    Passes.run_passes
      ([(PIIScrubber.PATTERNS.email, "[REDACTED]")]
       ++ [(PIIScrubber.PATTERNS.phone, "[REDACTED]")])
      "user@example.com, call 555-123-4567" in
  Props.has_match PIIScrubber.PATTERNS.phone after_pass = false
  /\ PIIScrubber.scrubString Props.default_scrubber
       "user@example.com, call 555-123-4567"
     = Passes.run_passes (skipn 2 (Passes.passes Props.default_scrubber))
                         after_pass
  /\ (Passes.run_passes (skipn 2 (Passes.passes Props.default_scrubber))
                        after_pass = after_pass ->
      Props.has_match PIIScrubber.PATTERNS.phone
        (PIIScrubber.scrubString Props.default_scrubber
           "user@example.com, call 555-123-4567") = false)
  /\ (Props.has_match PIIScrubber.PATTERNS.email
        "user@example.com, call 555-123-4567" = true ->
      1 <= PIIScrubber.emailsFound
             (PIIScrubber.getScrubStats
                "user@example.com, call 555-123-4567"
                "[REDACTED], call [REDACTED]")).
Proof.
  apply (pass_leaves_no_match_of_its_pattern
           Props.default_scrubber PIIScrubber.PATTERNS.phone
           [(PIIScrubber.PATTERNS.email, "[REDACTED]")]
           (skipn 2 (Passes.passes Props.default_scrubber))
           "user@example.com, call 555-123-4567"
           "user@example.com, call 555-123-4567"
           "[REDACTED], call [REDACTED]").
  - reflexivity.
  - right. left. reflexivity.
  - vm_compute. reflexivity.
Defined.


(* ================================================================== *)
(** * Further properties of the code                                *)
(* ================================================================== *)

(** ** The data buffer *)

Section Buffering.
Import DataBuffer Checks.

Variable T : Type.
Variable flushCallback : list T -> result unit.

Lemma add_step (this : DataBuffer.t T) item :
  List.length (buffer this) < batch_size (maxSize this) ->
  let out := add this flushCallback item in
  maxSize (snd (fst out)) = maxSize this
  /\ List.length (buffer (snd (fst out))) < batch_size (maxSize this)
  /\ Forall (fun c => List.length c = batch_size (maxSize this)) (snd out)
  /\ concat (snd out) ++ buffer (snd (fst out)) = buffer this ++ [item]
  /\ (succeeded (fst (fst out)) = false -> buffer (snd (fst out)) = []).
Proof.
  intros Hlen. unfold add, flush, batch_size in *. cbn [buffer maxSize].
  rewrite length_app. cbn [List.length].
  destruct (maxSize this <=? List.length (buffer this) + 1) eqn:Hfull.
  - apply Nat.leb_le in Hfull.
    replace (0 <? List.length (buffer this) + 1) with true
      by (symmetry; apply Nat.ltb_lt; lia).
    cbn [fst snd buffer maxSize concat app List.length].
    split; [ reflexivity | ]. split; [ lia | ].
    split; [ constructor; [ rewrite length_app; cbn [List.length]; lia | constructor ] | ].
    split; [ rewrite !app_nil_r; reflexivity | reflexivity ].
  - apply Nat.leb_gt in Hfull.
    cbn [fst snd buffer maxSize concat app List.length succeeded].
    rewrite length_app. cbn [List.length].
    split; [ reflexivity | ]. split; [ lia | ].
    split; [ constructor | ]. split; [ reflexivity | discriminate ].
Qed.

Lemma add_all_spec items :
  forall (this : DataBuffer.t T) calls,
    List.length (buffer this) < batch_size (maxSize this) ->
    let out := add_all this flushCallback items calls in
    exists batches rest,
      snd out = calls ++ batches
      /\ maxSize (snd (fst out)) = maxSize this
      /\ List.length (buffer (snd (fst out))) < batch_size (maxSize this)
      /\ Forall (fun c => List.length c = batch_size (maxSize this)) batches
      /\ (concat batches ++ buffer (snd (fst out))) ++ rest
         = buffer this ++ items
      /\ (succeeded (fst (fst out)) = true -> rest = [])
      /\ (succeeded (fst (fst out)) = false -> buffer (snd (fst out)) = []).
Proof.
  induction items as [ | item tl IH ]; intros this calls Hlen; cbn zeta.
  - exists [], []. cbn [add_all fst snd concat app].
    rewrite !app_nil_r.
    split; [ reflexivity | ]. split; [ reflexivity | ].
    split; [ exact Hlen | ]. split; [ constructor | ].
    split; [ reflexivity | ]. split; [ reflexivity | discriminate ].
  - cbn [add_all].
    pose proof (add_step this item Hlen) as Hstep. cbv zeta in Hstep.
    destruct (add this flushCallback item) as [[r this'] cs].
    cbn [fst snd] in Hstep.
    destruct Hstep as [Hmax [Hlen' [Hcs [Hcat Hfail]]]].
    destruct r as [u | e].
    + rewrite <- Hmax in Hlen'.
      destruct (IH this' (calls ++ cs) Hlen')
        as [batches [rest [Hcalls [Hmax2 [Hlen2 [Hall [Hcat2 [Hok Hthrow]]]]]]]].
      exists (cs ++ batches), rest. rewrite Hmax in *.
      split; [ rewrite Hcalls, app_assoc; reflexivity | ].
      split; [ exact Hmax2 | ]. split; [ exact Hlen2 | ].
      split; [ apply Forall_app; split; assumption | ].
      split; [ | split; assumption ].
      rewrite concat_app, <- !app_assoc.
      rewrite <- !app_assoc in Hcat2. rewrite Hcat2.
      rewrite app_assoc, Hcat, <- app_assoc. reflexivity.
    + exists cs, tl. cbn [fst snd succeeded].
      split; [ reflexivity | ]. split; [ exact Hmax | ].
      split; [ exact Hlen' | ]. split; [ exact Hcs | ].
      split; [ rewrite Hcat, <- app_assoc; reflexivity | ].
      split; [ discriminate | intros _; apply Hfail; reflexivity ].
Qed.

(** X1. Adding items one after the other to a new buffer hands the flush
    callback batches of exactly [max 1 maxSize] items; the batches, then
    what is still buffered, then the items not added because a flush
    failed, are the items in order.  The buffer always holds fewer items
    than a batch, nothing is left unadded when every flush succeeds, and
    after a failed flush the buffer is empty: the failed batch is not
    kept. *)
Theorem buffer_hands_over_items_in_batches (maxSize0 : nat) (items : list T) :
  let out := add_all (constructor T maxSize0) flushCallback items [] in
  exists rest,
    Forall (fun c => List.length c = batch_size maxSize0) (snd out)
    /\ (concat (snd out) ++ buffer (snd (fst out))) ++ rest = items
    /\ size (snd (fst out)) < batch_size maxSize0
    /\ (succeeded (fst (fst out)) = true -> rest = [])
    /\ (succeeded (fst (fst out)) = false -> size (snd (fst out)) = 0).
Proof.
  cbv zeta.
  destruct (add_all_spec items (constructor T maxSize0) [])
    as [batches [rest [Hcalls [_ [Hlen [Hall [Hcat [Hok Hthrow]]]]]]]].
  { unfold batch_size. cbn [constructor buffer maxSize List.length]. lia. }
  cbn [app constructor buffer maxSize] in *. rewrite Hcalls.
  exists rest. unfold size.
  split; [ exact Hall | ]. split; [ exact Hcat | ].
  split; [ exact Hlen | ]. split; [ exact Hok | ].
  intros Hf. rewrite (Hthrow Hf). reflexivity.
Qed.

End Buffering.

(** ** Counting, progress reports and the first failure *)

Section Traversals.
Import StreamProcessor Props Checks.

Variables T R : Type.

Lemma seq_loop_trace len (processor : T -> nat -> result R) onProgress :
  forall rest i this results calls progress,
    let out := seq_loop len rest processor onProgress i this results
                        calls progress in
    exists n,
      n <= List.length rest
      /\ worker_calls (snd out)
         = calls ++ firstn (if succeeded (fst out) then n else S n)
                           (combine rest (seq i (List.length rest)))
      /\ processedCount (this_after (snd out)) = processedCount this + n
      /\ progress_calls (snd out)
         = progress ++ progress_reports onProgress (processedCount this) len n
      /\ (succeeded (fst out) = true -> n = List.length rest)
      /\ (forall e, fst out = Throw e ->
                    exists x, nth_error rest n = Some x
                              /\ processor x (i + n) = Throw e)
      /\ (forall k x, k < n -> nth_error rest k = Some x ->
                      succeeded (processor x (i + k)) = true).
Proof.
  induction rest as [ | item tl IH ];
    intros i this results calls progress; cbn zeta.
  - exists 0. cbn [seq_loop fst snd worker_calls this_after progress_calls
                   succeeded List.length combine firstn].
    unfold progress_reports. cbn [seq map].
    rewrite !app_nil_r, Nat.add_0_r.
    split; [ lia | ]. split; [ reflexivity | ]. split; [ reflexivity | ].
    split; [ destruct onProgress; rewrite ?app_nil_r; reflexivity | ].
    split; [ reflexivity | ]. split; [ discriminate | ].
    intros k x Hk. lia.
  - cbn [seq_loop]. destruct (processor item i) as [r | e] eqn:Hcall.
    + set (this' := Make (chunkSize this) (processedCount this + 1)).
      destruct (IH (i + 1) this' (results ++ [r]) (calls ++ [(item, i)])
                   (if onProgress
                    then progress ++ [(processedCount this', len)]
                    else progress))
        as [n [Hn [Hcalls [Hcount [Hprog [Hok [Hthrow Hbefore]]]]]]].
      exists (S n). cbn [List.length seq combine].
      replace (i + 1) with (S i) in * by lia.
      split; [ lia | ].
      split.
      { rewrite Hcalls, <- app_assoc.
        destruct (succeeded _); reflexivity. }
      split; [ rewrite Hcount; cbn [this' processedCount]; lia | ].
      split.
      { rewrite Hprog. unfold progress_reports.
        destruct onProgress; [ | rewrite !app_nil_r; reflexivity ].
        rewrite <- app_assoc. f_equal. cbn [seq map app this' processedCount].
        f_equal. rewrite <- (seq_shift n 1), map_map.
        apply map_ext. intros k. f_equal. lia. }
      split; [ intros H; f_equal; apply Hok; exact H | ].
      split.
      { intros e He. destruct (Hthrow e He) as [x [Hx Hp]].
        exists x. cbn [nth_error]. split; [ exact Hx | ].
        replace (i + S n) with (S i + n) by lia. exact Hp. }
      intros k x Hk Hx. destruct k as [ | k ].
      * cbn [nth_error] in Hx. inversion Hx; subst x.
        rewrite Nat.add_0_r, Hcall. reflexivity.
      * cbn [nth_error] in Hx.
        replace (i + S k) with (S i + k) by lia.
        apply Hbefore; [ lia | exact Hx ].
    + exists 0. cbn [fst snd worker_calls this_after progress_calls succeeded
                     List.length seq combine firstn nth_error].
      unfold progress_reports. cbn [seq map].
      rewrite Nat.add_0_r.
      split; [ lia | ]. split; [ reflexivity | ]. split; [ reflexivity | ].
      split; [ destruct onProgress; rewrite ?app_nil_r; reflexivity | ].
      split; [ discriminate | ].
      split.
      { intros e' He. inversion He; subst e'. exists item.
        split; [ reflexivity | rewrite Nat.add_0_r; exact Hcall ]. }
      intros k x Hk. lia.
Qed.

(** X2. [processSequentially] hands the items to the worker in order, each
    with its index, and stops at the first call that fails: with [n] the
    number of calls that succeeded, the calls made are the first [n] items
    (and the failing one, if any), the counter has grown by [n], and the
    progress reports are [c + 1], ..., [c + n] out of the number of items,
    [c] being the counter before the call: the counter is not reset
    between traversals. *)
Theorem sequential_stops_at_first_failure
        (this : StreamProcessor.t) (items : list T)
        (processor : T -> nat -> result R) (onProgress : bool) :
  let out := processSequentially this items processor onProgress in
  exists n,
    n <= List.length items
    /\ worker_calls (snd out)
       = firstn (if succeeded (fst out) then n else S n) (indexed items)
    /\ processedCount (this_after (snd out)) = processedCount this + n
    /\ progress_calls (snd out)
       = progress_reports onProgress (processedCount this)
                          (List.length items) n
    /\ (succeeded (fst out) = true -> n = List.length items)
    /\ (forall e, fst out = Throw e ->
                  exists x, nth_error items n = Some x
                            /\ processor x n = Throw e)
    /\ (forall k x, k < n -> nth_error items k = Some x ->
                    succeeded (processor x k) = true).
Proof.
  exact (seq_loop_trace (List.length items) processor onProgress
                        items 0 this [] [] []).
Qed.

Lemma chunk_loop_stuck (items : list T)
      (processor : list T -> result (list R)) onProgress rs :
  items <> [] -> processor [] = Ok rs ->
  forall fuel this results calls progress,
    chunkSize this = 0 ->
    chunk_loop fuel (List.length items) items processor onProgress
               0 this results calls progress = None.
Proof.
  intros Hitems Hp. induction fuel as [ | fuel IH ];
    intros this results calls progress HK; [ reflexivity | ].
  cbn [chunk_loop].
  replace (0 <? List.length items) with true
    by (symmetry; apply Nat.ltb_lt; destruct items;
        [ congruence | simpl; lia ]).
  rewrite HK. unfold slice. cbn [Nat.add Nat.sub firstn].
  rewrite Hp. cbn [List.length]. apply IH. reflexivity.
Qed.

(** X3. With a chunk size of 0, [processInChunks] over a non-empty list
    does not return when the worker accepts the empty chunk: the index
    never advances, and the worker is called on the empty chunk again and
    again. *)
Theorem zero_chunk_size_never_returns
        (this : StreamProcessor.t) (items : list T)
        (processor : list T -> result (list R)) (onProgress : bool)
        (rs : list R) :
  chunkSize this = 0 -> items <> [] -> processor [] = Ok rs ->
  forall fuel, processInChunks fuel this items processor onProgress = None.
Proof.
  intros HK Hitems Hp fuel. unfold processInChunks.
  apply (chunk_loop_stuck items processor onProgress rs Hitems Hp).
  exact HK.
Qed.

End Traversals.

Lemma zero_chunk_size_never_returns_witness :
  StreamProcessor.chunkSize (StreamProcessor.constructor (Some 0)) = 0
  /\ [1; 2; 3]%Z <> []
  /\ StreamProcessor.lift Props.sample_worker [] = Ok []
  /\ forall fuel,
       StreamProcessor.processInChunks
         fuel (StreamProcessor.constructor (Some 0)) [1; 2; 3]%Z
         (StreamProcessor.lift Props.sample_worker) true = None.
Proof.
  split; [ reflexivity | ]. split; [ discriminate | ].
  split; [ reflexivity | ].
  apply (zero_chunk_size_never_returns Z Z
           (StreamProcessor.constructor (Some 0)) [1; 2; 3]%Z
           (StreamProcessor.lift Props.sample_worker) true []).
  - reflexivity.
  - discriminate.
  - reflexivity.
Defined.

Section ChunkTrace.
Import StreamProcessor Props Checks.

Variables T R : Type.
Variable items : list T.
Variable processor : list T -> result (list R).
Variable onProgress : bool.
Variable K c0 : nat.

Local Notation "'len'" := (List.length items).

Lemma chunk_loop_trace :
  forall fuel j this results calls progress,
    chunkSize this = K -> 1 <= K ->
    j * K < len + K ->
    len - j * K < fuel ->
    processedCount this = c0 + Nat.min len (j * K) ->
    exists res trace n,
      chunk_loop fuel len items processor onProgress (j * K) this results
                 calls progress = Some (res, trace)
      /\ worker_calls trace
         = calls ++ map (nth_chunk K items)
                        (seq j (if succeeded res then n else S n))
      /\ processedCount (this_after trace) = c0 + Nat.min len ((j + n) * K)
      /\ progress_calls trace
         = progress
           ++ (if onProgress
               then map (fun k => (c0 + Nat.min len (k * K), len))
                        (seq (S j) n)
               else [])
      /\ (forall rs, res = Ok rs ->
            len <= (j + n) * K
            /\ rs = results
                    ++ replies processor (map (nth_chunk K items) (seq j n)))
      /\ (forall e, res = Throw e ->
            (j + n) * K < len
            /\ processor (nth_chunk K items (j + n)) = Throw e).
Proof.
  induction fuel as [ | fuel IH ];
    intros j this results calls progress HK H1 Hj Hfuel Hcount; [ lia | ].
  cbn [chunk_loop]. rewrite HK.
  destruct (j * K <? len) eqn:Hlt.
  - apply Nat.ltb_lt in Hlt.
    change (slice items (j * K) (j * K + K)) with (nth_chunk K items j).
    destruct (processor (nth_chunk K items j)) as [chunkResults | e] eqn:Hchunk.
    + set (this' := Make K _).
      assert (E : S j * K = j * K + K) by (simpl; lia).
      assert (Hcount' : processedCount this' = c0 + Nat.min len (S j * K)).
      { cbn [this' processedCount]. rewrite nth_chunk_length, Hcount. lia. }
      destruct (IH (S j) this' (results ++ chunkResults)
                   (calls ++ [nth_chunk K items j])
                   (if onProgress
                    then progress ++ [(processedCount this', len)]
                    else progress))
        as [res [trace [n [Hrun [Hcalls [Hafter [Hprog [Hok Hthrow]]]]]]]];
        try reflexivity; try assumption; try lia.
      rewrite E in Hrun. cbn [this' chunkSize] in Hrun.
      exists res, trace, (S n).
      replace (j + S n) with (S j + n) by lia.
      split; [ exact Hrun | ].
      split.
      { rewrite Hcalls, <- app_assoc. destruct (succeeded res); reflexivity. }
      split; [ exact Hafter | ].
      split.
      { rewrite Hprog. destruct onProgress; [ | reflexivity ].
        rewrite <- app_assoc, Hcount'. reflexivity. }
      split.
      { intros rs Hrs. destruct (Hok rs Hrs) as [Hdone Hres].
        split; [ exact Hdone | ].
        rewrite Hres, <- app_assoc. cbn [seq map]. unfold replies at 2.
        cbn [flat_map]. rewrite Hchunk. reflexivity. }
      exact Hthrow.
    + exists (Throw e). eexists. exists 0.
      split; [ reflexivity | ].
      cbn [worker_calls this_after progress_calls succeeded seq map].
      rewrite Nat.add_0_r.
      split; [ reflexivity | ]. split; [ exact Hcount | ].
      split; [ destruct onProgress; rewrite app_nil_r; reflexivity | ].
      split; [ discriminate | ].
      intros e' He. inversion He; subst e'. split; [ exact Hlt | exact Hchunk ].
  - apply Nat.ltb_ge in Hlt.
    exists (Ok results). eexists. exists 0.
    split; [ reflexivity | ].
    cbn [worker_calls this_after progress_calls succeeded seq map].
    rewrite Nat.add_0_r, !app_nil_r.
    split; [ reflexivity | ]. split; [ exact Hcount | ].
    split; [ destruct onProgress; rewrite ?app_nil_r; reflexivity | ].
    split; [ | discriminate ].
    intros rs Hrs. inversion Hrs; subst rs.
    split; [ exact Hlt | reflexivity ].
Qed.

End ChunkTrace.

(** X4. For every chunk size [K >= 1] and every worker, [processInChunks]
    comes to an end.  With [n] the number of worker calls that succeeded,
    the calls made are the first [n] slices of [K] items (and the failing
    one, if any), the counter has grown by the number of items in them,
    and each progress report gives the counter after a chunk.  When no call
    fails the chunks add up to the items, the counter has grown by their
    number and the results are the worker's answers in chunk order,
    however many results it gives per chunk. *)
Theorem chunks_cover_items_for_any_worker
        (T R : Type) (this : StreamProcessor.t) (items : list T)
        (processor : list T -> result (list R)) (onProgress : bool)
        (fuel : nat) :
  1 <= StreamProcessor.chunkSize this ->
  List.length items < fuel ->
  let K := StreamProcessor.chunkSize this in
  exists res trace n,
    StreamProcessor.processInChunks fuel this items processor onProgress
    = Some (res, trace)
    /\ StreamProcessor.worker_calls trace
       = map (Props.nth_chunk K items)
             (seq 0 (if Checks.succeeded res then n else S n))
    /\ StreamProcessor.processedCount (StreamProcessor.this_after trace)
       = StreamProcessor.processedCount this
         + Nat.min (List.length items) (n * K)
    /\ StreamProcessor.progress_calls trace
       = Checks.chunk_reports onProgress
           (StreamProcessor.processedCount this) K (List.length items) n
    /\ (forall rs, res = Ok rs ->
          concat (StreamProcessor.worker_calls trace) = items
          /\ rs = Checks.replies processor (StreamProcessor.worker_calls trace)
          /\ StreamProcessor.processedCount (StreamProcessor.this_after trace)
             = StreamProcessor.processedCount this + List.length items)
    /\ (forall e, res = Throw e ->
          n * K < List.length items
          /\ processor (Props.nth_chunk K items n) = Throw e).
Proof.
  intros HK Hfuel K.
  destruct (chunk_loop_trace T R items processor onProgress K
              (StreamProcessor.processedCount this)
              fuel 0 this [] [] [])
    as [res [trace [n [Hrun [Hcalls [Hafter [Hprog [Hok Hthrow]]]]]]]];
    try reflexivity; try assumption; try (simpl; lia).
  cbn [Nat.add Nat.mul app] in *.
  exists res, trace, n.
  split; [ exact Hrun | ]. split; [ exact Hcalls | ].
  split; [ exact Hafter | ]. split; [ exact Hprog | ].
  split; [ | exact Hthrow ].
  intros rs Hrs. destruct (Hok rs Hrs) as [Hdone Hres]. subst res.
  cbn [Checks.succeeded] in Hcalls.
  split; [ rewrite Hcalls, concat_chunks; apply firstn_all2; exact Hdone | ].
  split; [ rewrite Hcalls; exact Hres | ].
  rewrite Hafter. lia.
Qed.

Lemma chunks_cover_items_for_any_worker_witness :
  let this := StreamProcessor.constructor (Some 2) in
  let items := [1; 2; 3; 4; 5]%Z in
  let processor := StreamProcessor.lift Props.sample_worker in
  exists res trace n,
    StreamProcessor.processInChunks 6 this items processor true
    = Some (res, trace)
    /\ StreamProcessor.worker_calls trace
       = map (Props.nth_chunk 2 items)
             (seq 0 (if Checks.succeeded res then n else S n))
    /\ StreamProcessor.processedCount (StreamProcessor.this_after trace)
       = 0 + Nat.min 5 (n * 2)
    /\ StreamProcessor.progress_calls trace
       = Checks.chunk_reports true 0 2 5 n
    /\ (forall rs, res = Ok rs ->
          concat (StreamProcessor.worker_calls trace) = items
          /\ rs = Checks.replies processor (StreamProcessor.worker_calls trace)
          /\ StreamProcessor.processedCount (StreamProcessor.this_after trace)
             = 0 + 5)
    /\ (forall e, res = Throw e ->
          n * 2 < 5
          /\ processor (Props.nth_chunk 2 items n) = Throw e).
Proof.
  apply (chunks_cover_items_for_any_worker Z Z
           (StreamProcessor.constructor (Some 2)) [1; 2; 3; 4; 5]%Z
           (StreamProcessor.lift Props.sample_worker) true 6).
  - simpl. lia.
  - simpl. lia.
Defined.

(** ** The names of evidence artifacts *)

Section EvidenceNames.
Import RegExp Matching FileCleanup Checks.

Lemma chr_matches c c' : in_set false (Ranges [(c, c)]) c' = true <-> c' = c.
Proof.
  unfold in_set, in_ranges, in_range. cbn [existsb fst snd].
  rewrite orb_false_r, andb_true_iff, !N.leb_le. unfold code. split.
  - intros [H1 H2].
    rewrite <- (ascii_N_embedding c), <- (ascii_N_embedding c').
    f_equal. lia.
  - intros ->. lia.
Qed.

Lemma lit_matches s :
  forall p w after, Matches false (lit s) p w after <-> w = s.
Proof.
  induction s as [ | c tl IH ]; intros p w after.
  - reflexivity.
  - destruct tl as [ | c2 tl2 ].
    + cbn [lit chr Matches]. split.
      * intros [c' [Hw Hin]]. apply chr_matches in Hin. subst. reflexivity.
      * intros ->. exists c. split; [ reflexivity | apply chr_matches; reflexivity ].
    + change (lit (String c (String c2 tl2)))
        with (Seq (chr c) (lit (String c2 tl2))).
      cbn [Matches chr]. split.
      * intros [w1 [w2 [Hw [[c' [Hw1 Hin]] Htl]]]].
        apply chr_matches in Hin. apply IH in Htl. subst. reflexivity.
      * intros ->. exists (String c ""), (String c2 tl2).
        split; [ reflexivity | ].
        split; [ exists c; split; [ reflexivity | apply chr_matches; reflexivity ] | ].
        apply IH. reflexivity.
Qed.

Lemma dot_matches c :
  in_set false (NotRanges [one (ascii_of_N 10); one (ascii_of_N 13)]) c
  = negb (line_terminator c).
Proof. reflexivity. Qed.

Lemma star_dot_sound mn mx p w after :
  Reps (Matches false dot) mn mx p w after -> no_line_break w = true.
Proof.
  intros H. induction H as [ | mn mx p w1 w2 after Hmx [c [Hw1 Hin]] Hne _ IH ].
  - reflexivity.
  - subst w1. unfold dot in Hin. rewrite dot_matches in Hin.
    unfold no_line_break in *. cbn [String.append string_forall].
    rewrite Hin, IH. reflexivity.
Qed.

Lemma star_dot_complete w :
  forall p after,
    no_line_break w = true -> Reps (Matches false dot) 0 None p w after.
Proof.
  induction w as [ | c tl IH ]; intros p after Hw.
  - apply reps_done. right. reflexivity.
  - unfold no_line_break in Hw. cbn [string_forall] in Hw.
    apply andb_true_iff in Hw. destruct Hw as [Hc Htl].
    change (String c tl) with (String c "" +++ tl).
    apply reps_step.
    + discriminate.
    + exists c. split; [ reflexivity | ]. unfold dot. rewrite dot_matches.
      exact Hc.
    + discriminate.
    + apply IH. exact Htl.
Qed.

(** A pattern that opens with [^] matches at the start of the input or
    nowhere. *)
Lemma anchored_search ic r c s :
  search_from (RegExp.Make (Seq Bol r) false ic) (Some c) s = false.
Proof.
  induction s as [ | c' tl IH ] in c |- *; cbn [search_from];
    unfold exec_at; cbn [m source ignoreCase prev]; [ reflexivity | apply IH ].
Qed.

Lemma anchored_test ic r s :
  test (RegExp.Make (Seq Bol r) false ic) s = true
  <-> exec_at (RegExp.Make (Seq Bol r) false ic) None s <> None.
Proof.
  unfold test. destruct s as [ | c tl ]; cbn [search_from];
    destruct (exec_at _ None _) as [ y | ];
    rewrite ?anchored_search; split; congruence.
Qed.

Lemma glob_test pre suf file :
  test (glob pre suf) file = true <-> named pre suf file.
Proof.
  unfold glob. rewrite anchored_test. split.
  - intros Hex.
    destruct (exec_at _ None file) as [[n cs] | ] eqn:Hrun; [ | congruence ].
    apply exec_at_sound in Hrun.
    destruct Hrun as [w [after [Hfile [_ Hm]]]].
    cbn [source ignoreCase Matches] in Hm.
    destruct Hm as [w1 [w2 [Hw [[Hw1 _] Hm]]]].
    destruct Hm as [w3 [w4 [Hw2 [Hpre Hm]]]].
    destruct Hm as [w5 [w6 [Hw4 [Hmid Hm]]]].
    destruct Hm as [w7 [w8 [Hw6 [Hsuf [Hw8 Hafter]]]]].
    apply lit_matches in Hpre. apply lit_matches in Hsuf.
    apply star_dot_sound in Hmid.
    exists w5. split; [ exact Hmid | ].
    subst. cbn [String.append]. rewrite !append_nil_r. reflexivity.
  - intros [mid [Hmid Hfile]].
    replace file with ((pre +++ mid +++ suf) +++ "")
      by (rewrite append_nil_r; symmetry; exact Hfile).
    apply exec_at_complete. cbn [source ignoreCase Matches].
    exists "", (pre +++ mid +++ suf).
    split; [ reflexivity | ]. split; [ split; reflexivity | ].
    exists pre, (mid +++ suf).
    split; [ reflexivity | ]. split; [ apply lit_matches; reflexivity | ].
    exists mid, suf.
    split; [ reflexivity | ].
    split; [ apply star_dot_complete; exact Hmid | ].
    exists suf, "".
    split; [ rewrite append_nil_r; reflexivity | ].
    split; [ apply lit_matches; reflexivity | split; reflexivity ].
Qed.

(** X5. A directory entry counts as an evidence artifact exactly when its
    whole name is [evidence_], [mapping_] or [evidence_pack_], then any
    text without a line break, then [.pdf], [.csv] or [.zip]
    respectively. *)
Theorem evidence_names_are_the_three_shapes (file : string) :
  isEvidenceFile file = true
  <-> named "evidence_" ".pdf" file
      \/ named "mapping_" ".csv" file
      \/ named "evidence_pack_" ".zip" file.
Proof.
  unfold isEvidenceFile, evidenceFilePatterns. cbn [existsb].
  rewrite orb_false_r, !orb_true_iff.
  change (test (glob "evidence_" ".pdf") file = true
          \/ test (glob "mapping_" ".csv") file = true
          \/ test (glob "evidence_pack_" ".zip") file = true
          <-> named "evidence_" ".pdf" file
              \/ named "mapping_" ".csv" file
              \/ named "evidence_pack_" ".zip" file).
  rewrite !glob_test. reflexivity.
Qed.

End EvidenceNames.

(** ** What a cleanup run counts, and a second run *)

Section CleanupAccounts.
Import FileCleanup Props Checks.

Ltac next_entry :=
  match goal with
  | Hnext : forall result', _ |- context [scan _ _ ?r _] => exact (Hnext r)
  end.

Ltac counted_next :=
  match goal with
  | Hnext : forall result', _ |- context [scan _ _ ?r _] =>
      let Hscanned := fresh "Hscanned" in
      let Herrors := fresh "Herrors" in
      destruct (Hnext r) as [Hscanned Herrors]; rewrite Hscanned, Herrors
  end.

Lemma scan_counts cutoffTime todo :
  forall pre result,
    NoDup (map name (pre ++ todo)) ->
    let out := scan (map name todo) cutoffTime result (pre ++ todo) in
    filesScanned (fst out)
    = filesScanned result + List.length (filter evidence_named todo)
    /\ errors (fst out)
       = errors result ++ flat_map (error_lines cutoffTime) todo.
Proof.
  induction todo as [ | f tl IH ]; intros pre result Hnd; cbn zeta.
  - simpl. rewrite app_nil_r, Nat.add_0_r. auto.
  - assert (Hnext : forall result',
               let out := scan (map name tl) cutoffTime result'
                               (pre ++ f :: tl) in
               filesScanned (fst out)
               = filesScanned result'
                 + List.length (filter evidence_named tl)
               /\ errors (fst out)
                  = errors result' ++ flat_map (error_lines cutoffTime) tl).
    { intros result'.
      replace (pre ++ f :: tl) with ((pre ++ [f]) ++ tl)
        by (rewrite <- app_assoc; reflexivity).
      apply IH. rewrite <- app_assoc. exact Hnd. }
    assert (Hfind : find_file (name f) (pre ++ f :: tl) = Some f).
    { apply find_file_skip; [ | reflexivity ].
      rewrite map_app in Hnd. simpl in Hnd.
      pose proof (NoDup_remove_2 _ _ _ Hnd) as Hnot.
      rewrite in_app_iff in Hnot. tauto. }
    cbn [map scan filter flat_map].
    unfold error_lines at 1, failure, evidence_named at 1.
    destruct (isEvidenceFile (name f)) eqn:Hev; cbn [negb].
    + unfold statSync, unlinkSync. rewrite Hfind.
      destruct (stat_error f) as [msg | ] eqn:Hstat.
      * counted_next. cbn [filesScanned errors message List.length app].
        rewrite <- app_assoc. split; [ lia | reflexivity ].
      * destruct (mtime f <? cutoffTime)%Z eqn:Hold.
        -- destruct (unlink_error f) as [msg | ] eqn:Hunlink.
           ++ counted_next. cbn [filesScanned errors message List.length app].
              rewrite <- app_assoc. split; [ lia | reflexivity ].
           ++ rewrite (unlink_one pre f tl Hnd).
              assert (Hnd' : NoDup (map name (pre ++ tl))).
              { rewrite map_app in *. simpl in Hnd.
                apply NoDup_remove_1 in Hnd. exact Hnd. }
              match goal with
              | |- context [scan _ _ ?r _] =>
                  destruct (IH pre r Hnd') as [Hscanned Herrors]
              end.
              rewrite Hscanned, Herrors.
              cbn [filesScanned errors List.length app].
              split; [ lia | reflexivity ].
        -- counted_next. cbn [filesScanned errors List.length app].
           split; [ lia | reflexivity ].
    + cbn [app]. exact (Hnext result).
Qed.

(** Every evidence artifact by name is removed, fails or is recent. *)
Lemma three_fates cutoffTime fs :
  List.length (filter evidence_named fs)
  = List.length (filter (removed cutoffTime) fs)
    + List.length (flat_map (error_lines cutoffTime) fs)
    + List.length (filter (recent cutoffTime) fs).
Proof.
  induction fs as [ | f tl IH ]; [ reflexivity | ].
  cbn [filter flat_map]. rewrite length_app.
  unfold evidence_named at 1, removed at 1, recent at 1, error_lines at 1,
    failure.
  destruct (isEvidenceFile (name f)); cbn [andb List.length]; [ | exact IH ].
  destruct (stat_error f); cbn [is_none andb List.length]; [ lia | ].
  destruct (mtime f <? cutoffTime)%Z; cbn [andb negb List.length]; [ | lia ].
  destruct (unlink_error f); cbn [is_none List.length]; lia.
Qed.

(** X6. A cleanup run counts as scanned every entry whose name is that of
    an evidence artifact, and each of them is accounted for once: it was
    deleted, or it is reported in [errors] with the message of the failed
    [statSync] or [unlinkSync] call, or it is not older than the cutoff. *)
Theorem cleanup_accounts_for_every_artifact
        (this : FileCleanup.t) (now : Z) (fs : list file) :
  NoDup (map name fs) ->
  let result := fst (cleanupOldFiles this now (Listing fs)) in
  filesScanned result = List.length (filter evidence_named fs)
  /\ errors result = flat_map (error_lines (cutoff this now)) fs
  /\ filesScanned result
     = filesDeleted result + List.length (errors result)
       + List.length (filter (recent (cutoff this now)) fs).
Proof.
  intros Hnd result.
  destruct (scan_spec (cutoff this now) fs [] empty_result Hnd)
    as [_ [_ [Hcount _]]].
  destruct (scan_counts (cutoff this now) fs [] empty_result Hnd)
    as [Hscanned Herrors].
  cbn [app empty_result filesScanned filesDeleted errors Nat.add]
    in Hcount, Hscanned, Herrors.
  unfold result, cleanupOldFiles. fold (cutoff this now).
  destruct (scan (map name fs) (cutoff this now) empty_result fs)
    as [r fs'] eqn:Hscan.
  cbn [fst snd] in *.
  split; [ exact Hscanned | ]. split; [ exact Herrors | ].
  rewrite Hscanned, Hcount, Herrors. apply three_fates.
Qed.

Lemma NoDup_names_filter (p : file -> bool) fs :
  NoDup (map name fs) -> NoDup (map name (filter p fs)).
Proof.
  induction fs as [ | f tl IH ]; cbn [map filter]; intros Hnd; [ constructor | ].
  inversion Hnd as [ | x l Hnot Hnd' ]; subst.
  destruct (p f); cbn [map]; [ constructor | ]; try (apply IH; exact Hnd').
  intros Hin. apply Hnot. apply in_map_iff in Hin.
  destruct Hin as [g [Hg Hin]]. apply filter_In in Hin.
  apply in_map_iff. exists g. tauto.
Qed.

Lemma filter_kept_twice cutoffTime fs :
  filter (kept cutoffTime) (filter (kept cutoffTime) fs)
  = filter (kept cutoffTime) fs
  /\ filter (removed cutoffTime) (filter (kept cutoffTime) fs) = []
  /\ flat_map (error_lines cutoffTime) (filter (kept cutoffTime) fs)
     = flat_map (error_lines cutoffTime) fs.
Proof.
  induction fs as [ | f tl [IH1 [IH2 IH3]] ]; [ auto | ].
  cbn [filter flat_map].
  destruct (removed cutoffTime f) eqn:Hr.
  - assert (Hk : kept cutoffTime f = false)
      by (unfold kept; rewrite Hr; reflexivity).
    rewrite Hk.
    split; [ exact IH1 | ]. split; [ exact IH2 | ]. rewrite IH3.
    unfold removed in Hr. unfold error_lines at 2, failure.
    repeat (apply andb_prop in Hr; destruct Hr as [Hr ?]).
    rewrite Hr.
    destruct (stat_error f); [ discriminate | ].
    destruct (mtime f <? cutoffTime)%Z; [ | discriminate ].
    destruct (unlink_error f); [ discriminate | reflexivity ].
  - assert (Hk : kept cutoffTime f = true)
      by (unfold kept; rewrite Hr; reflexivity).
    rewrite Hk. cbn [filter flat_map]. rewrite Hk, Hr, IH1, IH3.
    split; [ reflexivity | ]. split; [ exact IH2 | reflexivity ].
Qed.

(** X7. A second cleanup run at the same time removes nothing: it leaves
    the directory as the first run left it, deletes no file, frees no
    byte, and reports again the failures the first run reported. *)
Theorem second_cleanup_removes_nothing
        (this : FileCleanup.t) (now : Z) (fs : list file) :
  NoDup (map name fs) ->
  let first := cleanupOldFiles this now (Listing fs) in
  let second := cleanupOldFiles this now (snd first) in
  snd second = snd first
  /\ filesDeleted (fst second) = 0
  /\ deletedFiles (fst second) = []
  /\ totalSizeFreed (fst second) = 0%Z
  /\ errors (fst second) = errors (fst first)
  /\ filesScanned (fst second)
     = filesScanned (fst first) - filesDeleted (fst first).
Proof.
  intros Hnd first second.
  set (c := cutoff this now).
  destruct (scan_spec c fs [] empty_result Hnd)
    as [Hfs [_ [Hcount _]]].
  destruct (scan_counts c fs [] empty_result Hnd) as [Hscanned Herrors].
  pose proof (NoDup_names_filter (kept c) fs Hnd) as Hnd2.
  destruct (scan_spec c (filter (kept c) fs) [] empty_result Hnd2)
    as [Hfs2 [Hnames2 [Hcount2 Hsize2]]].
  destruct (scan_counts c (filter (kept c) fs) [] empty_result Hnd2)
    as [Hscanned2 Herrors2].
  destruct (filter_kept_twice c fs) as [Hkk [Hrk Hek]].
  rewrite Hkk in Hfs2. rewrite Hrk in Hnames2, Hcount2, Hsize2.
  rewrite Hek in Herrors2.
  cbn [app empty_result filesScanned filesDeleted deletedFiles totalSizeFreed
       errors Nat.add map List.length total_size fold_right]
    in Hfs, Hcount, Hscanned, Herrors, Hfs2, Hnames2, Hcount2, Hsize2,
       Hscanned2, Herrors2.
  unfold second, first, cleanupOldFiles. fold (cutoff this now). fold c.
  destruct (scan (map name fs) c empty_result fs) as [r1 fs1] eqn:Hscan1.
  cbn [fst snd] in *. subst fs1.
  destruct (scan (map name (filter (kept c) fs)) c empty_result
                 (filter (kept c) fs)) as [r2 fs2] eqn:Hscan2.
  cbn [fst snd] in *. subst fs2.
  split; [ reflexivity | ]. split; [ exact Hcount2 | ].
  split; [ exact Hnames2 | ]. split; [ exact Hsize2 | ].
  split; [ rewrite Herrors2, Herrors; reflexivity | ].
  rewrite Hscanned2, Hscanned, Hcount.
  pose proof (three_fates c fs) as H3.
  pose proof (three_fates c (filter (kept c) fs)) as H4.
  rewrite Hrk, Hek in H4. cbn [List.length Nat.add] in H4.
  assert (Hrecent : filter (recent c) (filter (kept c) fs)
                    = filter (recent c) fs).
  { clear. induction fs as [ | f tl IH ]; [ reflexivity | ].
    cbn [filter].
    destruct (removed c f) eqn:Hr.
    - assert (Hk : kept c f = false)
        by (unfold kept; rewrite Hr; reflexivity).
      rewrite Hk, IH. unfold recent at 2. unfold removed in Hr.
      repeat (apply andb_prop in Hr; destruct Hr as [Hr ?]).
      rewrite Hr.
      destruct (stat_error f); [ discriminate | ].
      destruct (mtime f <? c)%Z; [ reflexivity | discriminate ].
    - assert (Hk : kept c f = true)
        by (unfold kept; rewrite Hr; reflexivity).
      rewrite Hk. cbn [filter]. rewrite IH. reflexivity. }
  rewrite Hrecent in H4. lia.
Qed.

End CleanupAccounts.

Lemma cleanup_accounts_for_every_artifact_witness :
  let this := FileCleanup.constructor None None in
  let now := 100000000%Z in
  let fs := Props.sample_directory in
  let result :=
    fst (FileCleanup.cleanupOldFiles this now (FileCleanup.Listing fs)) in
  FileCleanup.filesScanned result
  = List.length (filter Checks.evidence_named fs)
  /\ FileCleanup.errors result
     = flat_map (Checks.error_lines (Props.cutoff this now)) fs
  /\ FileCleanup.filesScanned result
     = FileCleanup.filesDeleted result
       + List.length (FileCleanup.errors result)
       + List.length (filter (Checks.recent (Props.cutoff this now)) fs).
Proof.
  apply (cleanup_accounts_for_every_artifact
           (FileCleanup.constructor None None) 100000000%Z
           Props.sample_directory).
  simpl. repeat constructor; simpl; intuition discriminate.
Defined.

Lemma second_cleanup_removes_nothing_witness :
  let this := FileCleanup.constructor None None in
  let now := 100000000%Z in
  let first :=
    FileCleanup.cleanupOldFiles this now
      (FileCleanup.Listing Props.sample_directory) in
  let second := FileCleanup.cleanupOldFiles this now (snd first) in
  snd second = snd first
  /\ FileCleanup.filesDeleted (fst second) = 0
  /\ FileCleanup.deletedFiles (fst second) = []
  /\ FileCleanup.totalSizeFreed (fst second) = 0%Z
  /\ FileCleanup.errors (fst second) = FileCleanup.errors (fst first)
  /\ FileCleanup.filesScanned (fst second)
     = FileCleanup.filesScanned (fst first)
       - FileCleanup.filesDeleted (fst first).
Proof.
  apply (second_cleanup_removes_nothing
           (FileCleanup.constructor None None) 100000000%Z
           Props.sample_directory).
  simpl. repeat constructor; simpl; intuition discriminate.
Defined.

(** ** The name of the archive *)

Section ClassReplace.
Import RegExp Matching Checks.

Variable cs : charset.
Variable c' : ascii.

Hypothesis plain :
  forall ng matched before after caps,
    expand (String c' "") ng matched before after caps = String c' "".

Local Notation "'class'" := (RegExp.Make (Chars cs) true false).

Lemma exec_class_end p : exec_at class p "" = None.
Proof. reflexivity. Qed.

Lemma exec_class p c tl :
  exec_at class p (String c tl)
  = if in_set false cs c then Some (1, []) else None.
Proof.
  unfold exec_at. cbn [m source ignoreCase rest caps].
  destruct (in_set false cs c); [ | reflexivity ].
  cbn [rest caps String.length].
  replace (S (String.length tl) - String.length tl) with 1 by lia.
  reflexivity.
Qed.

(** Replacing every code unit of a class by one code unit is a map over
    the code units. *)
Lemma replace_class fuel :
  forall before p s,
    String.length s < fuel ->
    replace_from class (String c' "") fuel before p s
    = map_units (fun c => if in_set false cs c then c' else c) s.
Proof.
  induction fuel as [ | fuel IH ]; intros before p s Hfuel; [ lia | ].
  destruct s as [ | c tl ].
  - cbn [replace_from]. rewrite exec_class_end. reflexivity.
  - cbn [replace_from map_units]. rewrite exec_class.
    cbn [String.length] in Hfuel.
    destruct (in_set false cs c).
    + assert (Hd : drop 1 (String c tl) = tl)
        by exact (drop_append (String c "") tl).
      cbn [global]. rewrite plain, Hd.
      cbn [String.append]. f_equal. apply IH. lia.
    + f_equal. apply IH. lia.
Qed.

End ClassReplace.

Section ArchiveNames.
Import RegExp Matching FileCleanup ArchiveName Checks.

Lemma map_units_length f s : String.length (map_units f s) = String.length s.
Proof. induction s as [ | c tl IH ]; simpl; [ | rewrite IH ]; reflexivity. Qed.

Lemma map_units_forall (P Q : ascii -> bool) f s :
  forallb (fun c => implb (Q c) (P (f c))) all_ascii = true ->
  string_forall Q s = true -> string_forall P (map_units f s) = true.
Proof.
  intros Hall. rewrite forallb_forall in Hall.
  induction s as [ | c tl IH ]; cbn [string_forall map_units];
    [ reflexivity | ].
  intros H. apply andb_true_iff in H. destruct H as [Hc Htl].
  specialize (Hall c (in_all_ascii c)). rewrite Hc in Hall.
  cbn [implb] in Hall. rewrite Hall, IH by exact Htl. reflexivity.
Qed.

Lemma string_forall_weaken (P Q : ascii -> bool) s :
  forallb (fun c => implb (Q c) (P c)) all_ascii = true ->
  string_forall Q s = true -> string_forall P s = true.
Proof.
  intros Hall. rewrite forallb_forall in Hall.
  induction s as [ | c tl IH ]; cbn [string_forall]; [ reflexivity | ].
  intros H. apply andb_true_iff in H. destruct H as [Hc Htl].
  specialize (Hall c (in_all_ascii c)). rewrite Hc in Hall.
  cbn [implb] in Hall. rewrite Hall, IH by exact Htl. reflexivity.
Qed.

Lemma string_forall_true s : string_forall (fun _ => true) s = true.
Proof. induction s as [ | c tl IH ]; [ reflexivity | exact IH ]. Qed.

Lemma email_part email :
  replace email not_alphanumeric "_"
  = map_units (fun c => if in_set false
                             (NotRanges [("a","z"); ("A","Z"); ("0","9")]%char) c
                        then "_"%char else c) email.
Proof.
  unfold replace, not_alphanumeric. apply replace_class; [ reflexivity | lia ].
Qed.

Lemma iso_part iso :
  replace iso colon_or_dot "-"
  = map_units (fun c => if in_set false
                             (Ranges [one ":"; one "."]%char) c
                        then "-"%char else c) iso.
Proof.
  unfold replace, colon_or_dot. apply replace_class; [ reflexivity | lia ].
Qed.

(** X8. The archive that [run] creates for any address, at any time stamp
    in the format of [toISOString], has a name that the start-up cleanup
    recognises as an evidence artifact; the name is made of letters,
    digits, [_], [-], [+] and [.] only, whatever the address holds, and is
    19 code units longer than the address and the time stamp together. *)
Theorem archive_name_is_an_evidence_name (email iso : string) :
  string_forall iso_units iso = true ->
  isEvidenceFile (archiveName email iso) = true
  /\ string_forall name_units (archiveName email iso) = true
  /\ String.length (archiveName email iso)
     = 19 + String.length email + String.length iso.
Proof.
  intros Hiso. unfold archiveName. rewrite email_part, iso_part.
  set (E := map_units _ email). set (I := map_units _ iso).
  assert (HE : string_forall name_units E = true).
  { apply (map_units_forall name_units (fun _ => true));
      [ vm_compute; reflexivity | apply string_forall_true ]. }
  assert (HI : string_forall name_units I = true).
  { apply (map_units_forall name_units iso_units);
      [ vm_compute; reflexivity | exact Hiso ]. }
  split; [ | split ].
  - unfold isEvidenceFile, evidenceFilePatterns. cbn [existsb].
    change (RegExp.Make
              (Seq Bol (Seq (lit "evidence_pack_")
                            (Seq (star dot) (Seq (lit ".zip") Eol))))
              false false)
      with (glob "evidence_pack_" ".zip").
    assert (Hglob : test (glob "evidence_pack_" ".zip")
                         ("evidence_pack_" +++ E +++ "_" +++ I +++ ".zip")
                    = true).
    { apply glob_test. exists (E +++ "_" +++ I). split.
      - unfold no_line_break.
        apply (string_forall_weaken _ name_units);
          [ vm_compute; reflexivity | ].
        rewrite !string_forall_append, HE, HI. reflexivity.
      - rewrite !append_assoc. reflexivity. }
    rewrite Hglob, !orb_true_r. reflexivity.
  - rewrite !string_forall_append, HE, HI. reflexivity.
  - rewrite !append_length. unfold E, I. rewrite !map_units_length.
    cbn [String.length]. lia.
Qed.

End ArchiveNames.

Lemma archive_name_is_an_evidence_name_witness :
  Matching.string_forall Checks.iso_units "2024-01-01T00:00:00.000Z" = true
  /\ FileCleanup.isEvidenceFile
       (ArchiveName.archiveName "user@example.com" "2024-01-01T00:00:00.000Z")
     = true
  /\ Matching.string_forall Checks.name_units
       (ArchiveName.archiveName "user@example.com" "2024-01-01T00:00:00.000Z")
     = true
  /\ String.length
       (ArchiveName.archiveName "user@example.com" "2024-01-01T00:00:00.000Z")
     = 19 + String.length "user@example.com"
       + String.length "2024-01-01T00:00:00.000Z".
Proof.
  split; [ reflexivity | ].
  apply (archive_name_is_an_evidence_name
           "user@example.com" "2024-01-01T00:00:00.000Z").
  reflexivity.
Defined.

(** ** Field paths and the request to the reasoning service *)

Section FieldPathShape.
Import GDPRClassifier Props Checks.

Lemma extract_object entries prefix :
  extractFieldPaths (VObj entries) prefix = paths_loop prefix entries [].
Proof.
  enough (H : forall fields,
             (fix loop (es : list (string * value)) (fields : list string)
                  {struct es} : list string :=
                match es with
                | [] => fields
                | (key, v) :: tl =>
                    let fieldPath :=
                      if negb (String.eqb prefix "")
                      then prefix +++ "." +++ key else key in
                    let fields := fields ++ [fieldPath] in
                    let fields :=
                      if is_object v && (List.length (split_dot prefix) <? 3)
                      then fields ++ extractFieldPaths v fieldPath
                      else fields in
                    loop tl fields
                end) entries fields
             = paths_loop prefix entries fields)
    by exact (H []).
  induction entries as [ | [key v] tl IH ]; intros fields; [ reflexivity | ].
  cbn [paths_loop]. rewrite <- IH. reflexivity.
Qed.

Lemma paths_loop_app prefix es :
  forall fields,
    paths_loop prefix es fields = fields ++ paths_loop prefix es [].
Proof.
  induction es as [ | [key v] tl IH ]; intros fields; cbn [paths_loop].
  - rewrite app_nil_r. reflexivity.
  - cbv zeta. rewrite IH. symmetry. rewrite IH.
    destruct (is_object v && (List.length (split_dot prefix) <? 3));
      rewrite <- ?app_assoc; reflexivity.
Qed.

Lemma extract_empty_iff obj prefix :
  extractFieldPaths obj prefix = [] <-> fieldless obj = true.
Proof.
  destruct obj as [ | | b | n | s | [ | first tl ] | [ | [key v] tl ] ];
    try (split; reflexivity).
  - split; [ | discriminate ]. cbn [extractFieldPaths].
    destruct (is_object first); discriminate.
  - split; [ | discriminate ]. rewrite extract_object. cbn [paths_loop].
    cbv zeta. rewrite paths_loop_app.
    destruct (is_object v && (List.length (split_dot prefix) <? 3));
      cbn [app]; discriminate.
Qed.

Variable JSON_stringify : list string -> value -> string.
Variable JSON_parse : string -> result value.
Variable getSystemPrompt : string.
Variable create : Request -> result (option string).
Variable startTime endTime : Z.

Local Notation "'classify'" :=
  (classifyData JSON_stringify JSON_parse getSystemPrompt create
                startTime endTime).

(** X9. [classifyData] sends no request exactly when the data is null,
    undefined, a scalar, the empty array or the empty object, and it then
    returns the empty result; on any other data it sends exactly one
    request, to the model [gpt-4o], whatever the outcome.  Every failure
    it reports is an [Error] whose message begins with
    [GDPR classification failed: ]. *)
Theorem one_request_unless_no_fields (data : value) :
  (snd (classify data) = [] <-> fieldless data = true)
  /\ (fieldless data = true ->
      classify data = (Ok (empty_classification startTime endTime), []))
  /\ (fieldless data = false ->
      exists request,
        snd (classify data) = [request] /\ model request = "gpt-4o")
  /\ (forall e, fst (classify data) = Throw e ->
        exists msg,
          e = Error ("GDPR classification failed: " +++ msg)).
Proof.
  pose proof (extract_empty_iff data "") as Hiff.
  unfold classifyData.
  destruct (extractFieldPaths data "") as [ | p ps ] eqn:Hfp;
    cbn [List.length Nat.eqb fst snd].
  - assert (Hf : fieldless data = true) by (apply Hiff; reflexivity).
    rewrite Hf.
    split; [ split; reflexivity | ].
    split; [ reflexivity | ].
    split; [ discriminate | ]. intros e He. discriminate.
  - assert (Hf : fieldless data = false).
    { destruct (fieldless data); [ | reflexivity ].
      destruct Hiff as [_ H]. discriminate (H eq_refl). }
    rewrite Hf.
    split; [ split; discriminate | ].
    split; [ discriminate | ].
    split; [ intros _; eexists; split; reflexivity | ].
    intros e He.
    match type of He with
    | match ?body with _ => _ end = _ => destruct body as [r | e']
    end; [ discriminate | ].
    inversion He. eexists. reflexivity.
Qed.

Lemma filter_r_null cs :
  In VNull cs -> forallb defined cs = true ->
  filter_r is_valid cs
  = Throw (TypeError "Cannot read properties of null (reading 'field')").
Proof.
  induction cs as [ | c tl IH ]; intros Hin Hdef; [ destruct Hin | ].
  cbn [forallb] in Hdef. apply andb_true_iff in Hdef.
  destruct Hdef as [Hc Htl]. cbn [filter_r].
  destruct (nullish c) eqn:Hnull.
  - destruct c; try discriminate. reflexivity.
  - rewrite (is_valid_complete c Hnull). cbn [bind].
    destruct Hin as [Hin | Hin]; [ subst c; discriminate | ].
    rewrite (IH Hin Htl). reflexivity.
Qed.

(** X10. A reply that parses as a sequence holding a [null] record makes
    the whole classification fail, with the message of the failed read of
    [field]: the record is not dropped as an incomplete one is.  So does a
    reply that parses as an object, such as one that wraps the sequence:
    the failure is that [filter] is not a function. *)
Theorem null_record_fails_the_classification
        (data : value) (c0 : ascii) (content : string) (parsed : value) :
  fieldless data = false ->
  (forall request, create request = Ok (Some (String c0 content))) ->
  JSON_parse (String c0 content) = Ok parsed ->
  (forall cs, parsed = VArr cs -> In VNull cs -> forallb defined cs = true ->
     fst (classify data)
     = Throw (Error ("GDPR classification failed: "
                     +++ "Cannot read properties of null (reading 'field')")))
  /\ (forall entries, parsed = VObj entries ->
        fst (classify data)
        = Throw (Error ("GDPR classification failed: "
                        +++ "classifications.filter is not a function"))).
Proof.
  intros Hdata Hcreate Hparse.
  assert (Hfp : extractFieldPaths data "" <> []).
  { intros H. apply extract_empty_iff in H. congruence. }
  unfold classifyData.
  destruct (extractFieldPaths data "") as [ | p ps ]; [ congruence | ].
  cbn [List.length Nat.eqb fst]. rewrite Hcreate. cbn [bind].
  rewrite Hparse. split.
  - intros cs -> Hin Hdef. unfold summarize.
    rewrite (filter_r_null cs Hin Hdef). reflexivity.
  - intros entries ->. reflexivity.
Qed.

End FieldPathShape.

Lemma null_record_fails_the_classification_witness :
  let data := VObj [("email", VStr "[REDACTED]")] in
  let create := fun _ : GDPRClassifier.Request => Ok (Some "[null]") in
  let JSON_parse := fun _ : string => Ok (VArr [VNull]) in
  let classify :=
    GDPRClassifier.classifyData (fun _ _ => "{}") JSON_parse "prompt" create
                                0%Z 5%Z in
  Checks.fieldless data = false
  /\ (forall request, create request = Ok (Some "[null]"))
  /\ JSON_parse "[null]" = Ok (VArr [VNull])
  /\ (forall cs, VArr [VNull] = VArr cs -> In VNull cs ->
        forallb Checks.defined cs = true ->
        fst (classify data)
        = Throw (Error ("GDPR classification failed: "
                        +++ "Cannot read properties of null (reading 'field')")))
  /\ (forall entries, VArr [VNull] = VObj entries ->
        fst (classify data)
        = Throw (Error ("GDPR classification failed: "
                        +++ "classifications.filter is not a function"))).
Proof.
  split; [ reflexivity | ]. split; [ reflexivity | ].
  split; [ reflexivity | ].
  apply (null_record_fails_the_classification
           (fun _ _ => "{}") (fun _ : string => Ok (VArr [VNull])) "prompt"
           (fun _ : GDPRClassifier.Request => Ok (Some "[null]")) 0%Z 5%Z
           (VObj [("email", VStr "[REDACTED]")]) "["%char "null]"
           (VArr [VNull])).
  - reflexivity.
  - reflexivity.
  - reflexivity.
Defined.

(** ** The articles of the summary *)

Section Articles.
Import GDPRClassifier Props Checks.

Lemma same_value_zero_sym a b : same_value_zero a b = same_value_zero b a.
Proof.
  destruct a, b; cbn [same_value_zero]; try reflexivity.
  - destruct b, b0; reflexivity.
  - apply Z.eqb_sym.
  - apply String.eqb_sym.
Qed.

Lemma same_value_zero_eq a b : same_value_zero a b = true -> a = b.
Proof.
  destruct a, b; cbn [same_value_zero]; try discriminate; try reflexivity.
  - intros H. apply Bool.eqb_prop in H. congruence.
  - intros H. apply Z.eqb_eq in H. congruence.
  - intros H. apply String.eqb_eq in H. congruence.
Qed.

Lemma pairwise_distinct_snoc seen x :
  pairwise_distinct seen = true ->
  existsb (same_value_zero x) seen = false ->
  pairwise_distinct (seen ++ [x]) = true.
Proof.
  induction seen as [ | y tl IH ]; cbn [pairwise_distinct existsb app];
    intros Hd Hx; [ reflexivity | ].
  apply andb_true_iff in Hd. destruct Hd as [Hy Htl].
  apply orb_false_iff in Hx. destruct Hx as [Hxy Hxtl].
  rewrite existsb_app. cbn [existsb].
  apply negb_true_iff in Hy. rewrite Hy, same_value_zero_sym, Hxy.
  cbn [orb negb andb]. apply IH; assumption.
Qed.

Lemma set_to_array_spec xs :
  forall seen,
    pairwise_distinct seen = true ->
    pairwise_distinct (set_to_array xs seen) = true
    /\ (forall x, In x seen \/ In x xs -> In x (set_to_array xs seen))
    /\ (forall x, In x (set_to_array xs seen) -> In x seen \/ In x xs)
    /\ List.length (set_to_array xs seen)
       <= List.length seen + List.length xs.
Proof.
  induction xs as [ | x tl IH ]; intros seen Hseen; cbn [set_to_array].
  - split; [ exact Hseen | ].
    split; [ intros x [H | []]; exact H | ].
    split; [ intros x H; left; exact H | simpl; lia ].
  - destruct (existsb (same_value_zero x) seen) eqn:Hx.
    + destruct (IH seen Hseen) as [Hd [Hin [Hout Hlen]]].
      split; [ exact Hd | ].
      split.
      { intros y [Hy | [Hy | Hy]].
        - apply Hin. left. exact Hy.
        - subst y. apply Hin. left.
          apply existsb_exists in Hx. destruct Hx as [z [Hz Hxz]].
          apply same_value_zero_eq in Hxz. subst z. exact Hz.
        - apply Hin. right. exact Hy. }
      split.
      { intros y Hy. destruct (Hout y Hy) as [H | H];
          [ left; exact H | right; right; exact H ]. }
      simpl. lia.
    + destruct (IH (seen ++ [x]) (pairwise_distinct_snoc seen x Hseen Hx))
        as [Hd [Hin [Hout Hlen]]].
      split; [ exact Hd | ].
      split.
      { intros y [Hy | [Hy | Hy]].
        - apply Hin. left. apply in_or_app. left. exact Hy.
        - subst y. apply Hin. left. apply in_or_app. right. left. reflexivity.
        - apply Hin. right. exact Hy. }
      split.
      { intros y Hy. destruct (Hout y Hy) as [H | H].
        - apply in_app_or in H. destruct H as [H | [H | []]].
          + left. exact H.
          + right. left. exact H.
        - right. right. exact H. }
      rewrite length_app in Hlen. simpl in *. lia.
Qed.

Variable JSON_stringify : list string -> value -> string.
Variable JSON_parse : string -> result value.
Variable getSystemPrompt : string.
Variable create : Request -> result (option string).
Variable startTime endTime : Z.

(** X11. When the reply parses as a sequence of records,
    [summary.articlesFound] holds the article of every record that is
    kept and nothing else, and no two of its entries are the same value:
    an article named by several records is listed once. *)
Theorem articles_are_listed_once
        (data : value) (c0 : ascii) (content : string) (cs : list value) :
  fieldless data = false ->
  (forall request, create request = Ok (Some (String c0 content))) ->
  JSON_parse (String c0 content) = Ok (VArr cs) ->
  forallb (fun c => negb (nullish c)) cs = true ->
  exists r,
    fst (classifyData JSON_stringify JSON_parse getSystemPrompt create
                      startTime endTime data) = Ok r
    /\ pairwise_distinct (articlesFound (summary r)) = true
    /\ (forall c, In c (classifications r) ->
                  In (attr c "article") (articlesFound (summary r)))
    /\ (forall a, In a (articlesFound (summary r)) ->
                  exists c, In c (classifications r) /\ attr c "article" = a)
    /\ List.length (articlesFound (summary r))
       <= List.length (classifications r).
Proof.
  intros Hdata Hcreate Hparse Hcs.
  assert (Hfp : extractFieldPaths data "" <> []).
  { intros H. apply extract_empty_iff in H. congruence. }
  unfold classifyData.
  destruct (extractFieldPaths data "") as [ | p ps ]; [ congruence | ].
  cbn [List.length Nat.eqb fst]. rewrite Hcreate. cbn [bind].
  rewrite Hparse, (summarize_array _ _ _ cs Hcs).
  eexists. split; [ reflexivity | ].
  cbn [summary articlesFound classifications].
  destruct (set_to_array_spec
              (map (fun c => attr c "article") (filter complete cs)) []
              eq_refl) as [Hd [Hin [Hout Hlen]]].
  split; [ exact Hd | ].
  split.
  { intros c Hc. apply Hin. right. apply in_map_iff. exists c. tauto. }
  split.
  { intros a Ha. destruct (Hout a Ha) as [[] | H].
    apply in_map_iff in H. destruct H as [c [Hc Hk]]. exists c. tauto. }
  rewrite length_map in Hlen. exact Hlen.
Qed.

End Articles.

Lemma articles_are_listed_once_witness :
  let data := VObj [("email", VStr "[REDACTED]")] in
  let create := fun _ : GDPRClassifier.Request => Ok (Some "[...]") in
  let JSON_parse := fun _ : string => Ok (VArr Props.sample_response) in
  exists r,
    fst (GDPRClassifier.classifyData (fun _ _ => "{}") JSON_parse "prompt"
                                     create 0%Z 5%Z data) = Ok r
    /\ Checks.pairwise_distinct
         (GDPRClassifier.articlesFound (GDPRClassifier.summary r)) = true
    /\ (forall c, In c (GDPRClassifier.classifications r) ->
                  In (Props.attr c "article")
                     (GDPRClassifier.articlesFound (GDPRClassifier.summary r)))
    /\ (forall a,
          In a (GDPRClassifier.articlesFound (GDPRClassifier.summary r)) ->
          exists c, In c (GDPRClassifier.classifications r)
                    /\ Props.attr c "article" = a)
    /\ List.length (GDPRClassifier.articlesFound (GDPRClassifier.summary r))
       <= List.length (GDPRClassifier.classifications r).
Proof.
  apply (articles_are_listed_once
           (fun _ _ => "{}") (fun _ : string => Ok (VArr Props.sample_response))
           "prompt" (fun _ : GDPRClassifier.Request => Ok (Some "[...]"))
           0%Z 5%Z (VObj [("email", VStr "[REDACTED]")]) "["%char "...]"
           Props.sample_response).
  - reflexivity.
  - reflexivity.
  - reflexivity.
  - reflexivity.
Defined.

(** ** The depth of the field paths *)

Section PathDepth.
Import GDPRClassifier Props Checks.

Lemma dots_append a b : dots (a +++ b) = dots a + dots b.
Proof.
  induction a as [ | c tl IH ]; cbn [String.append dots]; [ reflexivity | ].
  rewrite IH. lia.
Qed.

Lemma split_dot_length s : List.length (split_dot s) = S (dots s).
Proof.
  induction s as [ | c tl IH ]; cbn [split_dot dots]; [ reflexivity | ].
  destruct (Ascii.eqb c ".").
  - cbn [List.length]. rewrite IH. reflexivity.
  - destruct (split_dot tl) as [ | seg segs ]; [ discriminate | ].
    cbn [List.length] in *. lia.
Qed.

Local Notation "'bound' prefix" := (Nat.max 3 (dots prefix + 1))
  (at level 10).

Lemma paths_are_shallow obj :
  forall prefix,
    keys_dot_free obj = true ->
    Forall (fun p => dots p <= bound prefix) (extractFieldPaths obj prefix).
Proof.
  induction obj as [ | | b | n | s | items IH | entries IH ] using value_ind;
    intros prefix Hfree; try (cbn [extractFieldPaths]; constructor).
  - (* array *)
    destruct items as [ | first tl ]; cbn [extractFieldPaths]; [ constructor | ].
    inversion IH as [ | ? ? Hfirst _ ]; subst.
    cbn [keys_dot_free forallb] in Hfree.
    apply andb_true_iff in Hfree. destruct Hfree as [Hf _].
    assert (Hd : dots (prefix +++ "[0]") = dots prefix)
      by (rewrite dots_append; cbn; lia).
    assert (Hrec : Forall (fun p => dots p <= bound prefix)
                          (extractFieldPaths first (prefix +++ "[0]"))).
    { specialize (Hfirst (prefix +++ "[0]") Hf). rewrite Hd in Hfirst.
      exact Hfirst. }
    destruct (is_object first).
    + constructor; [ rewrite Hd; lia | exact Hrec ].
    + constructor; [ rewrite Hd; lia | constructor ].
  - (* object *)
    rewrite extract_object. cbn [keys_dot_free] in Hfree.
    enough (H : forall fields,
               Forall (fun p => dots p <= bound prefix) fields ->
               Forall (fun p => dots p <= bound prefix)
                      (paths_loop prefix entries fields))
      by (apply H; constructor).
    induction IH as [ | [key v] tl Hv _ IHtl ]; intros fields Hfields;
      cbn [paths_loop]; [ exact Hfields | ].
    cbn [forallb fst snd] in Hfree.
    apply andb_true_iff in Hfree. destruct Hfree as [Hkv Htl].
    apply andb_true_iff in Hkv. destruct Hkv as [Hkey Hvfree].
    apply Nat.eqb_eq in Hkey.
    cbv zeta. apply (IHtl Htl).
    set (fieldPath := if negb (String.eqb prefix "")
                      then prefix +++ "." +++ key else key).
    assert (Hpath : dots fieldPath <= dots prefix + 1).
    { unfold fieldPath. destruct (String.eqb prefix ""); cbn [negb].
      - lia.
      - rewrite !dots_append, Hkey. cbn. lia. }
    assert (Hone : Forall (fun p => dots p <= bound prefix)
                          (fields ++ [fieldPath])).
    { apply Forall_app. split; [ exact Hfields | ].
      constructor; [ lia | constructor ]. }
    destruct (is_object v && (List.length (split_dot prefix) <? 3)) eqn:Hgo;
      [ | exact Hone ].
    apply andb_true_iff in Hgo. destruct Hgo as [_ Hdepth].
    apply Nat.ltb_lt in Hdepth. rewrite split_dot_length in Hdepth.
    apply Forall_app. split; [ exact Hone | ].
    specialize (Hv fieldPath Hvfree).
    eapply Forall_impl; [ | exact Hv ].
    cbv beta. intros p Hp. lia.
Qed.

(** X12. When no key of the data holds a dot, every field path that
    [extractFieldPaths] returns has at most four segments: objects are
    not followed below the fourth level of keys, however deep the data
    is, and a step into an array adds [[0]] to a segment and no segment. *)
Theorem field_paths_have_at_most_four_segments (data : value) :
  keys_dot_free data = true ->
  Forall (fun p => List.length (split_dot p) <= 4)
         (extractFieldPaths data "").
Proof.
  intros Hfree. pose proof (paths_are_shallow data "" Hfree) as H.
  eapply Forall_impl; [ | exact H ].
  cbv beta. intros p Hp. rewrite split_dot_length.
  cbn [dots Nat.add Nat.max] in Hp. lia.
Qed.

End PathDepth.

Lemma field_paths_have_at_most_four_segments_witness :
  let data :=
    VObj [("a", VObj [("b", VArr [VObj [("c", VObj [("d", VObj [("e", VNum 1)])])]])])] in
  Checks.keys_dot_free data = true
  /\ Forall (fun p => List.length (GDPRClassifier.split_dot p) <= 4)
            (GDPRClassifier.extractFieldPaths data "").
Proof.
  split; [ reflexivity | ].
  apply (field_paths_have_at_most_four_segments
           (VObj [("a", VObj [("b", VArr [VObj [("c", VObj [("d", VObj [("e", VNum 1)])])]])])])).
  reflexivity.
Defined.

(** ** Text that no pattern can match *)

Section PlainText.
Import RegExp Matching Props Checks.

Lemma search_sound re :
  forall s p,
    search_from re p s = true ->
    exists pre p' w after,
      s = pre +++ w +++ after
      /\ Matches (ignoreCase re) (source re) p' w after.
Proof.
  induction s as [ | c tl IH ]; intros p H; cbn [search_from] in H.
  - destruct (exec_at re p "") as [[len cs] | ] eqn:Hrun; [ | discriminate ].
    apply exec_at_sound in Hrun. destruct Hrun as [w [after [Hs [_ Hm]]]].
    exists "", p, w, after. split; [ exact Hs | exact Hm ].
  - destruct (exec_at re p (String c tl)) as [[len cs] | ] eqn:Hrun.
    + apply exec_at_sound in Hrun. destruct Hrun as [w [after [Hs [_ Hm]]]].
      exists "", p, w, after. split; [ exact Hs | exact Hm ].
    + destruct (IH (Some c) H) as [pre [p' [w [after [Hs Hm]]]]].
      exists (String c pre), p', w, after.
      split; [ rewrite Hs; reflexivity | exact Hm ].
Qed.

Lemma no_unit_no_match re D s p :
  requires (ignoreCase re) D (source re) = true ->
  string_exists D s = false ->
  search_from re p s = false.
Proof.
  intros Hreq Hs. destruct (search_from re p s) eqn:Hsearch; [ | reflexivity ].
  destruct (search_sound re s p Hsearch) as [pre [p' [w [after [Hw Hm]]]]].
  pose proof (requires_matches _ D _ Hreq _ _ _ Hm) as HD.
  rewrite Hw, !string_exists_append, HD, orb_true_r in Hs. discriminate.
Qed.

Lemma match_from_none re fuel :
  forall p s, search_from re p s = false -> match_from re fuel p s = [].
Proof.
  induction fuel as [ | fuel IH ]; intros p s H; [ reflexivity | ].
  cbn [match_from].
  destruct s as [ | c tl ]; cbn [search_from] in H;
    destruct (exec_at re p _) as [[len cs] | ]; try discriminate.
  - reflexivity.
  - apply IH. exact H.
Qed.

Lemma registry_requires_trigger :
  forallb (fun re => requires (ignoreCase re) trigger (source re)) registry
  = true.
Proof. vm_compute. reflexivity. Qed.

Lemma registry_silent re s :
  In re registry -> plain s = true -> has_match re s = false.
Proof.
  intros Hin Hs. unfold has_match. apply (no_unit_no_match re trigger).
  - pose proof registry_requires_trigger as H.
    rewrite forallb_forall in H. apply H. exact Hin.
  - unfold plain in Hs. apply negb_true_iff in Hs. exact Hs.
Qed.

Lemma applied_in_registry this re :
  PIIScrubber.maskCustomPatterns this = [] ->
  In re (applied_patterns this) -> In re registry.
Proof.
  intros Hcustom. unfold applied_patterns. rewrite Hcustom.
  destruct (PIIScrubber.maskEmails this), (PIIScrubber.maskPhones this),
    (PIIScrubber.maskSSNs this), (PIIScrubber.maskCreditCards this),
    (PIIScrubber.maskIPAddresses this);
    cbn [app In registry]; intuition.
Qed.

Lemma plain_match_free this s :
  PIIScrubber.maskCustomPatterns this = [] ->
  plain s = true -> match_free this s = true.
Proof.
  intros Hcustom Hs. unfold match_free. apply forallb_forall.
  intros re Hre. apply negb_true_iff. apply registry_silent; [ | exact Hs ].
  apply (applied_in_registry this); assumption.
Qed.

Lemma all_plain_match_free this v :
  PIIScrubber.maskCustomPatterns this = [] ->
  all_plain v = true -> all_match_free this v = true.
Proof.
  intros Hcustom.
  induction v as [ | | b | n | s | items IH | entries IH ] using value_ind;
    cbn [all_plain all_match_free]; intros H; try reflexivity.
  - apply plain_match_free; assumption.
  - rewrite forallb_forall in *. rewrite Forall_forall in IH.
    intros x Hx. apply IH; [ exact Hx | apply H; exact Hx ].
  - rewrite forallb_forall in *. rewrite Forall_forall in IH.
    intros e He. specialize (H e He). apply andb_true_iff in H.
    destruct H as [Hk Hv].
    rewrite (plain_match_free this _ Hcustom Hk), (IH e He Hv). reflexivity.
Qed.

Lemma plain_own_key k : plain k = true -> own_key k = true.
Proof.
  intros Hk. unfold own_key. destruct (String.eqb k "__proto__") eqn:E;
    [ | reflexivity ].
  apply String.eqb_eq in E. subst k. discriminate Hk.
Qed.

Lemma all_plain_proto_free v : all_plain v = true -> proto_free v = true.
Proof.
  induction v as [ | | b | n | s | items IH | entries IH ] using value_ind;
    cbn [all_plain proto_free]; intros H; try reflexivity.
  - rewrite forallb_forall in *. rewrite Forall_forall in IH.
    intros x Hx. apply IH; [ exact Hx | apply H; exact Hx ].
  - rewrite forallb_forall in *. rewrite Forall_forall in IH.
    intros e He. specialize (H e He). apply andb_true_iff in H.
    destruct H as [Hk Hv].
    rewrite (plain_own_key _ Hk), (IH e He Hv). reflexivity.
Qed.

(** X13. Without custom patterns, a text that holds no digit and none of
    [@], [:], [=] and [_] is returned as it is by [scrubString], under
    every setting of the toggles, and all its statistics are zero; data
    whose string leaves and keys are all such texts goes through
    [scrubObject] unchanged. *)
Theorem plain_text_is_left_alone (this : PIIScrubber.t) (text : string) :
  PIIScrubber.maskCustomPatterns this = [] ->
  plain text = true ->
  PIIScrubber.scrubString this text = text
  /\ PIIScrubber.getScrubStats text (PIIScrubber.scrubString this text)
     = no_statistics
  /\ (forall v, well_ordered v = true -> all_plain v = true ->
                PIIScrubber.scrubObject this v = v).
Proof.
  intros Hcustom Hplain.
  assert (Hsame : PIIScrubber.scrubString this text = text)
    by (apply scrubString_match_free, plain_match_free; assumption).
  split; [ exact Hsame | ]. split.
  - rewrite Hsame. unfold PIIScrubber.getScrubStats, match_all, no_statistics.
    assert (Hnone : forall re, In re registry ->
                      match_from re (S (String.length text)) None text = []).
    { intros re Hre. apply match_from_none.
      apply (registry_silent re text Hre Hplain). }
    rewrite !Hnone by (cbn [registry In]; tauto).
    cbn [List.length Nat.add]. f_equal. lia.
  - intros v Hord Hv. apply scrubObject_fixed; [ exact Hord | | ].
    + apply all_plain_proto_free. exact Hv.
    + apply all_plain_match_free; assumption.
Qed.

End PlainText.

Lemma plain_text_is_left_alone_witness :
  let text := "Hello world, nothing to hide!" in
  PIIScrubber.maskCustomPatterns Props.default_scrubber = []
  /\ Checks.plain text = true
  /\ PIIScrubber.scrubString Props.default_scrubber text = text
  /\ PIIScrubber.getScrubStats
       text (PIIScrubber.scrubString Props.default_scrubber text)
     = Checks.no_statistics
  /\ (forall v, Props.well_ordered v = true -> Checks.all_plain v = true ->
                PIIScrubber.scrubObject Props.default_scrubber v = v).
Proof.
  split; [ reflexivity | ]. split; [ reflexivity | ].
  apply (plain_text_is_left_alone Props.default_scrubber
           "Hello world, nothing to hide!").
  - reflexivity.
  - reflexivity.
Defined.

(** ** A pass replaces what the statistics count *)

Section CountedReplacements.
Import RegExp Matching Passes Props Checks.

Lemma expand_plain tmpl ng matched before after cs :
  dollar_free tmpl = true ->
  expand tmpl ng matched before after cs = tmpl.
Proof.
  unfold dollar_free. rewrite negb_true_iff.
  induction tmpl as [ | c tl IH ]; cbn [string_exists]; intros H;
    [ reflexivity | ].
  apply orb_false_iff in H. destruct H as [Hc Htl].
  destruct c as [[] [] [] [] [] [] [] []];
    try discriminate Hc; cbn [expand]; rewrite (IH Htl); reflexivity.
Qed.

Lemma weave_cons c g gs fills :
  weave (String c g :: gs) fills = String c (weave (g :: gs) fills).
Proof. destruct fills; reflexivity. Qed.

Lemma weave_fill g gs f fs :
  weave (g :: gs) (f :: fs) = g +++ f +++ weave gs fs.
Proof. reflexivity. Qed.

Variable re : RegExp.t.
Variable tmpl : string.
Hypothesis Hglobal : global re = true.
Hypothesis Hplain : dollar_free tmpl = true.

Lemma replace_from_weaves fuel :
  forall before p s,
    exists gaps,
      List.length gaps = S (List.length (match_from re fuel p s))
      /\ s = weave gaps (match_from re fuel p s)
      /\ replace_from re tmpl fuel before p s
         = weave gaps (repeat tmpl (List.length (match_from re fuel p s))).
Proof.
  induction fuel as [ | fuel IH ]; intros before p s.
  - exists [s]. repeat split.
  - cbn [replace_from match_from]. rewrite Hglobal.
    destruct (exec_at re p s) as [[len cs] | ] eqn:Hrun.
    + rewrite (expand_plain tmpl _ _ _ _ _ Hplain).
      destruct len as [ | len ].
      * destruct s as [ | c tl ].
        -- exists [""; ""]. cbn [substring List.length repeat weave].
           rewrite !append_nil_r. repeat split.
        -- destruct (IH (before +++ String c "") (Some c) tl)
             as [gaps [Hlen [Hs Hr]]].
           destruct gaps as [ | g gs ]; [ discriminate | ].
           exists ("" :: String c g :: gs).
           cbn [substring List.length repeat].
           split; [ rewrite <- Hlen; reflexivity | ].
           rewrite !weave_fill, !weave_cons, <- Hs, Hr.
           split; reflexivity.
      * pose proof (exec_at_sound re p s (S len) cs Hrun)
          as [w [after [Hs [Hw _]]]].
        assert (Hm : substring 0 (S len) s = w)
          by (rewrite Hs, Hw; apply substring_append).
        assert (Hd : drop (S len) s = after)
          by (rewrite Hs, Hw; apply drop_append).
        rewrite Hm, Hd.
        destruct (IH (before +++ w) (last_of p w) after)
          as [gaps [Hlen [Ha Hr]]].
        exists ("" :: gaps). cbn [List.length repeat].
        split; [ rewrite Hlen; reflexivity | ].
        rewrite !weave_fill, <- Ha, Hr.
        split; [ exact Hs | reflexivity ].
    + destruct s as [ | c tl ].
      * exists [""]. repeat split.
      * destruct (IH (before +++ String c "") (Some c) tl)
          as [gaps [Hlen [Hs Hr]]].
        destruct gaps as [ | g gs ]; [ discriminate | ].
        exists (String c g :: gs).
        split; [ exact Hlen | ].
        rewrite !weave_cons, <- Hs, Hr. split; reflexivity.
Qed.

End CountedReplacements.

(** X14. With the e-mail toggle on and a placeholder without [$], the
    e-mail pass, which runs first, replaces exactly the matches that the
    statistic counts: the text is a sequence of gaps with the matches of
    the pattern between them, and the pass writes the placeholder in the
    place of each match, [emailsFound] times, leaving the gaps as they
    are.  The later passes work on that text. *)
Theorem email_statistic_counts_the_replacements
        (this : PIIScrubber.t) (text scrubbed : string) :
  PIIScrubber.maskEmails this = true ->
  Checks.dollar_free (PIIScrubber.placeholder this) = true ->
  let n := PIIScrubber.emailsFound (PIIScrubber.getScrubStats text scrubbed) in
  exists gaps post,
    Passes.passes this
    = (PIIScrubber.PATTERNS.email, PIIScrubber.placeholder this) :: post
    /\ List.length gaps = S n
    /\ text = Checks.weave gaps (RegExp.match_all text PIIScrubber.PATTERNS.email)
    /\ PIIScrubber.scrubString this text
       = Passes.run_passes
           post (Checks.weave gaps (repeat (PIIScrubber.placeholder this) n)).
Proof.
  intros Hon Hplain n.
  destruct (replace_from_weaves PIIScrubber.PATTERNS.email
              (PIIScrubber.placeholder this) eq_refl Hplain
              (S (String.length text)) "" None text)
    as [gaps [Hlen [Htext Hout]]].
  exists gaps. eexists.
  split; [ unfold Passes.passes; rewrite Hon; reflexivity | ].
  split; [ exact Hlen | ]. split; [ exact Htext | ].
  rewrite scrubString_passes. unfold Passes.passes. rewrite Hon.
  cbn [app]. unfold Passes.run_passes at 1. cbn [fold_left fst snd].
  unfold RegExp.replace. rewrite Hout. reflexivity.
Qed.

Lemma email_statistic_counts_the_replacements_witness :
  let text := "from a@b.cd to e@f.gh" in
  PIIScrubber.maskEmails Props.default_scrubber = true
  /\ Checks.dollar_free (PIIScrubber.placeholder Props.default_scrubber) = true
  /\ let n := PIIScrubber.emailsFound
                (PIIScrubber.getScrubStats text "from [REDACTED] to [REDACTED]") in
     exists gaps post,
       Passes.passes Props.default_scrubber
       = (PIIScrubber.PATTERNS.email,
          PIIScrubber.placeholder Props.default_scrubber) :: post
       /\ List.length gaps = S n
       /\ text = Checks.weave gaps
                   (RegExp.match_all text PIIScrubber.PATTERNS.email)
       /\ PIIScrubber.scrubString Props.default_scrubber text
          = Passes.run_passes
              post
              (Checks.weave gaps
                 (repeat (PIIScrubber.placeholder Props.default_scrubber) n)).
Proof.
  split; [ reflexivity | ]. split; [ reflexivity | ].
  apply (email_statistic_counts_the_replacements
           Props.default_scrubber "from a@b.cd to e@f.gh"
           "from [REDACTED] to [REDACTED]").
  - reflexivity.
  - reflexivity.
Defined.

(** ** The exports *)

Section Exports.
Import GitHubProvider StripeProvider Checks.

Lemma collect_spec limit per_page pages :
  forall held,
    pages_within per_page pages ->
    List.length held < limit ->
    exists k,
      fst (collect limit pages held) = held ++ fetched (firstn k pages)
      /\ Forall (fun page => succeeded page = true) (firstn k pages)
      /\ List.length (fst (collect limit pages held)) < limit + per_page
      /\ (forall e, snd (collect limit pages held) = Some e ->
                    nth_error pages k = Some (Throw e))
      /\ (Forall (fun page => succeeded page = true) pages ->
          snd (collect limit pages held) = None).
Proof.
  induction pages as [ | page tl IH ]; intros held Hpages Hheld.
  - exists 0. cbn [collect fst snd firstn fetched flat_map].
    rewrite app_nil_r.
    split; [ reflexivity | ]. split; [ constructor | ]. split; [ lia | ].
    split; [ discriminate | reflexivity ].
  - destruct page as [items | e]; cbn [collect].
    + assert (Hitems : List.length items <= per_page)
        by (apply Hpages; left; reflexivity).
      assert (Htl : pages_within per_page tl)
        by (intros x Hx; apply Hpages; right; exact Hx).
      destruct (limit <=? List.length (held ++ items)) eqn:Hfull.
      * exists 1. cbn [fst snd firstn fetched flat_map].
        rewrite app_nil_r.
        split; [ reflexivity | ].
        split; [ repeat constructor | ].
        split; [ rewrite length_app; lia | ].
        split; [ discriminate | reflexivity ].
      * apply Nat.leb_gt in Hfull.
        destruct (IH (held ++ items) Htl Hfull)
          as [k [Hout [Hoks [Hlen [He Hok]]]]].
        exists (S k). cbn [firstn fetched flat_map].
        fold (fetched (firstn k tl)).
        split; [ rewrite Hout, <- app_assoc; reflexivity | ].
        split; [ constructor; [ reflexivity | exact Hoks ] | ].
        split; [ exact Hlen | ].
        split; [ exact He | ].
        intros Hall. apply Hok. inversion Hall; assumption.
    + exists 0. cbn [fst snd firstn fetched flat_map nth_error].
      rewrite app_nil_r.
      split; [ reflexivity | ]. split; [ constructor | ]. split; [ lia | ].
      split; [ intros e' H; inversion H; reflexivity | ].
      intros Hall. inversion Hall as [ | ? ? Hhead _ ]. discriminate Hhead.
Qed.

(** The loop stops at the first fetch that fails, when the limit has not
    been reached before it, with the items of the pages before it. *)
Lemma collect_fails limit pages :
  forall held k e,
    nth_error pages k = Some (Throw e) ->
    Forall (fun page => succeeded page = true) (firstn k pages) ->
    List.length (held ++ fetched (firstn k pages)) < limit ->
    collect limit pages held = (held ++ fetched (firstn k pages), Some e).
Proof.
  induction pages as [ | page tl IH ]; intros held k e Hk Hoks Hlen.
  - destruct k; discriminate Hk.
  - destruct k as [ | k ].
    + cbn [nth_error] in Hk. inversion Hk; subst page.
      cbn [collect firstn fetched flat_map]. rewrite app_nil_r. reflexivity.
    + cbn [nth_error firstn] in Hk, Hoks. cbn [firstn fetched flat_map] in *.
      fold (fetched (firstn k tl)) in *.
      inversion Hoks as [ | ? ? Hpage Htl ]; subst.
      destruct page as [items | e0]; [ | discriminate Hpage ].
      cbn [collect]. rewrite app_assoc in Hlen.
      replace (limit <=? List.length (held ++ items)) with false
        by (symmetry; apply Nat.leb_gt; rewrite length_app in Hlen; lia).
      rewrite (IH (held ++ items) k e Hk Htl Hlen), <- app_assoc.
      reflexivity.
Qed.

(** X15. When no page holds more than 100 items, a GitHub export that
    succeeds holds whole pages only, all of them fetched without failure,
    in the order they were fetched: fewer than 1100 events and fewer than
    600 audit entries.  A fetch of events that fails before 1000 events
    are held fails the export, with the message of the failure after
    [GitHub API error: ], and the export fails in no other way.  A fetch
    of audit entries that fails does not fail the export: the audit
    entries of the pages before it are kept. *)
Theorem export_holds_whole_pages_up_to_the_cap
        (eventPages auditPages : list (result (list value)))
        (org : option string) :
  pages_within 100 eventPages ->
  pages_within 100 auditPages ->
  (forall r, exportUserData eventPages auditPages org = Ok r ->
     exists k j,
       events r = fetched (firstn k eventPages)
       /\ Forall (fun page => succeeded page = true) (firstn k eventPages)
       /\ audit r = fetched (firstn j auditPages)
       /\ Forall (fun page => succeeded page = true) (firstn j auditPages)
       /\ List.length (events r) < 1100
       /\ List.length (audit r) < 600)
  /\ (forall k e,
        nth_error eventPages k = Some (Throw e) ->
        Forall (fun page => succeeded page = true) (firstn k eventPages) ->
        List.length (fetched (firstn k eventPages)) < 1000 ->
        exportUserData eventPages auditPages org
        = Throw (Error ("GitHub API error: " +++ message e)))
  /\ (forall e, exportUserData eventPages auditPages org = Throw e ->
        exists k e', nth_error eventPages k = Some (Throw e')
                     /\ e = Error ("GitHub API error: " +++ message e'))
  /\ (Forall (fun page => succeeded page = true) eventPages ->
      succeeded (exportUserData eventPages auditPages org) = true)
  /\ (forall j e c o r,
        org = Some (String c o) ->
        nth_error auditPages j = Some (Throw e) ->
        Forall (fun page => succeeded page = true) (firstn j auditPages) ->
        List.length (fetched (firstn j auditPages)) < 500 ->
        exportUserData eventPages auditPages org = Ok r ->
        audit r = fetched (firstn j auditPages)).
Proof.
  intros Hevents Haudit.
  destruct (collect_spec 1000 100 eventPages [] Hevents)
    as [k [Hout [Hoks [Hlen [He Hok]]]]]; [ simpl; lia | ].
  destruct (collect_spec 500 100 auditPages [] Haudit)
    as [j [Hout2 [Hoks2 [Hlen2 _]]]]; [ simpl; lia | ].
  cbn [app] in Hout, Hout2.
  split; [ | split; [ | split; [ | split ] ] ].
  - unfold exportUserData.
    destruct (collect 1000 eventPages []) as [held [e | ]];
      cbn [fst snd] in *; [ discriminate | ].
    intros r H. inversion H. cbn [events audit].
    destruct org as [ [ | c o ] | ].
    + exists k, 0. cbn [firstn fetched flat_map List.length].
      repeat split; try assumption; try constructor; lia.
    + exists k, j. repeat split; try assumption; lia.
    + exists k, 0. cbn [firstn fetched flat_map List.length].
      repeat split; try assumption; try constructor; lia.
  - intros k0 e Hk0 Hoks0 Hlen0. unfold exportUserData.
    rewrite (collect_fails 1000 eventPages [] k0 e Hk0 Hoks0 Hlen0).
    reflexivity.
  - unfold exportUserData.
    destruct (collect 1000 eventPages []) as [held [e | ]];
      cbn [fst snd] in *; [ | discriminate ].
    intros e0 H. inversion H. exists k, e.
    split; [ apply He | ]; reflexivity.
  - intros Hall. unfold exportUserData.
    destruct (collect 1000 eventPages []) as [held [e | ]];
      cbn [fst snd] in *; [ discriminate (Hok Hall) | reflexivity ].
  - intros j0 e c o r Horg Hj0 Hoks0 Hlen0. subst org. unfold exportUserData.
    rewrite (collect_fails 500 auditPages [] j0 e Hj0 Hoks0 Hlen0).
    destruct (collect 1000 eventPages []) as [held [e1 | ]];
      [ discriminate | ].
    intros H. inversion H. reflexivity.
Qed.

Lemma total_from total charges :
  fold_left (fun total charge =>
               if String.eqb (status charge) "succeeded"
               then (total + amount charge)%Z else total) charges total
  = (total + calculateTotalCharges charges)%Z.
Proof.
  unfold calculateTotalCharges. revert total.
  induction charges as [ | c tl IH ]; intros total; cbn [fold_left].
  - lia.
  - rewrite IH. symmetry. rewrite IH.
    destruct (String.eqb (status c) "succeeded"); lia.
Qed.

(** X16. [calculateTotalCharges] adds up the amounts of the charges whose
    status is [succeeded] and no other: the total of a list is that of
    its succeeded charges, charges of any other status leave it
    unchanged, and the total over the charges of several customers is the
    sum of the totals per customer. *)
Theorem total_counts_succeeded_charges_only
        (charges more : list Charge) (charge : Charge) :
  calculateTotalCharges (charges ++ more)
  = (calculateTotalCharges charges + calculateTotalCharges more)%Z
  /\ calculateTotalCharges charges
     = calculateTotalCharges (filter charge_succeeded charges)
  /\ calculateTotalCharges (filter charge_succeeded charges)
     = fold_right Z.add 0%Z (map amount (filter charge_succeeded charges))
  /\ calculateTotalCharges (charges ++ charge :: more)
     = (calculateTotalCharges (charges ++ more)
        + if charge_succeeded charge then amount charge else 0)%Z.
Proof.
  assert (Happ : forall a b,
             calculateTotalCharges (a ++ b)
             = (calculateTotalCharges a + calculateTotalCharges b)%Z).
  { intros a b. unfold calculateTotalCharges at 1.
    rewrite fold_left_app. fold (calculateTotalCharges a).
    rewrite total_from. reflexivity. }
  assert (Hcons : forall c l,
             calculateTotalCharges (c :: l)
             = ((if charge_succeeded c then amount c else 0)
                + calculateTotalCharges l)%Z).
  { intros c l. unfold calculateTotalCharges at 1. cbn [fold_left].
    rewrite total_from. unfold charge_succeeded.
    destruct (String.eqb (status c) "succeeded"); lia. }
  split; [ apply Happ | ].
  split.
  { induction charges as [ | c tl IH ]; [ reflexivity | ].
    cbn [filter]. rewrite Hcons.
    destruct (charge_succeeded c) eqn:Hc.
    - rewrite Hcons, Hc, IH. reflexivity.
    - rewrite IH. lia. }
  split.
  { induction charges as [ | c tl IH ]; [ reflexivity | ].
    cbn [filter]. destruct (charge_succeeded c) eqn:Hc; [ | exact IH ].
    rewrite Hcons, Hc, IH. reflexivity. }
  rewrite !Happ, Hcons. lia.
Qed.

End Exports.

Lemma export_holds_whole_pages_up_to_the_cap_witness :
  let eventPages :=
    [Ok [VNum 1; VNum 2]; Throw (Error "rate limit"); Ok [VNum 3]] in
  let auditPages := [Ok [VNum 4]; Throw (Error "Not Found"); Ok [VNum 5]] in
  let org := Some "acme" in
  Checks.pages_within 100 eventPages
  /\ Checks.pages_within 100 auditPages
  /\ (forall r,
        GitHubProvider.exportUserData eventPages auditPages org = Ok r ->
        exists k j,
          GitHubProvider.events r = Checks.fetched (firstn k eventPages)
          /\ Forall (fun page => Checks.succeeded page = true)
                    (firstn k eventPages)
          /\ GitHubProvider.audit r = Checks.fetched (firstn j auditPages)
          /\ Forall (fun page => Checks.succeeded page = true)
                    (firstn j auditPages)
          /\ List.length (GitHubProvider.events r) < 1100
          /\ List.length (GitHubProvider.audit r) < 600)
  /\ (forall k e,
        nth_error eventPages k = Some (Throw e) ->
        Forall (fun page => Checks.succeeded page = true)
               (firstn k eventPages) ->
        List.length (Checks.fetched (firstn k eventPages)) < 1000 ->
        GitHubProvider.exportUserData eventPages auditPages org
        = Throw (Error ("GitHub API error: " +++ message e)))
  /\ (forall e,
        GitHubProvider.exportUserData eventPages auditPages org = Throw e ->
        exists k e', nth_error eventPages k = Some (Throw e')
                     /\ e = Error ("GitHub API error: " +++ message e'))
  /\ (Forall (fun page => Checks.succeeded page = true) eventPages ->
      Checks.succeeded
        (GitHubProvider.exportUserData eventPages auditPages org) = true)
  /\ (forall j e c o r,
        org = Some (String c o) ->
        nth_error auditPages j = Some (Throw e) ->
        Forall (fun page => Checks.succeeded page = true)
               (firstn j auditPages) ->
        List.length (Checks.fetched (firstn j auditPages)) < 500 ->
        GitHubProvider.exportUserData eventPages auditPages org = Ok r ->
        GitHubProvider.audit r = Checks.fetched (firstn j auditPages)).
Proof.
  assert (H1 : Checks.pages_within 100
                 [Ok [VNum 1; VNum 2]; Throw (Error "rate limit");
                  Ok [VNum 3]]).
  { intros items [H | [H | [H | []]]]; inversion H; simpl; lia. }
  assert (H2 : Checks.pages_within 100
                 [Ok [VNum 4]; Throw (Error "Not Found"); Ok [VNum 5]]).
  { intros items [H | [H | [H | []]]]; inversion H; simpl; lia. }
  split; [ exact H1 | ]. split; [ exact H2 | ].
  apply (export_holds_whole_pages_up_to_the_cap
           [Ok [VNum 1; VNum 2]; Throw (Error "rate limit"); Ok [VNum 3]]
           [Ok [VNum 4]; Throw (Error "Not Found"); Ok [VNum 5]]
           (Some "acme") H1 H2).
Defined.

Section StripeExport.
Import StripeProvider Checks.

Variable chargesList : string -> result (list Charge).
Variable paymentMethodsList : string -> result (list value).

Lemma per_customer_spec todo :
  forall result calls,
    let out := per_customer chargesList paymentMethodsList todo result calls in
    customers (fst out) = customers result
    /\ charges (fst out)
       = charges result
         ++ flat_map (fun c => items_of (chargesList (id c))) todo
    /\ methods (fst out)
       = methods result
         ++ flat_map (fun c => if succeeded (chargesList (id c))
                               then items_of (paymentMethodsList (id c))
                               else []) todo
    /\ snd out
       = calls
         ++ flat_map (fun c => if succeeded (chargesList (id c))
                               then [ChargesList (id c);
                                     PaymentMethodsList (id c)]
                               else [ChargesList (id c)]) todo.
Proof.
  induction todo as [ | c tl IH ]; intros result calls; cbn zeta.
  - cbn [per_customer fst snd flat_map]. rewrite !app_nil_r. auto.
  - cbn [per_customer flat_map].
    destruct (chargesList (id c)) as [cs | e]; cbn [succeeded items_of].
    + destruct (paymentMethodsList (id c)) as [ms | e]; cbn [items_of];
        match goal with
        | |- context [per_customer _ _ tl ?r ?k] =>
            destruct (IH r k) as [H1 [H2 [H3 H4]]]
        end;
        rewrite H1, H2, H3, H4;
        cbn [customers charges methods app];
        rewrite <- ?app_assoc, ?app_nil_r; auto.
    + match goal with
      | |- context [per_customer _ _ tl ?r ?k] =>
          destruct (IH r k) as [H1 [H2 [H3 H4]]]
      end.
      rewrite H1, H2, H3, H4. cbn [app]. rewrite <- ?app_assoc. auto.
Qed.

(** X17. A Stripe export fails only when the customer search fails, and
    then with a [Stripe API error: ] message and no listing requested.
    Otherwise it returns the customers found, the charges of every
    customer whose charges could be listed, and the payment methods of
    those of them whose payment methods could be listed too, in customer
    order; for a customer whose charges could not be listed the payment
    methods are not requested. *)
Theorem stripe_export_keeps_what_was_fetched
        (data : list Customer) (e : error) :
  (exists r,
     fst (exportCustomerData (Ok data) chargesList paymentMethodsList) = Ok r
     /\ customers r = data
     /\ charges r = flat_map (fun c => items_of (chargesList (id c))) data
     /\ methods r
        = flat_map (fun c => if succeeded (chargesList (id c))
                             then items_of (paymentMethodsList (id c))
                             else []) data)
  /\ snd (exportCustomerData (Ok data) chargesList paymentMethodsList)
     = flat_map (fun c => if succeeded (chargesList (id c))
                          then [ChargesList (id c); PaymentMethodsList (id c)]
                          else [ChargesList (id c)]) data
  /\ exportCustomerData (Throw e) chargesList paymentMethodsList
     = (Throw (Error ("Stripe API error: " +++ message e)), []).
Proof.
  unfold exportCustomerData. cbn [customers].
  destruct data as [ | c tl ].
  - cbn [List.length Nat.eqb fst snd flat_map].
    split; [ eexists; repeat split | split; reflexivity ].
  - cbn [List.length Nat.eqb].
    destruct (per_customer_spec (c :: tl)
                {| customers := c :: tl; charges := []; methods := [] |} [])
      as [H1 [H2 [H3 H4]]].
    destruct (per_customer chargesList paymentMethodsList (c :: tl) _ [])
      as [r calls].
    cbn [fst snd customers charges methods app] in *.
    split; [ exists r; repeat split; assumption | ].
    split; [ exact H4 | reflexivity ].
Qed.

End StripeExport.

(** ** The keys of the structural sample *)

Section KeyOrder.
Import Props.

Lemma plain_keys_ascend keys lo :
  forallb not_index keys = true -> distinct keys = true ->
  ascending_from lo keys = true.
Proof.
  destruct keys as [ | k tl ]; [ reflexivity | ].
  cbn [forallb ascending_from]. intros Hn Hd.
  apply andb_true_iff in Hn. destruct Hn as [Hk Htl].
  unfold not_index in Hk. destruct (Obj.array_index k); [ discriminate | ].
  rewrite Htl. exact Hd.
Qed.

Lemma existsb_filter_false (f p : string -> bool) keys :
  existsb f keys = false -> existsb f (filter p keys) = false.
Proof.
  induction keys as [ | k tl IH ]; cbn [existsb filter]; intros H;
    [ reflexivity | ].
  apply orb_false_iff in H. destruct H as [Hk Htl].
  destruct (p k); cbn [existsb]; rewrite ?Hk, (IH Htl); reflexivity.
Qed.

Lemma distinct_filter (p : string -> bool) keys :
  distinct keys = true -> distinct (filter p keys) = true.
Proof.
  induction keys as [ | k tl IH ]; cbn [distinct filter]; intros H;
    [ reflexivity | ].
  apply andb_true_iff in H. destruct H as [Hk Htl].
  destruct (p k); [ | exact (IH Htl) ].
  cbn [distinct]. apply negb_true_iff in Hk.
  rewrite (existsb_filter_false _ p _ Hk), (IH Htl). reflexivity.
Qed.

(** The keys other than [__proto__] of an object are in property order. *)
Lemma ascending_filter_own keys :
  forall lo,
    ascending_from lo keys = true ->
    ascending_from lo (filter own_key keys) = true.
Proof.
  induction keys as [ | k tl IH ]; intros lo H; cbn [filter];
    [ reflexivity | ].
  cbn [ascending_from] in H.
  destruct (Obj.array_index k) as [n | ] eqn:Hidx.
  - assert (Hown : own_key k = true).
    { unfold own_key. destruct (String.eqb k "__proto__") eqn:E;
        [ | reflexivity ].
      apply String.eqb_eq in E. subst k. discriminate Hidx. }
    rewrite Hown. cbn [ascending_from]. rewrite Hidx.
    apply andb_true_iff in H. destruct H as [Hlo Htl].
    rewrite Hlo. exact (IH _ Htl).
  - apply andb_true_iff in H. destruct H as [Hn Hd].
    destruct (own_key k) eqn:Hown.
    + cbn [ascending_from]. rewrite Hidx.
      rewrite (forallb_filter _ _ own_key _ Hn).
      pose proof (distinct_filter own_key (k :: tl) Hd) as Hd'.
      cbn [filter] in Hd'. rewrite Hown in Hd'. exact Hd'.
    + cbn [distinct] in Hd. apply andb_true_iff in Hd.
      apply plain_keys_ascend;
        [ exact (forallb_filter _ _ own_key _ Hn)
        | exact (distinct_filter own_key tl (proj2 Hd)) ].
Qed.

End KeyOrder.

Section SampleKeys.
Import GDPRClassifier Props Checks.

Lemma sample_is_not_null obj md cd : createDataSample obj md cd <> VNull.
Proof.
  destruct obj as [ | | b | n | s | [ | first tl ] | entries ];
    cbn [createDataSample]; destruct (md <=? cd); cbn [orb]; discriminate.
Qed.

Variables maxDepth currentDepth : nat.

Local Notation "'below'" :=
  (fun e : string * value =>
     (fst e, createDataSample (snd e) maxDepth (currentDepth + 1))).

Local Notation "'kept_keys'" :=
  (filter (fun e : string * value => own_key (fst e))).

Lemma sample_loop_in_order es :
  forall sample count,
    Obj.accessor sample = true ->
    Obj.lookup "__proto__" (Obj.own sample) = None ->
    property_order (map fst (Obj.own sample) ++ filter own_key (map fst es))
    = true ->
    Obj.own
      ((fix loop (es : list (string * value))
            (sample : Obj.t) (count : nat)
            {struct es} : Obj.t :=
          match es with
          | [] => sample
          | (key, v) :: tl =>
              if 5 <=? count then sample
              else loop tl
                     (Obj.set key
                        (createDataSample v maxDepth (currentDepth + 1))
                        true sample)
                     (count + 1)
          end) es sample count)
    = Obj.own sample ++ map below (kept_keys (firstn (5 - count) es)).
Proof.
  induction es as [ | [key v] tl IH ]; intros sample count Hacc Hnone Hord.
  - rewrite firstn_nil. cbn [filter map]. rewrite app_nil_r. reflexivity.
  - destruct (5 <=? count) eqn:Hfull.
    + apply Nat.leb_le in Hfull.
      replace (5 - count) with 0 by lia.
      cbn [firstn filter map]. rewrite app_nil_r. reflexivity.
    + apply Nat.leb_gt in Hfull.
      replace (5 - count) with (S (5 - (count + 1))) by lia.
      cbn [map fst filter firstn snd] in *.
      destruct (own_key key) eqn:Hkey.
      * assert (Hstep : property_order (map fst (Obj.own sample) ++ [key])
                        = true).
        { apply (ascending_prefix _ None (filter own_key (map fst tl))).
          rewrite <- app_assoc. exact Hord. }
        rewrite (set_in_order key _ true sample Hkey Hstep).
        rewrite IH; cbn [Obj.own Obj.accessor].
        -- cbn [map fst snd]. rewrite <- app_assoc. reflexivity.
        -- exact Hacc.
        -- rewrite lookup_app, Hnone. cbn [Obj.lookup].
           unfold own_key in Hkey. apply negb_true_iff in Hkey.
           rewrite Hkey. reflexivity.
        -- rewrite map_app, <- app_assoc. exact Hord.
      * assert (Hproto : key = "__proto__").
        { unfold own_key in Hkey. apply negb_false_iff in Hkey.
          apply String.eqb_eq. exact Hkey. }
        subst key. rewrite (set_proto _ true sample Hnone Hacc).
        rewrite IH; cbn [Obj.own Obj.accessor].
        -- reflexivity.
        -- pose proof (sample_is_not_null v maxDepth (currentDepth + 1)) as Hv.
           destruct (createDataSample v maxDepth (currentDepth + 1));
             try reflexivity.
           congruence.
        -- exact Hnone.
        -- exact Hord.
Qed.

(** X18. Above the depth limit, the sample of an object whose keys are in
    property order holds the keys other than [__proto__] among the first
    five keys of the object, in order and as they are, each with the
    sample of its value one level down: the other keys are left out, and
    a key [__proto__] among the five takes one of the five places and is
    not written.  The sample of a non-empty array is the sample of its
    first element alone. *)
Theorem sample_keeps_the_first_five_keys
        (entries : list (string * value)) (first : value) (others : list value) :
  currentDepth < maxDepth ->
  property_order (map fst entries) = true ->
  createDataSample (VObj entries) maxDepth currentDepth
  = VObj (map below (kept_keys (firstn 5 entries)))
  /\ createDataSample (VArr (first :: others)) maxDepth currentDepth
     = VArr [createDataSample first maxDepth (currentDepth + 1)].
Proof.
  intros Hdepth Hord. apply Nat.leb_gt in Hdepth.
  split.
  - cbn [createDataSample]. rewrite Hdepth. cbn [orb]. f_equal.
    apply (sample_loop_in_order entries Obj.empty 0);
      [ reflexivity | reflexivity | ].
    cbn [Obj.own Obj.empty map app].
    apply ascending_filter_own. exact Hord.
  - cbn [createDataSample]. rewrite Hdepth. reflexivity.
Qed.

End SampleKeys.

Lemma sample_keeps_the_first_five_keys_witness :
  let entries :=
    [("a", VNum 1); ("__proto__", VStr "x"); ("c", VNull); ("d", VBool true);
     ("e", VArr []); ("f", VNum 6)] in
  0 < 2
  /\ Props.property_order (map fst entries) = true
  /\ GDPRClassifier.createDataSample (VObj entries) 2 0
     = VObj (map (fun e : string * value =>
                    (fst e, GDPRClassifier.createDataSample (snd e) 2 (0 + 1)))
                 (filter (fun e : string * value => Props.own_key (fst e))
                         (firstn 5 entries)))
  /\ GDPRClassifier.createDataSample (VArr [VNum 1; VNum 2]) 2 0
     = VArr [GDPRClassifier.createDataSample (VNum 1) 2 (0 + 1)].
Proof.
  split; [ lia | ]. split; [ reflexivity | ].
  apply (sample_keeps_the_first_five_keys 2 0
           [("a", VNum 1); ("__proto__", VStr "x"); ("c", VNull);
            ("d", VBool true); ("e", VArr []); ("f", VNum 6)]
           (VNum 1) [VNum 2]).
  - lia.
  - reflexivity.
Defined.

(** ** A placeholder is a replacement template *)

Section TemplatePlaceholder.
Import RegExp Matching Props Checks.

Lemma replace_from_whole_match re fuel :
  forall before p s, replace_from re "$&" fuel before p s = s.
Proof.
  induction fuel as [ | fuel IH ]; intros before p s; [ reflexivity | ].
  cbn [replace_from expand].
  destruct (exec_at re p s) as [[len cs] | ] eqn:Hrun.
  - pose proof (exec_at_sound re p s len cs Hrun) as [w [after [Hs [Hw _]]]].
    assert (Hm : substring 0 len s = w)
      by (rewrite Hs, Hw; apply substring_append).
    assert (Hd : drop len s = after)
      by (rewrite Hs, Hw; apply drop_append).
    rewrite Hm, Hd, append_nil_r.
    destruct (global re); [ | symmetry; exact Hs ].
    destruct len as [ | len ].
    + destruct w; [ | discriminate ]. cbn [String.append].
      destruct s as [ | c tl ]; [ reflexivity | rewrite IH; reflexivity ].
    + rewrite IH. symmetry. exact Hs.
  - destruct s as [ | c tl ]; [ reflexivity | rewrite IH; reflexivity ].
Qed.

Lemma fold_replace_whole_match patterns :
  forall s,
    fold_left (fun scrubbed pattern => replace scrubbed pattern "$&")
              patterns s = s.
Proof.
  induction patterns as [ | re tl IH ]; intros s; cbn [fold_left];
    [ reflexivity | ].
  unfold replace at 2. rewrite replace_from_whole_match. apply IH.
Qed.

(** X19. The placeholder is used as a replacement template.  When it is
    configured as [$&], which stands for the matched text, every pass
    writes back what it matched: whatever the toggles and the custom
    patterns, [scrubString] returns what the API-key pass alone makes of
    the text, and returns the text as it is, addresses and numbers
    included, when there is no API-key assignment in it. *)
Theorem dollar_placeholder_keeps_the_matches
        (this : PIIScrubber.t) (text : string) :
  PIIScrubber.placeholder this = "$&" ->
  PIIScrubber.scrubString this text
  = replace text PIIScrubber.PATTERNS.apiKey "$1: $&"
  /\ (has_match PIIScrubber.PATTERNS.apiKey text = false ->
      PIIScrubber.scrubString this text = text).
Proof.
  intros Hph.
  assert (Hid : forall s re, replace s re "$&" = s)
    by (intros s re; unfold replace; apply replace_from_whole_match).
  assert (Hall : PIIScrubber.scrubString this text
                 = replace text PIIScrubber.PATTERNS.apiKey "$1: $&").
  { unfold PIIScrubber.scrubString. rewrite Hph.
    rewrite fold_replace_whole_match, !Hid.
    destruct (PIIScrubber.maskEmails this), (PIIScrubber.maskPhones this),
      (PIIScrubber.maskSSNs this), (PIIScrubber.maskCreditCards this),
      (PIIScrubber.maskIPAddresses this); rewrite ?Hid; reflexivity. }
  split; [ exact Hall | ].
  intros Hnone. rewrite Hall. apply replace_no_match. exact Hnone.
Qed.

End TemplatePlaceholder.

Lemma dollar_placeholder_keeps_the_matches_witness :
  let this :=
    PIIScrubber.constructor
      (ScrubConfig.Make None None None None None None (Some "$&")) in
  let text := "write to a@b.cd or call 555-123-4567" in
  PIIScrubber.placeholder this = "$&"
  /\ PIIScrubber.scrubString this text
     = RegExp.replace text PIIScrubber.PATTERNS.apiKey "$1: $&"
  /\ (Props.has_match PIIScrubber.PATTERNS.apiKey text = false ->
      PIIScrubber.scrubString this text = text).
Proof.
  split; [ reflexivity | ].
  apply (dollar_placeholder_keeps_the_matches
           (PIIScrubber.constructor
              (ScrubConfig.Make None None None None None None (Some "$&")))
           "write to a@b.cd or call 555-123-4567").
  reflexivity.
Defined.

(** ** Short numbers *)

Section ShortNumbers.
Import RegExp Matching Props Checks.

Lemma count_units_append D a b :
  count_units D (a +++ b) = count_units D a + count_units D b.
Proof.
  induction a as [ | c tl IH ]; cbn [String.append count_units];
    [ reflexivity | rewrite IH; lia ].
Qed.

Lemma least_units_matches ic D r :
  forall p w after,
    Matches ic r p w after -> least_units ic D r <= count_units D w.
Proof.
  induction r as [ | cs | r1 IH1 r2 IH2 | r1 IH1 r2 IH2 | i r1 IH1
                 | r1 IH1 mn mx | | | ];
    cbn [least_units Matches]; intros p w after Hm; try lia.
  - destruct Hm as [c [-> Hc]]. cbn [count_units].
    destruct (forallb _ all_ascii) eqn:Hall; [ | lia ].
    rewrite (class_subset ic cs D c Hall Hc). lia.
  - destruct Hm as [w1 [w2 [-> [Hm1 Hm2]]]]. rewrite count_units_append.
    specialize (IH1 _ _ _ Hm1). specialize (IH2 _ _ _ Hm2). lia.
  - destruct Hm as [Hm | Hm]; [ specialize (IH1 _ _ _ Hm)
                              | specialize (IH2 _ _ _ Hm) ]; lia.
  - eauto.
  - induction Hm as [ mn mx p after Hdone
                    | mn mx p w1 w2 after Hmx HL Hne HR IHR ].
    + destruct Hdone as [-> | ->]; [ rewrite Nat.min_0_r | ];
        [ | destruct mx ]; cbn; lia.
    + rewrite count_units_append. specialize (IH1 _ _ _ HL).
      set (L := least_units ic D r1) in *.
      set (b' := match pred_max mx with
                 | Some k => Nat.min (Nat.pred mn) k
                 | None => Nat.pred mn
                 end) in *.
      set (b := match mx with Some k => Nat.min mn k | None => mn end).
      assert (Hb : b <= S b').
      { unfold b, b'. destruct mx as [ k | ]; cbn [pred_max]; [ | lia ].
        destruct k; [ congruence | ]. cbn [Nat.pred]. lia. }
      assert (Hmul : b * L <= S b' * L)
        by (apply Nat.mul_le_mono_r; exact Hb).
      cbn [Nat.mul] in Hmul. lia.
Qed.

Lemma too_few_units_no_match re D s p :
  count_units D s < least_units (ignoreCase re) D (source re) ->
  search_from re p s = false.
Proof.
  intros Hfew. destruct (search_from re p s) eqn:Hsearch; [ | reflexivity ].
  destruct (search_sound re s p Hsearch) as [pre [p' [w [after [Hw Hm]]]]].
  pose proof (least_units_matches _ D _ _ _ _ Hm) as Hleast.
  rewrite Hw, !count_units_append in Hfew. lia.
Qed.

(** X20. With the network-address toggle off and no custom patterns, a
    text that holds fewer than nine digits and none of [@], [:], [=] and
    [_] is returned as it is by [scrubString], whatever the other toggles:
    every match of the phone, government ID and payment card patterns
    holds at least nine digits.  Its statistics for addresses, phone
    numbers, government IDs, payment cards and credentials are zero. *)
Theorem short_numbers_are_left_alone (this : PIIScrubber.t) (text : string) :
  PIIScrubber.maskCustomPatterns this = [] ->
  PIIScrubber.maskIPAddresses this = false ->
  count_units Passes.digits text < 9 ->
  string_exists symbol text = false ->
  let stats :=
    PIIScrubber.getScrubStats text (PIIScrubber.scrubString this text) in
  PIIScrubber.scrubString this text = text
  /\ PIIScrubber.emailsFound stats = 0
  /\ PIIScrubber.phonesFound stats = 0
  /\ PIIScrubber.ssnsFound stats = 0
  /\ PIIScrubber.creditCardsFound stats = 0
  /\ PIIScrubber.apiKeysFound stats = 0.
Proof.
  intros Hcustom Hip Hdigits Hsymbols stats.
  assert (Hsym : forall re,
             requires (ignoreCase re) symbol (source re) = true ->
             has_match re text = false).
  { intros re Hreq. apply (no_unit_no_match re symbol); assumption. }
  assert (Hnum : forall re,
             9 <= least_units (ignoreCase re) Passes.digits (source re) ->
             has_match re text = false).
  { intros re Hleast. apply (too_few_units_no_match re Passes.digits). lia. }
  assert (Hemail : has_match PIIScrubber.PATTERNS.email text = false)
    by (apply Hsym; vm_compute; reflexivity).
  assert (Hphone : has_match PIIScrubber.PATTERNS.phone text = false)
    by (apply Hnum; vm_compute; lia).
  assert (Hssn : has_match PIIScrubber.PATTERNS.ssn text = false)
    by (apply Hnum; vm_compute; lia).
  assert (Hcard : has_match PIIScrubber.PATTERNS.creditCard text = false)
    by (apply Hnum; vm_compute; lia).
  assert (Hapi : has_match PIIScrubber.PATTERNS.apiKey text = false)
    by (apply Hsym; vm_compute; reflexivity).
  assert (Hgithub : has_match PIIScrubber.PATTERNS.githubToken text = false)
    by (apply Hsym; vm_compute; reflexivity).
  assert (Hstripe : has_match PIIScrubber.PATTERNS.stripeKey text = false)
    by (apply Hsym; vm_compute; reflexivity).
  assert (Hfree : match_free this text = true).
  { unfold match_free, applied_patterns. rewrite Hcustom, Hip.
    destruct (PIIScrubber.maskEmails this), (PIIScrubber.maskPhones this),
      (PIIScrubber.maskSSNs this), (PIIScrubber.maskCreditCards this);
      cbn [app forallb];
      rewrite ?Hemail, ?Hphone, ?Hssn, ?Hcard, Hapi, Hgithub, Hstripe;
      reflexivity. }
  split; [ apply scrubString_match_free; exact Hfree | ].
  unfold stats, PIIScrubber.getScrubStats, match_all.
  cbn [PIIScrubber.emailsFound PIIScrubber.phonesFound PIIScrubber.ssnsFound
       PIIScrubber.creditCardsFound PIIScrubber.apiKeysFound].
  rewrite !match_from_none by assumption.
  repeat split.
Qed.

End ShortNumbers.

Lemma short_numbers_are_left_alone_witness :
  let text := "Room 101, open 24h, floor 3" in
  let stats :=
    PIIScrubber.getScrubStats
      text (PIIScrubber.scrubString Props.default_scrubber text) in
  PIIScrubber.maskCustomPatterns Props.default_scrubber = []
  /\ PIIScrubber.maskIPAddresses Props.default_scrubber = false
  /\ Checks.count_units Passes.digits text < 9
  /\ Matching.string_exists Checks.symbol text = false
  /\ PIIScrubber.scrubString Props.default_scrubber text = text
  /\ PIIScrubber.emailsFound stats = 0
  /\ PIIScrubber.phonesFound stats = 0
  /\ PIIScrubber.ssnsFound stats = 0
  /\ PIIScrubber.creditCardsFound stats = 0
  /\ PIIScrubber.apiKeysFound stats = 0.
Proof.
  split; [ reflexivity | ]. split; [ reflexivity | ].
  split; [ vm_compute; lia | ]. split; [ reflexivity | ].
  apply (short_numbers_are_left_alone Props.default_scrubber
           "Room 101, open 24h, floor 3").
  - reflexivity.
  - reflexivity.
  - vm_compute. lia.
  - reflexivity.
Defined.
